(** * goxmldsig: XML digital signatures (signing side)

    A shallow embedding of the signing half of the package [dsig]
    (files [sign.go], [keystore.go], [clock.go], the TLS key store and the
    algorithm registry) together with the parts of the libraries it drives:
    [encoding/base64], [github.com/beevik/etree] and [etreeutils].

    Pointers to XML elements are modelled as locations in an explicit store,
    because the signing code builds its trees by mutating elements that are
    already linked into a parent ([CreateElement] followed by [CreateAttr],
    [SetText], ...).  Functions returning [(value, error)] return a
    [result]; a computation that does not return at all (nil dereference,
    unbounded recursion over a cyclic structure) yields [None]. *)

From stdpp Require Import base option list strings gmap numbers.
From Stdlib Require Import ZArith Lia Strings.Byte Strings.Ascii.

Set Warnings "-register-all,-clear-no-such-hyp".

Open Scope string_scope.
Close Scope list_scope.
Open Scope list_scope.

(* ================================================================== *)
(** * Part I: the model *)
(* ================================================================== *)

(** ** Go values shared by all packages *)

(** A Go [error] is represented by its message. *)
Definition error : Type := string.

(** The pair [(value, error)] returned by fallible Go functions. *)
Inductive result (A : Type) : Type :=
| Ok (a : A)
| Err (e : error).
Arguments Ok {A} a.
Arguments Err {A} e.

Definition is_Ok {A} (r : result A) : bool :=
  match r with Ok _ => true | Err _ => false end.

Abbreviation octets := (list Byte.byte).

(** ** encoding/base64, the standard padded encoding *)

Module base64.

Definition encodeStd : string :=
  "ABCDEFGHIJKLMNOPQRSTUVWXYZabcdefghijklmnopqrstuvwxyz0123456789+/".

Definition StdPadding : ascii := "="%char.

(** [enc.encode[i]] *)
Definition encodeAt (i : Z) : ascii :=
  default "000"%char (String.get (Z.to_nat i) encodeStd).

Definition uint (b : Byte.byte) : Z := Z.of_N (Byte.to_N b).

(** The conversion [byte(v)] of an unsigned integer: its low eight bits. *)
Definition byte_of (v : Z) : Byte.byte :=
  default Byte.x00 (Byte.of_N (Z.to_N (Z.land v 255))).

Definition sextet (val : Z) (shift : Z) : ascii :=
  encodeAt (Z.land (Z.shiftr val shift) 63).

Fixpoint Encode (src : octets) : list ascii :=
  match src with
  | b0 :: b1 :: b2 :: rest =>
      let val := Z.lor (Z.lor (Z.shiftl (uint b0) 16) (Z.shiftl (uint b1) 8)) (uint b2) in
      sextet val 18 :: sextet val 12 :: sextet val 6 :: sextet val 0 :: Encode rest
  | [b0; b1] =>
      let val := Z.lor (Z.shiftl (uint b0) 16) (Z.shiftl (uint b1) 8) in
      [sextet val 18; sextet val 12; sextet val 6; StdPadding]
  | [b0] =>
      let val := Z.shiftl (uint b0) 16 in
      [sextet val 18; sextet val 12; StdPadding; StdPadding]
  | [] => []
  end.

Definition EncodeToString (src : octets) : string :=
  String.string_of_list_ascii (Encode src).

(** [enc.decodeMap]: the position of a character in the alphabet. *)
Fixpoint indexOf (c : ascii) (alphabet : string) (i : Z) : option Z :=
  match alphabet with
  | EmptyString => None
  | String a rest => if Ascii.eqb a c then Some i else indexOf c rest (i + 1)
  end.

Definition decodeMap (c : ascii) : option Z := indexOf c encodeStd 0.

Definition quantum (d0 d1 d2 d3 : Z) : Z :=
  Z.lor (Z.lor (Z.lor (Z.shiftl d0 18) (Z.shiftl d1 12)) (Z.shiftl d2 6)) d3.

Fixpoint decode (s : list ascii) : option octets :=
  match s with
  | [] => Some []
  | c0 :: c1 :: c2 :: c3 :: rest =>
      d0 ← decodeMap c0;
      d1 ← decodeMap c1;
      if Ascii.eqb c2 StdPadding then
        match rest with
        | [] =>
            if Ascii.eqb c3 StdPadding
            then Some [byte_of (Z.shiftr (quantum d0 d1 0 0) 16)]
            else None
        | _ => None
        end
      else
        d2 ← decodeMap c2;
        if Ascii.eqb c3 StdPadding then
          match rest with
          | [] =>
              let val := quantum d0 d1 d2 0 in
              Some [byte_of (Z.shiftr val 16); byte_of (Z.shiftr val 8)]
          | _ => None
          end
        else
          d3 ← decodeMap c3;
          tl ← decode rest;
          let val := quantum d0 d1 d2 d3 in
          Some (byte_of (Z.shiftr val 16) :: byte_of (Z.shiftr val 8)
                  :: byte_of val :: tl)
  | _ => None
  end.

(** Carriage returns and line feeds are skipped by the decoder. *)
Definition isNewline (c : ascii) : bool :=
  Ascii.eqb c "010"%char || Ascii.eqb c "013"%char.

Definition DecodeString (s : string) : result octets :=
  match decode (List.filter (fun c => negb (isNewline c)) (String.list_ascii_of_string s)) with
  | Some out => Ok out
  | None => Err "illegal base64 data"
  end.

End base64.

(** ** github.com/beevik/etree over an explicit store *)

Module etree.

Record Attr : Type := mkAttr {
  aSpace : string;
  aKey : string;
  aValue : string
}.

(** A [*Element]: an index into the store. *)
Abbreviation loc := nat.

(** The children of an element.  [E] is the representation of a child
    element: a location in the store, or a tree once read back. *)
Inductive Token (E : Type) : Type :=
| TElement (e : E)
| TCharData (data : string)
| TComment (data : string)
| TDirective (data : string)
| TProcInst (target inst : string).
Arguments TElement {E} e.
Arguments TCharData {E} data.
Arguments TComment {E} data.
Arguments TDirective {E} data.
Arguments TProcInst {E} target inst.

Record Element : Type := mkElement {
  Space : string;
  Tag : string;
  Attrs : list Attr;
  Child : list (Token loc);
  parent : option loc
}.

Abbreviation heap := (list Element).

(** *** The store monad *)

Definition M (A : Type) : Type := heap -> option (result A * heap).

Definition ret {A} (a : A) : M A := fun h => Some (Ok a, h).
Definition throw {A} (e : error) : M A := fun h => Some (Err e, h).
Definition bind {A B} (m : M A) (k : A -> M B) : M B :=
  fun h =>
    match m h with
    | Some (Ok a, h') => k a h'
    | Some (Err e, h') => Some (Err e, h')
    | None => None
    end.

(** Lifting of a read-only fallible call. *)
Definition lift {A} (r : heap -> result A) : M A := fun h => Some (r h, h).

Definition load (l : loc) : M Element :=
  fun h => match h !! l with
           | Some e => Some (Ok e, h)
           | None => None
           end.

Definition store (l : loc) (e : Element) : M unit :=
  fun h => match h !! l with
           | Some _ => Some (Ok tt, <[l := e]> h)
           | None => None
           end.

(** [&Element{...}] *)
Definition alloc (e : Element) : M loc :=
  fun h => Some (Ok (length h), h ++ [e]).

Global Instance M_ret : MRet M := @ret.
Global Instance M_bind : MBind M := fun A B k m => bind m k.

(** *** Field updates *)

Definition set_Space (s : string) (e : Element) : Element :=
  {| Space := s; Tag := Tag e; Attrs := Attrs e; Child := Child e; parent := parent e |}.
Definition set_Attrs (a : list Attr) (e : Element) : Element :=
  {| Space := Space e; Tag := Tag e; Attrs := a; Child := Child e; parent := parent e |}.
Definition set_Child (c : list (Token loc)) (e : Element) : Element :=
  {| Space := Space e; Tag := Tag e; Attrs := Attrs e; Child := c; parent := parent e |}.
Definition set_parent (p : option loc) (e : Element) : Element :=
  {| Space := Space e; Tag := Tag e; Attrs := Attrs e; Child := Child e; parent := p |}.

(** [e.f = v] through a pointer *)
Definition modify (l : loc) (f : Element -> Element) : M unit :=
  e ← load l; store l (f e).

(** *** Names *)

(** [spaceDecompose]: split [space:key] at the first colon. *)
Definition spaceDecompose (str : string) : string * string :=
  match String.index 0 ":" str with
  | None => ("", str)
  | Some colon =>
      (String.substring 0 colon str,
       String.substring (colon + 1) (String.length str - (colon + 1)) str)
  end.

(** [spaceMatch a b]: an empty search space matches every space. *)
Definition spaceMatch (a b : string) : bool :=
  if decide (a = "") then true else bool_decide (a = b).

(** *** Attributes *)

(** The loop of [createAttr]: overwrite the first attribute with the same
    space and key, else append. *)
Fixpoint createAttr (space key value : string) (attrs : list Attr) : list Attr :=
  match attrs with
  | [] => [mkAttr space key value]
  | a :: rest =>
      if bool_decide (space = aSpace a) && bool_decide (key = aKey a)
      then mkAttr (aSpace a) (aKey a) value :: rest
      else a :: createAttr space key value rest
  end.

Definition CreateAttr (e : loc) (key value : string) : M unit :=
  let '(space, skey) := spaceDecompose key in
  modify e (fun el => set_Attrs (createAttr space skey value (Attrs el)) el).

Fixpoint selectAttrValue (space key dflt : string) (attrs : list Attr) : string :=
  match attrs with
  | [] => dflt
  | a :: rest =>
      if spaceMatch space (aSpace a) && bool_decide (key = aKey a)
      then aValue a
      else selectAttrValue space key dflt rest
  end.

Definition SelectAttrValue (e : loc) (key dflt : string) : M string :=
  let '(space, skey) := spaceDecompose key in
  el ← load e; mret (selectAttrValue space skey dflt (Attrs el)).

(** The loop of [RemoveAttr]: drop the first attribute with the same
    space and key. *)
Fixpoint removeAttr (space key : string) (attrs : list Attr) : list Attr :=
  match attrs with
  | [] => []
  | a :: rest =>
      if bool_decide (space = aSpace a) && bool_decide (key = aKey a)
      then rest
      else a :: removeAttr space key rest
  end.

Definition RemoveAttr (e : loc) (key : string) : M unit :=
  let '(space, skey) := spaceDecompose key in
  modify e (fun el => set_Attrs (removeAttr space skey (Attrs el)) el).

(** *** Children *)

Definition addChild (e : loc) (t : Token loc) : M unit :=
  modify e (fun el => set_Child (Child el ++ [t]) el).

Definition newElement (space tag : string) (parent : option loc) : M loc :=
  e ← alloc {| Space := space; Tag := tag; Attrs := []; Child := []; parent := parent |};
  match parent with
  | Some p => addChild p (TElement e) ;; mret e
  | None => mret e
  end.

Definition CreateElement (e : loc) (tag : string) : M loc :=
  let '(space, stag) := spaceDecompose tag in
  newElement space stag (Some e).

Definition isElementAt (l : loc) (t : Token loc) : bool :=
  match t with TElement c => bool_decide (c = l) | _ => false end.

Fixpoint removeToken (l : loc) (ts : list (Token loc)) : list (Token loc) :=
  match ts with
  | [] => []
  | t :: rest => if isElementAt l t then rest else t :: removeToken l rest
  end.

Definition RemoveChild (e : loc) (t : loc) : M unit :=
  te ← load t;
  if bool_decide (parent te = Some e) then
    modify e (fun el => set_Child (removeToken t (Child el)) el) ;;
    modify t (set_parent None)
  else mret tt.

(** [AddChild]: a token that already has a parent is first unlinked
    from it. *)
Definition AddChild (e : loc) (t : loc) : M unit :=
  te ← load t;
  match parent te with
  | Some p => RemoveChild p t
  | None => mret tt
  end ;;
  modify t (set_parent (Some e)) ;;
  addChild e (TElement t).

Definition isCharData (t : Token loc) : bool :=
  match t with TCharData _ => true | _ => false end.

Fixpoint dropCharData (ts : list (Token loc)) : list (Token loc) :=
  match ts with
  | t :: rest => if isCharData t then dropCharData rest else ts
  | [] => []
  end.

(** [SetText]: the run of character data that opens the element is
    replaced by the text; an empty text leaves no character data. *)
Definition setText (text : string) (ts : list (Token loc)) : list (Token loc) :=
  (if decide (text = "") then [] else [TCharData text]) ++ dropCharData ts.

Definition SetText (e : loc) (text : string) : M unit :=
  modify e (fun el => set_Child (setText text (Child el)) el).

(** *** Deep copy *)

Section dup.
Variable dupElement : loc -> option loc -> M loc.

Definition dupToken (np : loc) (t : Token loc) : M (Token loc) :=
  match t with
  | TElement c => c' ← dupElement c (Some np); mret (TElement c')
  | TCharData d => mret (TCharData d)
  | TComment d => mret (TComment d)
  | TDirective d => mret (TDirective d)
  | TProcInst x y => mret (TProcInst x y)
  end.

Fixpoint dupTokens (np : loc) (ts : list (Token loc)) : M (list (Token loc)) :=
  match ts with
  | [] => mret []
  | t :: rest =>
      t' ← dupToken np t; rest' ← dupTokens np rest; mret (t' :: rest')
  end.
End dup.

(** [e.dup(parent)].  The recursion follows child pointers; [fuel] bounds
    its depth, and running out of it stands for a recursion that does not
    return. *)
Fixpoint dup (fuel : nat) (l : loc) (p : option loc) : M loc :=
  match fuel with
  | O => fun _ => None
  | S fuel' =>
      e ← load l;
      ne ← alloc {| Space := Space e; Tag := Tag e; Attrs := Attrs e;
                    Child := []; parent := p |};
      ch ← dupTokens (dup fuel') ne (Child e);
      modify ne (set_Child ch) ;;
      mret ne
  end.

(** [Copy]: no path of a tree is longer than the number of elements in
    the store. *)
Definition Copy (e : loc) : M loc :=
  fun h => dup (length h) e None h.

(** *** Reading a tree back from the store *)

Inductive Tree : Type :=
| Node (space tag : string) (attrs : list Attr) (children : list (Token Tree)).

Section reify.
Variable reifyElement : loc -> option Tree.

Definition reifyToken (t : Token loc) : option (Token Tree) :=
  match t with
  | TElement c => c' ← reifyElement c; Some (TElement c')
  | TCharData d => Some (TCharData d)
  | TComment d => Some (TComment d)
  | TDirective d => Some (TDirective d)
  | TProcInst x y => Some (TProcInst x y)
  end.

Fixpoint reifyTokens (ts : list (Token loc)) : option (list (Token Tree)) :=
  match ts with
  | [] => Some []
  | t :: rest => t' ← reifyToken t; rest' ← reifyTokens rest; Some (t' :: rest')
  end.
End reify.

(** The tree below [l], when it is at most [depth] deep. *)
Fixpoint reify (depth : nat) (h : heap) (l : loc) : option Tree :=
  match depth with
  | O => None
  | S d =>
      e ← h !! l;
      ch ← reifyTokens (reify d h) (Child e);
      Some (Node (Space e) (Tag e) (Attrs e) ch)
  end.

(** *** Queries on trees *)

Definition children (t : Tree) : list (Token Tree) :=
  match t with Node _ _ _ ch => ch end.

Definition attributes (t : Tree) : list Attr :=
  match t with Node _ _ attrs _ => attrs end.

Definition tag (t : Tree) : string :=
  match t with Node _ tg _ _ => tg end.

Definition space (t : Tree) : string :=
  match t with Node sp _ _ _ => sp end.

(** [ChildElements] *)
Fixpoint ChildElements (ts : list (Token Tree)) : list Tree :=
  match ts with
  | [] => []
  | TElement c :: rest => c :: ChildElements rest
  | _ :: rest => ChildElements rest
  end.

(** [SelectElement]: the first child element with the tag. *)
Definition SelectElement (tg : string) (t : Tree) : option Tree :=
  List.find (fun c => bool_decide (tag c = tg)) (ChildElements (children t)).

(** [Text]: the character data that opens the element. *)
Fixpoint text (ts : list (Token Tree)) : string :=
  match ts with
  | TCharData d :: rest => d +:+ text rest
  | _ => ""
  end.

Definition Text (t : Tree) : string := text (children t).

Definition AttrValue (key dflt : string) (t : Tree) : string :=
  let '(sp, skey) := spaceDecompose key in
  selectAttrValue sp skey dflt (attributes t).

End etree.

(** ** etreeutils: namespace contexts *)

(** Modelled from the spec: the package [etreeutils] (namespace contexts,
    section 4.C) is not among the sources.  [NSBuildParentContext] walks from
    the parent of an element to the root so that nearer declarations
    override farther ones, [SubContext] overlays the [xmlns] and [xmlns:*]
    attributes of an element, and [NSDetatch] copies an element and writes
    every declaration in scope on the root of the copy. *)
Module etreeutils.
Import etree.

Definition defaultPrefix : string := "".
Definition xmlnsPrefix : string := "xmlns".
Definition xmlPrefix : string := "xml".

Definition XMLNamespace : string := "http://www.w3.org/XML/1998/namespace".
Definition XMLNSNamespace : string := "http://www.w3.org/2000/xmlns/".

Definition ErrReservedNamespace : error :=
  "disallowed declaration of reserved namespace".

Record NSContext : Type := mkNSContext {
  prefixes : gmap string string
}.

Definition DefaultNSContext : NSContext :=
  mkNSContext (<[defaultPrefix := XMLNamespace]>
               (<[xmlPrefix := XMLNamespace]>
                (<[xmlnsPrefix := XMLNSNamespace]> ∅))).

Definition declare (prefix namespace : string) (ctx : NSContext) : result NSContext :=
  if bool_decide (namespace = XMLNamespace) && negb (bool_decide (prefix = xmlPrefix))
  then Err ErrReservedNamespace
  else if bool_decide (namespace = XMLNSNamespace)
  then Err ErrReservedNamespace
  else Ok (mkNSContext (<[prefix := namespace]> (prefixes ctx))).

Definition isPrefixDecl (a : Attr) : bool := bool_decide (aSpace a = xmlnsPrefix).
Definition isDefaultDecl (a : Attr) : bool :=
  bool_decide (aSpace a = defaultPrefix) && bool_decide (aKey a = xmlnsPrefix).

(** The loop of [SubContext] over the attributes of the element. *)
Fixpoint declareAll (attrs : list Attr) (ctx : NSContext) : result NSContext :=
  match attrs with
  | [] => Ok ctx
  | a :: rest =>
      if isPrefixDecl a then
        match declare (aKey a) (aValue a) ctx with
        | Ok ctx' => declareAll rest ctx'
        | Err e => Err e
        end
      else if isDefaultDecl a then
        match declare defaultPrefix (aValue a) ctx with
        | Ok ctx' => declareAll rest ctx'
        | Err e => Err e
        end
      else declareAll rest ctx
  end.

Definition SubContext (ctx : NSContext) (el : loc) : M NSContext :=
  e ← load el;
  lift (fun _ => declareAll (Attrs e) ctx).

Fixpoint buildParentContext (fuel : nat) (el : loc) : M NSContext :=
  match fuel with
  | O => fun _ => None
  | S fuel' =>
      e ← load el;
      match parent e with
      | Some p =>
          ctx ← buildParentContext fuel' p;
          SubContext ctx p
      | None => mret DefaultNSContext
      end
  end.

(** No chain of parents is longer than the number of elements in the
    store. *)
Definition NSBuildParentContext (el : loc) : M NSContext :=
  fun h => buildParentContext (length h) el h.

(** [SortedAttrs.Less] *)
Definition Less (a b : Attr) : bool :=
  if isDefaultDecl b then false
  else if isDefaultDecl a then true
  else if isPrefixDecl a then
    (if isPrefixDecl b then String.ltb (aKey a) (aKey b) else true)
  else if isPrefixDecl b then false
  else if bool_decide (aSpace a = defaultPrefix) then
    (if bool_decide (aSpace b = defaultPrefix) then String.ltb (aKey a) (aKey b) else true)
  else if bool_decide (aSpace b = defaultPrefix) then false
  else if bool_decide (aSpace a = aSpace b) then String.ltb (aKey a) (aKey b)
  else String.ltb (aSpace a) (aSpace b).

Fixpoint insertSorted (a : Attr) (sorted : list Attr) : list Attr :=
  match sorted with
  | [] => [a]
  | b :: rest => if Less a b then a :: sorted else b :: insertSorted a rest
  end.

(** [sort.Sort(SortedAttrs(attrs))] *)
Definition sortAttrs (attrs : list Attr) : list Attr :=
  List.fold_right insertSorted [] attrs.

(** The declarations [NSDetatch] writes for the prefixes of a context:
    none for the implicit [xml] and [xmlns], none for the initial default
    namespace. *)
Definition declarationOf (entry : string * string) : option Attr :=
  let '(prefix, namespace) := entry in
  if bool_decide (prefix = xmlnsPrefix) || bool_decide (prefix = xmlPrefix) then None
  else if bool_decide (prefix = defaultPrefix) && bool_decide (namespace = XMLNamespace)
  then None
  else if negb (bool_decide (prefix = defaultPrefix))
  then Some (mkAttr xmlnsPrefix prefix namespace)
  else Some (mkAttr "" xmlnsPrefix namespace).

Definition detachedAttrs (ctx : NSContext) (attrs : list Attr) : list Attr :=
  sortAttrs
    (List.filter (fun a => negb (isPrefixDecl a || isDefaultDecl a)) attrs
     ++ omap declarationOf (map_to_list (prefixes ctx))).

Definition NSDetatch (ctx : NSContext) (el : loc) : M loc :=
  ctx' ← SubContext ctx el;
  el' ← Copy el;
  modify el' (fun e => set_Attrs (detachedAttrs ctx' (Attrs e)) e) ;;
  mret el'.

End etreeutils.

(** ** The libraries behind the key stores and the clock *)

Module crypto.

(** [crypto.Hash] is an unsigned integer naming a hash function. *)
Definition Hash : Type := N.

Definition MD4 : Hash := 1%N.
Definition MD5 : Hash := 2%N.
Definition SHA1 : Hash := 3%N.
Definition SHA224 : Hash := 4%N.
Definition SHA256 : Hash := 5%N.
Definition SHA384 : Hash := 6%N.
Definition SHA512 : Hash := 7%N.

(** [Hash.Size]: the length in bytes of a digest, for the hashes named
    above. *)
Definition Size (h : Hash) : nat :=
  if bool_decide (h = MD4) then 16
  else if bool_decide (h = MD5) then 16
  else if bool_decide (h = SHA1) then 20
  else if bool_decide (h = SHA224) then 28
  else if bool_decide (h = SHA256) then 32
  else if bool_decide (h = SHA384) then 48
  else if bool_decide (h = SHA512) then 64
  else 0.

Record rsa_PrivateKey : Type := {
  rsa_N : Z;
  rsa_E : Z;
  rsa_D : Z
}.

(** [crypto.PrivateKey]: an interface value holding a key of some
    algorithm, or nothing. *)
Inductive PrivateKey : Type :=
| RSAKey (k : rsa_PrivateKey)
| ECDSAKey (d : Z)
| Ed25519Key (seed : octets)
| NoKey.

End crypto.

Module x509.

Record Certificate : Type := {
  Raw : octets;
  (** [Subject.String()] *)
  Subject : string
}.

End x509.

Module clockwork.
Section Clock.
Variables World Time Chan : Type.

(** The interface [clockwork.Clock]; a duration is a number of
    nanoseconds. *)
Record Clock : Type := {
  After : Z -> World -> Chan * World;
  Sleep : Z -> World -> World;
  Now : World -> Time * World
}.
End Clock.
Arguments After {World Time Chan} c d w.
Arguments Sleep {World Time Chan} c d w.
Arguments Now {World Time Chan} c w.
End clockwork.

(** ** Package dsig *)

Module dsig.
Import etree.

(** *** The algorithm registry *)

Definition DefaultPrefix : string := "ds".
Definition EmptyPrefix : string := "".
Definition Namespace : string := "http://www.w3.org/2000/09/xmldsig#".

Definition SignatureTag : string := "Signature".
Definition SignedInfoTag : string := "SignedInfo".
Definition CanonicalizationMethodTag : string := "CanonicalizationMethod".
Definition SignatureMethodTag : string := "SignatureMethod".
Definition ReferenceTag : string := "Reference".
Definition TransformsTag : string := "Transforms".
Definition TransformTag : string := "Transform".
Definition DigestMethodTag : string := "DigestMethod".
Definition DigestValueTag : string := "DigestValue".
Definition SignatureValueTag : string := "SignatureValue".
Definition KeyInfoTag : string := "KeyInfo".
Definition X509DataTag : string := "X509Data".
Definition X509SubjectNameTag : string := "X509SubjectName".
Definition X509CertificateTag : string := "X509Certificate".
Definition InclusiveNamespacesTag : string := "InclusiveNamespaces".

Definition AlgorithmAttr : string := "Algorithm".
Definition URIAttr : string := "URI".
Definition PrefixListAttr : string := "PrefixList".

Definition AlgorithmID : Type := string.

Definition RSASHA1SignatureMethod : string :=
  "http://www.w3.org/2000/09/xmldsig#rsa-sha1".
Definition RSASHA256SignatureMethod : string :=
  "http://www.w3.org/2001/04/xmldsig-more#rsa-sha256".
Definition RSASHA512SignatureMethod : string :=
  "http://www.w3.org/2001/04/xmldsig-more#rsa-sha512".

Definition CanonicalXML10ExclusiveAlgorithmID : AlgorithmID :=
  "http://www.w3.org/2001/10/xml-exc-c14n#".
Definition CanonicalXML11AlgorithmID : AlgorithmID :=
  "http://www.w3.org/2006/12/xml-c14n11".
Definition CanonicalXML10RecAlgorithmID : AlgorithmID :=
  "http://www.w3.org/TR/2001/REC-xml-c14n-20010315".
Definition CanonicalXML10CommentAlgorithmID : AlgorithmID :=
  "http://www.w3.org/TR/2001/REC-xml-c14n-20010315#WithComments".
Definition EnvelopedSignatureAltorithmID : AlgorithmID :=
  "http://www.w3.org/2000/09/xmldsig#enveloped-signature".

Definition digestAlgorithmIdentifiers : gmap N string :=
  <[crypto.SHA1 := "http://www.w3.org/2000/09/xmldsig#sha1"]>
  (<[crypto.SHA256 := "http://www.w3.org/2001/04/xmlenc#sha256"]>
   (<[crypto.SHA512 := "http://www.w3.org/2001/04/xmlenc#sha512"]> ∅)).

Definition signatureMethodIdentifiers : gmap N string :=
  <[crypto.SHA1 := RSASHA1SignatureMethod]>
  (<[crypto.SHA256 := RSASHA256SignatureMethod]>
   (<[crypto.SHA512 := RSASHA512SignatureMethod]> ∅)).

(** The two loops of [init]: each map is inverted entry by entry. *)
Definition invert (m : gmap N string) : gmap string N :=
  map_fold (fun hash id acc => <[id := hash]> acc) ∅ m.

Definition digestAlgorithmsByIdentifier : gmap string N :=
  invert digestAlgorithmIdentifiers.
Definition signatureMethodsByIdentifier : gmap string N :=
  invert signatureMethodIdentifiers.

(** *** keystore.go *)

(** The interfaces: one field for each method. *)
Record X509KeyStore : Type := {
  GetKeyPair : result (crypto.rsa_PrivateKey * x509.Certificate)
}.

Record X509ChainStore : Type := {
  GetChain : result (list x509.Certificate)
}.

Record X509CertificateStore : Type := {
  Certificates : result (list x509.Certificate)
}.

Record MemoryX509CertificateStore : Type := {
  Roots : list x509.Certificate
}.

Definition MemoryX509CertificateStore_Certificates
    (mX509cs : MemoryX509CertificateStore) : result (list x509.Certificate) :=
  Ok (Roots mX509cs).

Record MemoryX509KeyStore : Type := {
  privateKey : crypto.rsa_PrivateKey;
  cert : octets
}.

(** [type TLSCertKeyStore tls.Certificate] *)
Record TLSCertKeyStore : Type := {
  Certificate : list octets;
  PrivateKey : crypto.PrivateKey
}.

Definition ErrNonRSAKey : error := "Private key was not RSA".
Definition ErrMissingCertificates : error := "No public certificates provided".

Section x509.
(** [x509.ParseCertificate] *)
Variable ParseCertificate : octets -> result x509.Certificate.

Definition MemoryX509KeyStore_GetKeyPair (ks : MemoryX509KeyStore)
    : result (crypto.rsa_PrivateKey * x509.Certificate) :=
  match ParseCertificate (cert ks) with
  | Err err => Err err
  | Ok c => Ok (privateKey ks, c)
  end.

Definition TLSCertKeyStore_GetKeyPair (d : TLSCertKeyStore)
    : result (crypto.rsa_PrivateKey * x509.Certificate) :=
  match PrivateKey d with
  | crypto.RSAKey pk =>
      match Certificate d with
      | [] => Err ErrMissingCertificates
      | first :: _ =>
          match ParseCertificate first with
          | Err _ => Err ErrMissingCertificates
          | Ok crt => Ok (pk, crt)
          end
      end
  | _ => Err ErrNonRSAKey
  end.

(** The loop of [GetChain]: [certs] is the slice built so far. *)
Fixpoint GetChain_range (ders : list octets) (certs : list x509.Certificate)
    : list x509.Certificate :=
  match ders with
  | [] => certs
  | der :: rest =>
      match ParseCertificate der with
      | Err _ => GetChain_range rest certs
      | Ok c => GetChain_range rest (certs ++ [c])
      end
  end.

Definition TLSCertKeyStore_GetChain (d : TLSCertKeyStore)
    : result (list x509.Certificate) :=
  Ok (GetChain_range (Certificate d) []).
End x509.

(** *** clock.go *)

Section clock.
Variables World Time Chan : Type.
(** [clockwork.NewRealClock()] and [clockwork.NewFakeClockAt] *)
Variable realClock : clockwork.Clock World Time Chan.
Variable fakeClockAt : Time -> clockwork.Clock World Time Chan.

(** The field holds an interface value, [None] when it is nil. *)
Record Clock : Type := {
  wrapped : option (clockwork.Clock World Time Chan)
}.

(** The receiver is a [*Clock]: [None] is the nil pointer. *)
Definition Clock_getWrapped (c : option Clock)
    : option (clockwork.Clock World Time Chan) :=
  match c with
  | None => Some realClock
  | Some c => wrapped c
  end.

(** A method called on a nil interface does not return: [None]. *)
Definition Clock_After (c : option Clock) (d : Z) (w : World)
    : option (Chan * World) :=
  k ← Clock_getWrapped c; Some (clockwork.After k d w).

Definition Clock_Sleep (c : option Clock) (d : Z) (w : World) : option World :=
  k ← Clock_getWrapped c; Some (clockwork.Sleep k d w).

Definition Clock_Now (c : option Clock) (w : World) : option (Time * World) :=
  k ← Clock_getWrapped c; Some (clockwork.Now k w).



End clock.

(** *** sign.go *)

(** Modelled from the spec: the interface [Canonicalizer] and its
    implementations are declared outside the sources.  A canonicalizer
    carries its algorithm URI, and canonicalization reads the tree and
    yields newly owned octets (section 3, Canonicalizer and Ownership), so
    [Canonicalize] is a function of the store and of the element that
    leaves the store as it is. *)
Record CanonicalizerI : Type := {
  Canonicalize : heap -> loc -> result octets;
  Algorithm : AlgorithmID
}.

Record SigningContext : Type := {
  Hash : crypto.Hash;
  KeyStore : X509KeyStore;
  IDAttribute : string;
  Prefix : string;
  Canonicalizer : CanonicalizerI
}.

(** Modelled from the spec: the constants [DefaultIDAttr] and [KYCIDAttr]
    are declared outside the sources; section 6 names the ID attribute
    [ID] by default and [id] in KYC mode. *)
Definition DefaultIDAttr : string := "ID".
Definition KYCIDAttr : string := "id".

Section canonicalizers.
(** The serializers of C14N 1.1 and of C14N 1.0 REC. *)
Variables c14n11 c14n10rec : heap -> loc -> result octets.

(** Modelled from the spec: [MakeC14N11Canonicalizer] and
    [MakeC14N10RecCanonicalizer] are declared outside the sources; a
    canonicalizer carries the algorithm URI of its variant
    (section 3). *)
Definition MakeC14N11Canonicalizer : CanonicalizerI :=
  {| Canonicalize := c14n11; Algorithm := CanonicalXML11AlgorithmID |}.

Definition MakeC14N10RecCanonicalizer : CanonicalizerI :=
  {| Canonicalize := c14n10rec; Algorithm := CanonicalXML10RecAlgorithmID |}.

Definition NewDefaultSigningContext (ks : X509KeyStore) : SigningContext :=
  {| Hash := crypto.SHA256;
     KeyStore := ks;
     IDAttribute := DefaultIDAttr;
     Prefix := DefaultPrefix;
     Canonicalizer := MakeC14N11Canonicalizer |}.

Definition NewKYCSigningContext (ks : X509KeyStore) : SigningContext :=
  {| Hash := crypto.SHA1;
     KeyStore := ks;
     IDAttribute := KYCIDAttr;
     Prefix := EmptyPrefix;
     Canonicalizer := MakeC14N10RecCanonicalizer |}.
End canonicalizers.

Definition set_Hash (hash : crypto.Hash) (ctx : SigningContext) : SigningContext :=
  {| Hash := hash;
     KeyStore := KeyStore ctx;
     IDAttribute := IDAttribute ctx;
     Prefix := Prefix ctx;
     Canonicalizer := Canonicalizer ctx |}.

(** The receiver is a pointer: the context after the call is returned
    with the error, [None] for nil. *)
Definition SetSignatureMethod (ctx : SigningContext) (algorithmID : string)
    : SigningContext * option error :=
  match signatureMethodsByIdentifier !! algorithmID with
  | None => (ctx, Some ("Unknown SignatureMethod: " +:+ algorithmID))
  | Some hash => (set_Hash hash ctx, None)
  end.

Definition GetSignatureMethodIdentifier (ctx : SigningContext) : string :=
  match signatureMethodIdentifiers !! Hash ctx with
  | Some ident => ident
  | None => ""
  end.

Definition GetDigestAlgorithmIdentifier (ctx : SigningContext) : string :=
  match digestAlgorithmIdentifiers !! Hash ctx with
  | Some ident => ident
  | None => ""
  end.

Definition createNamespacedElement (ctx : SigningContext) (el : loc) (tag : string)
    : M loc :=
  child ← CreateElement el tag;
  modify child (set_Space (Prefix ctx)) ;;
  mret child.

Section crypto.
(** [h.New()], [Write] and [Sum(nil)] of the hash function [h]; the
    three hashes of the registry are linked into the package. *)
Variable hashSum : crypto.Hash -> octets -> octets.
(** [rsa.SignPKCS1v15(rand.Reader, key, hash, digest)] *)
Variable SignPKCS1v15 :
  crypto.rsa_PrivateKey -> crypto.Hash -> octets -> result octets.

Definition digest (ctx : SigningContext) (el : loc) : M octets :=
  canonical ← lift (fun h => Canonicalize (Canonicalizer ctx) h el);
  mret (hashSum (Hash ctx) canonical).

Definition constructSignedInfo (ctx : SigningContext) (el : loc) (enveloped : bool)
    : M loc :=
  let digestAlgorithmIdentifier := GetDigestAlgorithmIdentifier ctx in
  if decide (digestAlgorithmIdentifier = "") then throw "unsupported hash mechanism" else
  let signatureMethodIdentifier := GetSignatureMethodIdentifier ctx in
  if decide (signatureMethodIdentifier = "") then throw "unsupported signature method" else
  digest ← digest ctx el;
  signedInfo ← alloc {| Space := Prefix ctx; Tag := SignedInfoTag;
                        Attrs := []; Child := []; parent := None |};
  canonicalizationMethod ← createNamespacedElement ctx signedInfo CanonicalizationMethodTag;
  CreateAttr canonicalizationMethod AlgorithmAttr (Algorithm (Canonicalizer ctx)) ;;
  signatureMethod ← createNamespacedElement ctx signedInfo SignatureMethodTag;
  CreateAttr signatureMethod AlgorithmAttr signatureMethodIdentifier ;;
  reference ← createNamespacedElement ctx signedInfo ReferenceTag;
  dataID ← SelectAttrValue el (IDAttribute ctx) "";
  if decide (dataID = "") then throw "Missing data ID" else
  CreateAttr reference URIAttr ("#" +:+ dataID) ;;
  transforms ← createNamespacedElement ctx reference TransformsTag;
  (if enveloped then
     envelopedTransform ← createNamespacedElement ctx transforms TransformTag;
     CreateAttr envelopedTransform AlgorithmAttr EnvelopedSignatureAltorithmID
   else mret tt) ;;
  canonicalizationAlgorithm ← createNamespacedElement ctx transforms TransformTag;
  CreateAttr canonicalizationAlgorithm AlgorithmAttr (Algorithm (Canonicalizer ctx)) ;;
  digestMethod ← createNamespacedElement ctx reference DigestMethodTag;
  CreateAttr digestMethod AlgorithmAttr digestAlgorithmIdentifier ;;
  digestValue ← createNamespacedElement ctx reference DigestValueTag;
  SetText digestValue (base64.EncodeToString digest) ;;
  mret signedInfo.

(** [ConstructSignature], from its first statement to the removal of
    [xmlns:xsi]: the Signature element is created around the SignedInfo, and
    the SignedInfo is detached with the declarations in scope.  The
    Signature and the detached SignedInfo are handed to the second half. *)
Definition detatchSignedInfo (ctx : SigningContext) (el : loc) (enveloped : bool)
    : M (loc * loc) :=
signedInfo ← constructSignedInfo ctx el enveloped;
sig ← alloc {| Space := Prefix ctx; Tag := SignatureTag;
               Attrs := []; Child := []; parent := None |};
let xmlns :=
  if decide (Prefix ctx ≠ "") then "xmlns" +:+ (":" +:+ Prefix ctx) else "xmlns" in
CreateAttr sig xmlns Namespace ;;
AddChild sig signedInfo ;;
rootNSCtx ← etreeutils.NSBuildParentContext el;
elNSCtx ← etreeutils.SubContext rootNSCtx el;
sigNSCtx ← etreeutils.SubContext elNSCtx sig;
detatchedSignedInfo ← etreeutils.NSDetatch sigNSCtx signedInfo;
RemoveAttr detatchedSignedInfo "xmlns:xsi" ;;
mret (sig, detatchedSignedInfo).

(** [ConstructSignature], from the digest of the detached SignedInfo to
    the end: the digest is signed, and SignatureValue and KeyInfo are added
    to the Signature. *)
Definition signDetatched (ctx : SigningContext) (sig detatchedSignedInfo : loc) : M loc :=
digest ← digest ctx detatchedSignedInfo;
'(key, cert) ← lift (fun _ => GetKeyPair (KeyStore ctx));
rawSignature ← lift (fun _ => SignPKCS1v15 key (Hash ctx) digest);
signatureValue ← createNamespacedElement ctx sig SignatureValueTag;
SetText signatureValue (base64.EncodeToString rawSignature) ;;
keyInfo ← createNamespacedElement ctx sig KeyInfoTag;
x509Data ← createNamespacedElement ctx keyInfo X509DataTag;
x509Certificate ← createNamespacedElement ctx x509Data X509CertificateTag;
let sub := x509.Subject cert in
(if decide (sub = "") then mret tt else
   x509Subject ← createNamespacedElement ctx x509Data X509SubjectNameTag;
   SetText x509Subject sub) ;;
SetText x509Certificate (base64.EncodeToString (x509.Raw cert)) ;;
mret sig.

Definition ConstructSignature (ctx : SigningContext) (el : loc) (enveloped : bool)
    : M loc :=
'(sig, detatchedSignedInfo) ← detatchSignedInfo ctx el enveloped;
signDetatched ctx sig detatchedSignedInfo.

Definition SignEnveloped (ctx : SigningContext) (el : loc) : M loc :=
  sig ← ConstructSignature ctx el true;
  ret ← Copy el;
  modify ret (fun e => set_Child (Child e ++ [TElement sig]) e) ;;
  mret ret.

(** [Hash.Available]: whether the hash function is linked into the
    binary.  [SignString] calls [Hash.New] on whatever hash the context
    names, with no look at the registry, and [New] panics on a hash that is
    not available: the call does not return, [None]. *)
Variable Available : crypto.Hash -> bool.

Definition SignString (ctx : SigningContext) (content : string)
    : option (result octets) :=
  if negb (Available (Hash ctx)) then None else
  let bytes := String.list_byte_of_string content in
  if decide (length bytes < 1) then Some (Err "zero length hash") else
  let digest := hashSum (Hash ctx) bytes in
  match GetKeyPair (KeyStore ctx) with
  | Err err => Some (Err ("unable to fetch key for signing: " +:+ err))
  | Ok (key, _) =>
      match SignPKCS1v15 key (Hash ctx) digest with
      | Err err => Some (Err ("error signing: " +:+ err))
      | Ok signature => Some (Ok signature)
      end
  end.
End crypto.

End dsig.

(** ** Vocabulary of the properties *)

Import etree dsig.

(** [SelectAttr]: the first attribute that matches the search key, if
    there is one. *)
Fixpoint selectAttr (space key : string) (attrs : list Attr) : option Attr :=
match attrs with
| [] => None
| a :: rest =>
    if spaceMatch space (aSpace a) && bool_decide (key = aKey a)
    then Some a
    else selectAttr space key rest
end.

(** The value [constructSignedInfo] reads as the ID of the element. *)
Definition dataIDOf (ctx : SigningContext) (e : Element) : string :=
selectAttrValue (spaceDecompose (IDAttribute ctx)).1
                (spaceDecompose (IDAttribute ctx)).2 "" (Attrs e).

(** The canonicalization algorithms of the registry. *)
Definition isCanonicalizationAlgorithm (a : AlgorithmID) : bool :=
bool_decide (a = CanonicalXML10ExclusiveAlgorithmID)
|| bool_decide (a = CanonicalXML11AlgorithmID)
|| bool_decide (a = CanonicalXML10RecAlgorithmID)
|| bool_decide (a = CanonicalXML10CommentAlgorithmID).

Definition algorithmAttr (v : string) : list Attr := [mkAttr "" AlgorithmAttr v].

(** The elements [constructSignedInfo] adds to a store of [n] elements, in
    the order of their allocation. *)
Definition signedInfoNodes (prefix : string) (n : nat)
    (canonAlg sigAlg uri digAlg digestText : string) (enveloped : bool) : list Element :=
let k := if enveloped then 1 else 0 in
[ mkElement prefix SignedInfoTag []
    [TElement (n + 1); TElement (n + 2); TElement (n + 3)] None;
  mkElement prefix CanonicalizationMethodTag (algorithmAttr canonAlg) [] (Some n);
  mkElement prefix SignatureMethodTag (algorithmAttr sigAlg) [] (Some n);
  mkElement prefix ReferenceTag [mkAttr "" URIAttr uri]
    [TElement (n + 4); TElement (n + (6 + k)); TElement (n + (7 + k))] (Some n);
  mkElement prefix TransformsTag []
    (if enveloped then [TElement (n + 5); TElement (n + 6)] else [TElement (n + 5)])
    (Some (n + 3)) ]
++ (if enveloped
    then [mkElement prefix TransformTag (algorithmAttr EnvelopedSignatureAltorithmID) []
            (Some (n + 4))]
    else [])
++ [ mkElement prefix TransformTag (algorithmAttr canonAlg) [] (Some (n + 4));
     mkElement prefix DigestMethodTag (algorithmAttr digAlg) [] (Some (n + 3));
     mkElement prefix DigestValueTag [] (setText digestText []) (Some (n + 3)) ].

Definition textTokens {E : Type} (s : string) : list (Token E) :=
if decide (s = "") then [] else [TCharData s].

(** The same elements as a tree. *)
Definition signedInfoTree (prefix canonAlg sigAlg uri digAlg digestText : string)
    (enveloped : bool) : Tree :=
Node prefix SignedInfoTag []
  [ TElement (Node prefix CanonicalizationMethodTag (algorithmAttr canonAlg) []);
    TElement (Node prefix SignatureMethodTag (algorithmAttr sigAlg) []);
    TElement (Node prefix ReferenceTag [mkAttr "" URIAttr uri]
      [ TElement (Node prefix TransformsTag []
          ((if enveloped
            then [TElement (Node prefix TransformTag
                              (algorithmAttr EnvelopedSignatureAltorithmID) [])]
            else [])
           ++ [TElement (Node prefix TransformTag (algorithmAttr canonAlg) [])]));
        TElement (Node prefix DigestMethodTag (algorithmAttr digAlg) []);
        TElement (Node prefix DigestValueTag [] (textTokens digestText)) ]) ].

(** The namespace an attribute list declares for a prefix: [xmlns:p] for
    a prefix [p], [xmlns] for the default namespace. *)
Definition isDeclarationOf (prefix : string) (a : Attr) : bool :=
if decide (prefix = "")
then bool_decide (aSpace a = "") && bool_decide (aKey a = "xmlns")
else bool_decide (aSpace a = "xmlns") && bool_decide (aKey a = prefix).

Definition declaredNamespace (prefix : string) (attrs : list Attr) : option string :=
aValue <$> List.find (isDeclarationOf prefix) attrs.

(** The namespace in scope for a prefix at an element: the nearest
    declaration on the element or on one of its ancestors. *)
Fixpoint inScope (depth : nat) (h : heap) (el : loc) (prefix : string) : option string :=
match depth with
| O => None
| S d =>
    e ← h !! el;
    match declaredNamespace prefix (Attrs e) with
    | Some uri => Some uri
    | None => p ← parent e; inScope d h p prefix
    end
end.

(** Two stores hold the same elements at the locations from [a] up to
    [b]. *)
Definition agree_on (a b : nat) (h1 h2 : heap) : Prop :=
∀ i, a ≤ i < b → h1 !! i = h2 !! i.

(** The conclusion of the copy lemma: [h'] extends [h] by a copy of the
  element [e], rooted at the first new location. *)
Definition copied (h h' : heap) (e : Element) (p : option loc) : Prop :=
∃ ch ext,
  h' = h ++ ext ∧
  ext !! 0 = Some (mkElement (Space e) (Tag e) (Attrs e) ch p) ∧
  ∀ d tch h'',
    reifyTokens (reify d h) (Child e) = Some tch →
    agree_on (length h + 1) (length h') h'' h' →
    reifyTokens (reify d h'') ch = Some tch.

(** [keeps h m Q]: run on a store that extends [h], the computation [m]
  leaves a store that extends [h], and its result satisfies [Q]. *)
Definition keeps {A} (h : heap) (m : M A) (Q : A → Prop) : Prop :=
∀ h1 r h2, (∃ k, h1 = h ++ k) → m h1 = Some (r, h2) →
           (∃ k, h2 = h ++ k) ∧ ∀ a, r = Ok a → Q a.

(** The check behind the alphabet lemma: position [n] of the alphabet
    decodes to [n] and is neither padding nor a line break. *)
Definition alphabetOk (n : nat) : bool :=
let c := base64.encodeAt (Z.of_nat n) in
bool_decide (base64.decodeMap c = Some (Z.of_nat n))
&& negb (Ascii.eqb c base64.StdPadding)
&& negb (base64.isNewline c).

Section parsing.
Variable ParseCertificate : octets -> result x509.Certificate.

(** The certificate of a blob that parses. *)
Definition parsed (der : octets) : option x509.Certificate :=
match ParseCertificate der with
| Ok c => Some c
| Err _ => None
end.

(** The first parse error met when the blobs are parsed in order: what a
    chain loader that propagates errors would return. *)
Fixpoint firstParseError (ders : list octets) : option error :=
match ders with
| [] => None
| der :: rest =>
    match ParseCertificate der with
    | Err e => Some e
    | Ok _ => firstParseError rest
    end
end.
End parsing.

(** One loop of [init], run over the entries of a table in a given
    order: Go ranges over a map in an order it does not specify. *)
Definition initLoop (entries : list (N * string)) : gmap string N :=
foldl (fun acc entry => <[entry.2 := entry.1]> acc) ∅ entries.

(** What [constructSignedInfo] returns for the element [e] at [el]: its
    guards in the order of the code. *)
Definition signedInfoOutcome (ctx : SigningContext) (h : heap) (el : loc) (e : Element)
    : result loc :=
match digestAlgorithmIdentifiers !! Hash ctx with
| None => Err "unsupported hash mechanism"
| Some _ =>
    match Canonicalize (Canonicalizer ctx) h el with
    | Err err => Err err
    | Ok _ =>
        if decide (dataIDOf ctx e = "") then Err "Missing data ID" else Ok (length h)
    end
end.

(** The declaration [ConstructSignature] writes on the Signature:
    [xmlns:p] for a prefix [p], [xmlns] when the prefix is empty. *)
Definition signatureDeclaration (prefix : string) : Attr :=
if decide (prefix ≠ "") then mkAttr "xmlns" prefix Namespace
else mkAttr "" "xmlns" Namespace.

(** The Signature element as [ConstructSignature] leaves it around the
    SignedInfo at [si], in a store that had [n] elements when the SignedInfo
    was detached. *)
Definition signatureNode (prefix : string) (si n : nat) : Element :=
mkElement prefix SignatureTag [signatureDeclaration prefix]
  [TElement si; TElement (n + 0); TElement (n + 1)] None.

(** The elements the second half of [ConstructSignature] adds to a store of
    [n] elements, below the Signature at [sig], in the order of their
    allocation. *)
Definition keyInfoNodes (prefix : string) (sig n : nat)
    (signatureText certificateText subject : string) : list Element :=
[ mkElement prefix SignatureValueTag [] (setText signatureText []) (Some sig);
  mkElement prefix KeyInfoTag [] [TElement (n + 2)] (Some sig);
  mkElement prefix X509DataTag []
    (if decide (subject = "") then [TElement (n + 3)]
     else [TElement (n + 3); TElement (n + 4)])
    (Some (n + 1));
  mkElement prefix X509CertificateTag [] (setText certificateText []) (Some (n + 2)) ]
++ (if decide (subject = "") then []
    else [mkElement prefix X509SubjectNameTag [] (setText subject []) (Some (n + 2))]).

(** The same elements as trees. *)
Definition keyInfoTree (prefix certificateText subject : string) : Tree :=
Node prefix KeyInfoTag []
  [ TElement (Node prefix X509DataTag []
      (TElement (Node prefix X509CertificateTag [] (textTokens certificateText))
       :: (if decide (subject = "") then []
           else [TElement (Node prefix X509SubjectNameTag [] (textTokens subject))]))) ].

(** Every element of the tree has the prefix. *)
Fixpoint underPrefix (prefix : string) (t : Tree) : bool :=
match t with
| Node sp _ _ ch =>
    bool_decide (sp = prefix)
    && forallb (fun tok => match tok with
                           | TElement c => underPrefix prefix c
                           | _ => true
                           end) ch
end.

(** The Signature as a tree, around the tree of its SignedInfo. *)
Definition signatureTree (prefix : string) (signedInfo : Tree)
    (signatureText certificateText subject : string) : Tree :=
Node prefix SignatureTag [signatureDeclaration prefix]
  [ TElement signedInfo;
    TElement (Node prefix SignatureValueTag [] (textTokens signatureText));
    TElement (keyInfoTree prefix certificateText subject) ].

(** The locations of the elements of a tree, to tell new elements from
    old ones. *)
Section locations.
Variable elementLocations : loc → option (list loc).

(** The locations of the elements below a list of children. *)
Fixpoint tokenLocations (ts : list (Token loc)) : option (list loc) :=
match ts with
| [] => Some []
| TElement c :: rest =>
    a ← elementLocations c; b ← tokenLocations rest; Some (a ++ b)
| _ :: rest => tokenLocations rest
end.
End locations.

(** The locations of all the elements of the tree below [l], [l]
    included, when the tree is at most [depth] deep. *)
Fixpoint locations (depth : nat) (h : heap) (l : loc) : option (list loc) :=
match depth with
| O => None
| S d =>
    e ← h !! l;
    below ← tokenLocations (locations d h) (Child e);
    Some (l :: below)
end.

(** ** Concrete stand-ins for the external primitives

    Small executable instances of the primitives that the package takes
    from its libraries; the examples below run the model on them. *)

Module Examples.

(** A parser that accepts every non-empty blob and, as the real one,
    rejects the empty one. *)
Definition parseNonEmpty (der : octets) : result x509.Certificate :=
  match der with
  | [] => Err "x509: malformed certificate"
  | _ => Ok {| x509.Raw := der; x509.Subject := "" |}
  end.

(** A canonicalizer that serializes the tag of the element. *)
Definition tagOctets (h : heap) (l : loc) : result octets :=
  match h !! l with
  | Some e => Ok (String.list_byte_of_string (Tag e))
  | None => Err "nil element"
  end.

(** A hash of the right size. *)
Definition constHash (hash : crypto.Hash) (data : octets) : octets :=
  List.repeat Byte.x41 (crypto.Size hash).

Definition identitySign (key : crypto.rsa_PrivateKey) (hash : crypto.Hash)
    (digest : octets) : result octets :=
  Ok digest.

Definition someKey : crypto.rsa_PrivateKey :=
  {| crypto.rsa_N := 3233; crypto.rsa_E := 17; crypto.rsa_D := 2753 |}.

Definition someCert : x509.Certificate :=
  {| x509.Raw := [Byte.x30; Byte.x03]; x509.Subject := "CN=signer" |}.

Definition memoryStore : X509KeyStore :=
  {| GetKeyPair := Ok (someKey, someCert) |}.

Definition defaultContext : SigningContext :=
  NewDefaultSigningContext tagOctets memoryStore.

(** [<Root xmlns:xsi=...><Response ID="x1">hi</Response></Root>] *)
Definition document : heap :=
  [ {| Space := ""; Tag := "Root";
       Attrs := [mkAttr "xmlns" "xsi" "http://www.w3.org/2001/XMLSchema-instance"];
       Child := [TElement 1]; parent := None |};
    {| Space := ""; Tag := "Response";
       Attrs := [mkAttr "" "ID" "x1"];
       Child := [TCharData "hi"]; parent := Some 0 |} ].

Definition response : loc := 1.

(** A context that emits its elements under the prefix [xsi]. *)
Definition xsiContext : SigningContext :=
{| Hash := crypto.SHA256; KeyStore := memoryStore; IDAttribute := DefaultIDAttr;
   Prefix := "xsi"; Canonicalizer := MakeC14N11Canonicalizer tagOctets |}.

(** A bundle whose only certificate blob is empty. *)
Definition brokenBundle : TLSCertKeyStore :=
  {| Certificate := [[]]; PrivateKey := crypto.RSAKey someKey |}.

(** A context that names a hash outside the registry. *)
Definition md5Context : SigningContext :=
{| Hash := crypto.MD5; KeyStore := memoryStore; IDAttribute := DefaultIDAttr;
   Prefix := DefaultPrefix; Canonicalizer := MakeC14N11Canonicalizer tagOctets |}.

(** A canonicalizer that rejects every element. *)
Definition rejectAll (h : heap) (l : loc) : result octets :=
Err "canonicalization failed".

Definition rejectingContext : SigningContext :=
NewDefaultSigningContext rejectAll memoryStore.

(** The hashes that the imports of the package link into the binary. *)
Definition linked (hash : crypto.Hash) : bool :=
bool_decide (hash = crypto.SHA1) || bool_decide (hash = crypto.SHA224)
|| bool_decide (hash = crypto.SHA256) || bool_decide (hash = crypto.SHA384)
|| bool_decide (hash = crypto.SHA512).

(** A key store that has no key. *)
Definition emptyStore : X509KeyStore :=
{| GetKeyPair := Err "no key" |}.

(** [<Root><Response ID="x1"><Issuer><Name>idp</Name></Issuer>hi</Response></Root>] *)
Definition nestedDocument : heap :=
[ {| Space := ""; Tag := "Root"; Attrs := []; Child := [TElement 1]; parent := None |};
  {| Space := ""; Tag := "Response"; Attrs := [mkAttr "" "ID" "x1"];
     Child := [TElement 2; TCharData "hi"]; parent := Some 0 |};
  {| Space := ""; Tag := "Issuer"; Attrs := []; Child := [TElement 3];
     parent := Some 1 |};
  {| Space := ""; Tag := "Name"; Attrs := []; Child := [TCharData "idp"];
     parent := Some 2 |} ].

End Examples.

(* ================================================================== *)
(** * Part II: properties *)
(* ================================================================== *)

(** ** The algorithm registry *)

(** The map built by the loops of [init] inverts the table it is built
    from, as long as no two hashes share an identifier. *)
Lemma invert_lookup (m : gmap N string) :
  (∀ h1 h2 id, m !! h1 = Some id → m !! h2 = Some id → h1 = h2) →
  ∀ id hash, invert m !! id = Some hash ↔ m !! hash = Some id.
Proof.
  unfold invert.
  apply (map_fold_weak_ind
           (fun (r : gmap string N) (m : gmap N string) =>
              (∀ h1 h2 id, m !! h1 = Some id → m !! h2 = Some id → h1 = h2) →
              ∀ id hash, r !! id = Some hash ↔ m !! hash = Some id)).
  - intros _ id hash. by rewrite !lookup_empty.
  - intros i x m' r Hfresh IH Hinj id hash.
    assert (Hinj' : ∀ h1 h2 id, m' !! h1 = Some id → m' !! h2 = Some id → h1 = h2).
    { intros h1 h2 id' H1 H2. apply (Hinj h1 h2 id').
      - rewrite lookup_insert_ne; [done | congruence].
      - rewrite lookup_insert_ne; [done | congruence]. }
    specialize (IH Hinj').
    rewrite !lookup_insert_Some, IH.
    split.
    + intros [[-> ->] | [Hne Hm]]; [by left | right].
      split; [congruence | done].
    + intros [[-> ->] | [Hne Hm]]; [by left | right].
      split; [| done].
      intros ->. apply Hne. apply (Hinj i hash id).
      * by rewrite lookup_insert_eq.
      * by rewrite lookup_insert_ne.
Qed.

Lemma signatureMethodIdentifiers_lookup (hash : crypto.Hash) (id : string) :
  signatureMethodIdentifiers !! hash = Some id ↔
  (hash = crypto.SHA1 ∧ id = RSASHA1SignatureMethod) ∨
  (hash = crypto.SHA256 ∧ id = RSASHA256SignatureMethod) ∨
  (hash = crypto.SHA512 ∧ id = RSASHA512SignatureMethod).
Proof.
  unfold signatureMethodIdentifiers.
  rewrite !lookup_insert_Some, lookup_empty.
  unfold crypto.SHA1, crypto.SHA256, crypto.SHA512. naive_solver.
Qed.

Lemma digestAlgorithmIdentifiers_lookup (hash : crypto.Hash) (id : string) :
  digestAlgorithmIdentifiers !! hash = Some id ↔
  (hash = crypto.SHA1 ∧ id = "http://www.w3.org/2000/09/xmldsig#sha1") ∨
  (hash = crypto.SHA256 ∧ id = "http://www.w3.org/2001/04/xmlenc#sha256") ∨
  (hash = crypto.SHA512 ∧ id = "http://www.w3.org/2001/04/xmlenc#sha512").
Proof.
  unfold digestAlgorithmIdentifiers.
  rewrite !lookup_insert_Some, lookup_empty.
  unfold crypto.SHA1, crypto.SHA256, crypto.SHA512. naive_solver.
Qed.

Lemma signatureMethodsByIdentifier_inverse (u : string) (hash : crypto.Hash) :
  signatureMethodsByIdentifier !! u = Some hash ↔
  signatureMethodIdentifiers !! hash = Some u.
Proof.
  apply invert_lookup. intros h1 h2 id.
  rewrite !signatureMethodIdentifiers_lookup.
  unfold RSASHA1SignatureMethod, RSASHA256SignatureMethod, RSASHA512SignatureMethod.
  naive_solver.
Qed.

Lemma digestAlgorithmsByIdentifier_inverse (u : string) (hash : crypto.Hash) :
  digestAlgorithmsByIdentifier !! u = Some hash ↔
  digestAlgorithmIdentifiers !! hash = Some u.
Proof.
  apply invert_lookup. intros h1 h2 id.
  rewrite !digestAlgorithmIdentifiers_lookup. naive_solver.
Qed.

(** C3. [SetSignatureMethod] on a registered SignatureMethod URI returns no
    error and sets [Hash] to the hash registered for the URI, leaving the
    other fields as they are; on a URI that is not registered it returns an
    error and the context is unchanged. *)
Theorem SetSignatureMethod_registered_or_unchanged
    (ctx : SigningContext) (u : string) :
  (∀ hash, signatureMethodIdentifiers !! hash = Some u →
     snd (SetSignatureMethod ctx u) = None ∧
     Hash (fst (SetSignatureMethod ctx u)) = hash ∧
     KeyStore (fst (SetSignatureMethod ctx u)) = KeyStore ctx ∧
     IDAttribute (fst (SetSignatureMethod ctx u)) = IDAttribute ctx ∧
     Prefix (fst (SetSignatureMethod ctx u)) = Prefix ctx ∧
     Canonicalizer (fst (SetSignatureMethod ctx u)) = Canonicalizer ctx) ∧
  ((∀ hash, signatureMethodIdentifiers !! hash ≠ Some u) →
     is_Some (snd (SetSignatureMethod ctx u)) ∧
     fst (SetSignatureMethod ctx u) = ctx).
Proof.
  unfold SetSignatureMethod. split.
  - intros hash Hreg. apply signatureMethodsByIdentifier_inverse in Hreg.
    rewrite Hreg. simpl. done.
  - intros Hnot.
    destruct (signatureMethodsByIdentifier !! u) as [hash |] eqn:Hlook.
    + apply signatureMethodsByIdentifier_inverse in Hlook. by destruct (Hnot hash).
    + simpl. split; [by eexists | done].
Qed.

Lemma SetSignatureMethod_registered_or_unchanged_witness :
  snd (SetSignatureMethod Examples.defaultContext RSASHA512SignatureMethod) = None ∧
  Hash (fst (SetSignatureMethod Examples.defaultContext RSASHA512SignatureMethod))
    = crypto.SHA512 ∧
  is_Some (snd (SetSignatureMethod Examples.defaultContext "urn:unknown")) ∧
  fst (SetSignatureMethod Examples.defaultContext "urn:unknown") = Examples.defaultContext.
Proof.
  pose proof (SetSignatureMethod_registered_or_unchanged
                Examples.defaultContext RSASHA512SignatureMethod) as [Hreg _].
  pose proof (SetSignatureMethod_registered_or_unchanged
                Examples.defaultContext "urn:unknown") as [_ Hunk].
  destruct (Hreg crypto.SHA512) as (H1 & H2 & _); [reflexivity |].
  destruct Hunk as [H3 H4].
  { intros hash. rewrite signatureMethodIdentifiers_lookup.
    intros [[_ H] | [[_ H] | [_ H]]]; discriminate H. }
  exact (conj H1 (conj H2 (conj H3 H4))).
Defined.

(** C8. [NewDefaultSigningContext] yields SHA256, the ID attribute [ID], the
    prefix [ds] and the C14N 1.1 canonicalizer; [NewKYCSigningContext]
    yields SHA1, [id], the empty prefix and the C14N 1.0 REC canonicalizer;
    both keep the key store they are given. *)
Theorem New_signing_contexts
    (c14n11 c14n10rec : heap → loc → result octets) (ks : X509KeyStore) :
  (Hash (NewDefaultSigningContext c14n11 ks) = crypto.SHA256 ∧
   IDAttribute (NewDefaultSigningContext c14n11 ks) = "ID" ∧
   Prefix (NewDefaultSigningContext c14n11 ks) = "ds" ∧
   Algorithm (Canonicalizer (NewDefaultSigningContext c14n11 ks))
     = "http://www.w3.org/2006/12/xml-c14n11" ∧
   Canonicalize (Canonicalizer (NewDefaultSigningContext c14n11 ks)) = c14n11 ∧
   KeyStore (NewDefaultSigningContext c14n11 ks) = ks) ∧
  (Hash (NewKYCSigningContext c14n10rec ks) = crypto.SHA1 ∧
   IDAttribute (NewKYCSigningContext c14n10rec ks) = "id" ∧
   Prefix (NewKYCSigningContext c14n10rec ks) = "" ∧
   Algorithm (Canonicalizer (NewKYCSigningContext c14n10rec ks))
     = "http://www.w3.org/TR/2001/REC-xml-c14n-20010315" ∧
   Canonicalize (Canonicalizer (NewKYCSigningContext c14n10rec ks)) = c14n10rec ∧
   KeyStore (NewKYCSigningContext c14n10rec ks) = ks).
Proof. by repeat split. Qed.

(** ** The TLS key store *)

Section tls_key_store.
Variable ParseCertificate : octets → result x509.Certificate.

Lemma GetChain_range_omap (ders : list octets) (certs : list x509.Certificate) :
  GetChain_range ParseCertificate ders certs = certs ++ omap (parsed ParseCertificate) ders.
Proof.
  revert certs. induction ders as [| der rest IH]; intros certs; simpl.
  - by rewrite app_nil_r.
  - unfold parsed at 1. destruct (ParseCertificate der) as [c | e].
    + rewrite IH. by rewrite <- app_assoc.
    + apply IH.
Qed.

(** C6, as the code has it.  [GetChain] never fails: it returns, in order,
    the certificates of the blobs that parse and leaves out the others. *)
Theorem GetChain_skips_unparsable (d : TLSCertKeyStore) :
  TLSCertKeyStore_GetChain ParseCertificate d
= Ok (omap (parsed ParseCertificate) (Certificate d)).
Proof.
  unfold TLSCertKeyStore_GetChain. by rewrite GetChain_range_omap.
Qed.

(** C7, as the code has it.  [GetKeyPair] fails with [ErrNonRSAKey] when
    the private key is not an RSA key; for an RSA key it fails with
    [ErrMissingCertificates] when the list is empty and also when its
    first blob does not parse; otherwise it returns the key with the
    certificate parsed from the first blob. *)
Theorem GetKeyPair_cases (d : TLSCertKeyStore) :
  ((∀ k, PrivateKey d ≠ crypto.RSAKey k) →
     TLSCertKeyStore_GetKeyPair ParseCertificate d = Err ErrNonRSAKey) ∧
  (∀ k, PrivateKey d = crypto.RSAKey k →
     (Certificate d = [] →
        TLSCertKeyStore_GetKeyPair ParseCertificate d = Err ErrMissingCertificates) ∧
     (∀ first rest e, Certificate d = first :: rest →
        ParseCertificate first = Err e →
        TLSCertKeyStore_GetKeyPair ParseCertificate d = Err ErrMissingCertificates) ∧
     (∀ first rest crt, Certificate d = first :: rest →
        ParseCertificate first = Ok crt →
        TLSCertKeyStore_GetKeyPair ParseCertificate d = Ok (k, crt))).
Proof.
  unfold TLSCertKeyStore_GetKeyPair. split.
  - intros Hnot. destruct (PrivateKey d) as [k | | |]; try done.
    by destruct (Hnot k).
  - intros k ->. repeat split.
    + by intros ->.
    + intros first rest e -> Hparse. by rewrite Hparse.
    + intros first rest crt -> Hparse. by rewrite Hparse.
Qed.
End tls_key_store.

(** C6 fails as stated: the bundle holds a blob that does not parse, and
    [GetChain] does not return the parse error; it returns an empty chain
    and no error at all. *)
Lemma GetChain_swallows_parse_error :
  firstParseError Examples.parseNonEmpty (Certificate Examples.brokenBundle)
    = Some "x509: malformed certificate" ∧
  TLSCertKeyStore_GetChain Examples.parseNonEmpty Examples.brokenBundle
    ≠ Err "x509: malformed certificate" ∧
  TLSCertKeyStore_GetChain Examples.parseNonEmpty Examples.brokenBundle = Ok [].
Proof. repeat split. discriminate. Qed.

(** C7 fails as stated: the key is an RSA key and the list is not empty,
    yet [GetKeyPair] returns no key pair but [ErrMissingCertificates]. *)
Lemma GetKeyPair_fails_on_unparsable_leaf :
  PrivateKey Examples.brokenBundle = crypto.RSAKey Examples.someKey ∧
  Certificate Examples.brokenBundle ≠ [] ∧
  (∀ pair, TLSCertKeyStore_GetKeyPair Examples.parseNonEmpty Examples.brokenBundle
           ≠ Ok pair) ∧
  TLSCertKeyStore_GetKeyPair Examples.parseNonEmpty Examples.brokenBundle
    = Err ErrMissingCertificates.
Proof. repeat split; discriminate. Qed.

Lemma GetKeyPair_cases_witness :
  TLSCertKeyStore_GetKeyPair Examples.parseNonEmpty
    {| Certificate := []; PrivateKey := crypto.ECDSAKey 7 |} = Err ErrNonRSAKey ∧
  TLSCertKeyStore_GetKeyPair Examples.parseNonEmpty
    {| Certificate := []; PrivateKey := crypto.RSAKey Examples.someKey |}
    = Err ErrMissingCertificates ∧
  TLSCertKeyStore_GetKeyPair Examples.parseNonEmpty Examples.brokenBundle
    = Err ErrMissingCertificates ∧
  TLSCertKeyStore_GetKeyPair Examples.parseNonEmpty
    {| Certificate := [[Byte.x30]; []]; PrivateKey := crypto.RSAKey Examples.someKey |}
    = Ok (Examples.someKey, {| x509.Raw := [Byte.x30]; x509.Subject := "" |}).
Proof.
  split; [| split; [| split]].
  - apply (GetKeyPair_cases Examples.parseNonEmpty
             {| Certificate := []; PrivateKey := crypto.ECDSAKey 7 |}).
    intros k. discriminate.
  - apply (GetKeyPair_cases Examples.parseNonEmpty
             {| Certificate := []; PrivateKey := crypto.RSAKey Examples.someKey |})
      with (k := Examples.someKey); reflexivity.
  - apply (GetKeyPair_cases Examples.parseNonEmpty Examples.brokenBundle)
      with (k := Examples.someKey) (first := []) (rest := [])
           (e := "x509: malformed certificate"); reflexivity.
  - apply (GetKeyPair_cases Examples.parseNonEmpty
             {| Certificate := [[Byte.x30]; []];
                PrivateKey := crypto.RSAKey Examples.someKey |})
      with (k := Examples.someKey) (first := [Byte.x30]) (rest := [[]]); reflexivity.
Defined.

(** ** The clock *)

(** C10. Every method of [Clock] returns on a nil receiver, with the result
    of the same method of the real clock; in particular [Now] on a nil
    [*Clock] is the time of the system clock. *)
Theorem Clock_nil_receiver_uses_real_clock
    (World Time Chan : Type) (realClock : clockwork.Clock World Time Chan)
    (d : Z) (w : World) :
  Clock_getWrapped World Time Chan realClock None = Some realClock ∧
  Clock_Now World Time Chan realClock None w = Some (clockwork.Now realClock w) ∧
  Clock_After World Time Chan realClock None d w = Some (clockwork.After realClock d w) ∧
  Clock_Sleep World Time Chan realClock None d w = Some (clockwork.Sleep realClock d w).
Proof. by repeat split. Qed.

(** ** Base64: decoding undoes encoding *)

Section base64_round_trip.
Local Open Scope Z_scope.

Lemma Zlor_disjoint (n a b : Z) :
  0 ≤ n → a mod 2 ^ n = 0 → 0 ≤ b < 2 ^ n → Z.lor a b = a + b.
Proof.
  intros Hn Ha Hb. symmetry. apply Z.add_nocarry_lor.
  apply Z.bits_inj'. intros m Hm.
  rewrite Z.land_spec, Z.bits_0.
  destruct (Z.lt_ge_cases m n) as [Hlt | Hge].
  - replace a with (Z.shiftl (a / 2 ^ n) n).
    + rewrite Z.shiftl_spec_low by done. done.
    + rewrite Z.shiftl_mul_pow2 by done.
      pose proof (Z.div_mod a (2 ^ n)). lia.
  - rewrite <- (Z.mod_small b (2 ^ n)) by done.
    rewrite Z.mod_pow2_bits_high by lia. apply andb_false_r.
Qed.

Lemma Zland_63 (x : Z) : Z.land x 63 = x mod 64.
Proof. apply (Z.land_ones x 6). done. Qed.

Lemma Zland_255 (x : Z) : Z.land x 255 = x mod 256.
Proof. apply (Z.land_ones x 8). done. Qed.

Ltac bits_to_arith :=
  rewrite ?Zland_63, ?Zland_255, ?Z.shiftr_div_pow2, ?Z.shiftl_mul_pow2 by done;
  change (2 ^ 0) with 1; change (2 ^ 6) with 64; change (2 ^ 8) with 256;
  change (2 ^ 12) with 4096; change (2 ^ 16) with 65536; change (2 ^ 18) with 262144.

Lemma quantum_arith (d0 d1 d2 d3 : Z) :
  0 ≤ d0 → 0 ≤ d1 < 64 → 0 ≤ d2 < 64 → 0 ≤ d3 < 64 →
  base64.quantum d0 d1 d2 d3 = d0 * 262144 + d1 * 4096 + d2 * 64 + d3.
Proof.
  intros H0 H1 H2 H3. unfold base64.quantum. bits_to_arith.
  rewrite (Zlor_disjoint 18 (d0 * 262144) (d1 * 4096));
    [| done | change (2 ^ 18) with 262144; Z.div_mod_to_equations; lia
     | change (2 ^ 18) with 262144; lia].
  rewrite (Zlor_disjoint 12 _ (d2 * 64));
    [| done | change (2 ^ 12) with 4096; Z.div_mod_to_equations; lia
     | change (2 ^ 12) with 4096; lia].
  rewrite (Zlor_disjoint 6 _ d3);
    [| done | change (2 ^ 6) with 64; Z.div_mod_to_equations; lia
     | change (2 ^ 6) with 64; lia].
  done.
Qed.

Lemma uint_range (b : Byte.byte) : 0 ≤ base64.uint b < 256.
Proof.
  unfold base64.uint. pose proof (Byte.to_N_bounded b). lia.
Qed.

Lemma byte_of_uint (b : Byte.byte) (v : Z) :
  v mod 256 = base64.uint b → base64.byte_of v = b.
Proof.
  intros Hv. unfold base64.byte_of. rewrite Zland_255, Hv.
  unfold base64.uint. rewrite N2Z.id, Byte.of_to_N. done.
Qed.

Lemma sextet_range (v : Z) : 0 ≤ Z.land v 63 < 64.
Proof. rewrite Zland_63. apply Z.mod_pos_bound. done. Qed.

(** Three bytes packed by [Encode]. *)
Lemma pack3_arith (x0 x1 x2 : Z) :
  0 ≤ x0 < 256 → 0 ≤ x1 < 256 → 0 ≤ x2 < 256 →
  Z.lor (Z.lor (Z.shiftl x0 16) (Z.shiftl x1 8)) x2 = x0 * 65536 + x1 * 256 + x2.
Proof.
  intros H0 H1 H2. bits_to_arith.
  rewrite (Zlor_disjoint 16 _ (x1 * 256));
    [| done | change (2 ^ 16) with 65536; Z.div_mod_to_equations; lia
     | change (2 ^ 16) with 65536; lia].
  rewrite (Zlor_disjoint 8 _ x2);
    [| done | change (2 ^ 8) with 256; Z.div_mod_to_equations; lia
     | change (2 ^ 8) with 256; lia].
  done.
Qed.

Lemma pack2_arith (x0 x1 : Z) :
  0 ≤ x0 < 256 → 0 ≤ x1 < 256 →
  Z.lor (Z.shiftl x0 16) (Z.shiftl x1 8) = x0 * 65536 + x1 * 256.
Proof.
  intros H0 H1. bits_to_arith.
  rewrite (Zlor_disjoint 16 _ (x1 * 256));
    [| done | change (2 ^ 16) with 65536; Z.div_mod_to_equations; lia
     | change (2 ^ 16) with 65536; lia].
  done.
Qed.

(** The four sextets of a 24-bit value give the value back. *)
Lemma quantum_sextets (val : Z) :
  0 ≤ val < 16777216 →
  base64.quantum (Z.land (Z.shiftr val 18) 63) (Z.land (Z.shiftr val 12) 63)
                 (Z.land (Z.shiftr val 6) 63) (Z.land (Z.shiftr val 0) 63) = val.
Proof.
  intros Hval.
  rewrite quantum_arith by (try apply sextet_range; apply sextet_range).
  bits_to_arith. Z.div_mod_to_equations. lia.
Qed.

Lemma quantum_sextets_2 (val : Z) :
  0 ≤ val < 16777216 → val mod 64 = 0 →
  base64.quantum (Z.land (Z.shiftr val 18) 63) (Z.land (Z.shiftr val 12) 63)
                 (Z.land (Z.shiftr val 6) 63) 0 = val.
Proof.
  intros Hval Hlow.
  rewrite quantum_arith by (try apply sextet_range; try apply sextet_range; lia).
  revert Hlow. bits_to_arith. Z.div_mod_to_equations. lia.
Qed.

Lemma quantum_sextets_1 (val : Z) :
  0 ≤ val < 16777216 → val mod 4096 = 0 →
  base64.quantum (Z.land (Z.shiftr val 18) 63) (Z.land (Z.shiftr val 12) 63) 0 0 = val.
Proof.
  intros Hval Hlow.
  rewrite quantum_arith by (try apply sextet_range; try apply sextet_range; lia).
  revert Hlow. bits_to_arith. Z.div_mod_to_equations. lia.
Qed.

Lemma alphabetOk_all : forallb alphabetOk (seq 0 64) = true.
Proof. vm_compute. reflexivity. Qed.

Lemma encodeAt_spec (i : Z) :
  0 ≤ i < 64 →
  base64.decodeMap (base64.encodeAt i) = Some i ∧
  Ascii.eqb (base64.encodeAt i) base64.StdPadding = false ∧
  base64.isNewline (base64.encodeAt i) = false.
Proof.
  intros Hi.
  pose proof (proj1 (forallb_forall alphabetOk (seq 0 64)) alphabetOk_all
                (Z.to_nat i)) as Hok.
  unfold alphabetOk in Hok. rewrite Z2Nat.id in Hok by lia.
  assert (Hin : In (Z.to_nat i) (seq 0 64)) by (apply in_seq; lia).
  apply Hok in Hin.
  apply andb_prop in Hin as [Hin Hnl]. apply andb_prop in Hin as [Hdec Hpad].
  apply bool_decide_eq_true in Hdec.
  apply negb_true_iff in Hpad. apply negb_true_iff in Hnl. done.
Qed.

Lemma sextet_spec (val shift : Z) :
  base64.decodeMap (base64.sextet val shift) = Some (Z.land (Z.shiftr val shift) 63) ∧
  Ascii.eqb (base64.sextet val shift) base64.StdPadding = false ∧
  base64.isNewline (base64.sextet val shift) = false.
Proof. apply encodeAt_spec, sextet_range. Qed.

Lemma list_ind3 {A} (P : list A → Prop) :
  P [] → (∀ a, P [a]) → (∀ a b, P [a; b]) →
  (∀ a b c l, P l → P (a :: b :: c :: l)) → ∀ l, P l.
Proof.
  intros H0 H1 H2 H3. fix IH 1.
  intros [| a [| b [| c l]]]; [apply H0 | apply H1 | apply H2 | apply H3, IH].
Qed.

Lemma decode_quantum (c0 c1 c2 c3 : ascii) (rest : list ascii) (d0 d1 d2 d3 : Z) :
  base64.decodeMap c0 = Some d0 → base64.decodeMap c1 = Some d1 →
  base64.decodeMap c2 = Some d2 → base64.decodeMap c3 = Some d3 →
  Ascii.eqb c2 base64.StdPadding = false → Ascii.eqb c3 base64.StdPadding = false →
  base64.decode (c0 :: c1 :: c2 :: c3 :: rest) =
  match base64.decode rest with
  | Some tl =>
      Some (base64.byte_of (Z.shiftr (base64.quantum d0 d1 d2 d3) 16)
            :: base64.byte_of (Z.shiftr (base64.quantum d0 d1 d2 d3) 8)
            :: base64.byte_of (base64.quantum d0 d1 d2 d3) :: tl)
  | None => None
  end.
Proof.
  intros H0 H1 H2 H3 Hp2 Hp3.
  change (base64.decode (c0 :: c1 :: c2 :: c3 :: rest)) with
    (d0 ← base64.decodeMap c0; d1 ← base64.decodeMap c1;
     if Ascii.eqb c2 base64.StdPadding then
       match rest with
       | [] => if Ascii.eqb c3 base64.StdPadding
               then Some [base64.byte_of (Z.shiftr (base64.quantum d0 d1 0 0) 16)]
               else None
       | _ => None
       end
     else
       d2 ← base64.decodeMap c2;
       if Ascii.eqb c3 base64.StdPadding then
         match rest with
         | [] => Some [base64.byte_of (Z.shiftr (base64.quantum d0 d1 d2 0) 16);
                       base64.byte_of (Z.shiftr (base64.quantum d0 d1 d2 0) 8)]
         | _ => None
         end
       else
         d3 ← base64.decodeMap c3; tl ← base64.decode rest;
         Some (base64.byte_of (Z.shiftr (base64.quantum d0 d1 d2 d3) 16)
               :: base64.byte_of (Z.shiftr (base64.quantum d0 d1 d2 d3) 8)
               :: base64.byte_of (base64.quantum d0 d1 d2 d3) :: tl)).
  rewrite H0, H1, Hp2, H2, Hp3, H3. simpl. done.
Qed.

Lemma decode_Encode (bs : octets) : base64.decode (base64.Encode bs) = Some bs.
Proof.
  induction bs as [| a | a b | a b c l IH] using list_ind3.
  - done.
  - pose proof (uint_range a) as Ha.
    set (val := Z.shiftl (base64.uint a) 16).
    assert (Hval : val = base64.uint a * 65536) by (unfold val; by bits_to_arith).
    change (base64.Encode [a]) with
      [base64.sextet val 18; base64.sextet val 12; base64.StdPadding; base64.StdPadding].
    destruct (sextet_spec val 18) as (E0 & _ & _).
    destruct (sextet_spec val 12) as (E1 & _ & _).
    cbn [base64.decode]. rewrite E0, E1. cbn.
    rewrite quantum_sextets_1.
    + f_equal. f_equal. apply byte_of_uint. rewrite Hval.
      revert Ha. bits_to_arith. intros. Z.div_mod_to_equations. lia.
    + lia.
    + rewrite Hval. Z.div_mod_to_equations. lia.
  - pose proof (uint_range a) as Ha. pose proof (uint_range b) as Hb.
    set (val := Z.lor (Z.shiftl (base64.uint a) 16) (Z.shiftl (base64.uint b) 8)).
    assert (Hval : val = base64.uint a * 65536 + base64.uint b * 256)
      by (unfold val; by apply pack2_arith).
    change (base64.Encode [a; b]) with
      [base64.sextet val 18; base64.sextet val 12; base64.sextet val 6; base64.StdPadding].
    destruct (sextet_spec val 18) as (E0 & _ & _).
    destruct (sextet_spec val 12) as (E1 & _ & _).
    destruct (sextet_spec val 6) as (E2 & P2 & _).
    cbn [base64.decode]. rewrite E0, E1, P2, E2. cbn.
    rewrite quantum_sextets_2.
    + f_equal. f_equal; [| f_equal]; apply byte_of_uint; rewrite Hval;
        bits_to_arith; Z.div_mod_to_equations; lia.
    + lia.
    + rewrite Hval. Z.div_mod_to_equations. lia.
  - pose proof (uint_range a) as Ha. pose proof (uint_range b) as Hb.
    pose proof (uint_range c) as Hc.
    set (val := Z.lor (Z.lor (Z.shiftl (base64.uint a) 16) (Z.shiftl (base64.uint b) 8))
                      (base64.uint c)).
    assert (Hval : val = base64.uint a * 65536 + base64.uint b * 256 + base64.uint c)
      by (unfold val; by apply pack3_arith).
    change (base64.Encode (a :: b :: c :: l)) with
      (base64.sextet val 18 :: base64.sextet val 12 :: base64.sextet val 6
         :: base64.sextet val 0 :: base64.Encode l).
    destruct (sextet_spec val 18) as (E0 & _ & _).
    destruct (sextet_spec val 12) as (E1 & _ & _).
    destruct (sextet_spec val 6) as (E2 & P2 & _).
    destruct (sextet_spec val 0) as (E3 & P3 & _).
    rewrite (decode_quantum _ _ _ _ _ _ _ _ _ E0 E1 E2 E3 P2 P3), IH.
    rewrite quantum_sextets by lia.
    f_equal. f_equal; [| f_equal; [| f_equal]]; apply byte_of_uint; rewrite Hval;
      bits_to_arith; Z.div_mod_to_equations; lia.
Qed.

Lemma Encode_no_newline (bs : octets) :
  List.filter (fun c => negb (base64.isNewline c)) (base64.Encode bs) = base64.Encode bs.
Proof.
  induction bs as [| a | a b | a b c l IH] using list_ind3.
  - done.
  - cbn [base64.Encode List.filter].
    rewrite !(proj2 (proj2 (sextet_spec _ _))). done.
  - cbn [base64.Encode List.filter].
    rewrite !(proj2 (proj2 (sextet_spec _ _))). done.
  - cbn [base64.Encode List.filter].
    rewrite !(proj2 (proj2 (sextet_spec _ _))). cbn [negb]. by rewrite IH.
Qed.

(** Decoding undoes encoding. *)
Lemma DecodeString_EncodeToString (bs : octets) :
  base64.DecodeString (base64.EncodeToString bs) = Ok bs.
Proof.
  unfold base64.DecodeString, base64.EncodeToString.
  rewrite String.list_ascii_of_string_of_list_ascii, Encode_no_newline, decode_Encode.
  done.
Qed.
End base64_round_trip.

(** ** Running the store monad on an extended store *)

Lemma bind_Ok {A B} (m : M A) (k : A → M B) (h h' : heap) (a : A) :
  m h = Some (Ok a, h') → (m ≫= k) h = k a h'.
Proof. intros Hm. unfold mbind, M_bind, bind. by rewrite Hm. Qed.

Lemma bind_Err {A B} (m : M A) (k : A → M B) (h h' : heap) (e : error) :
  m h = Some (Err e, h') → (m ≫= k) h = Some (Err e, h').
Proof. intros Hm. unfold mbind, M_bind, bind. by rewrite Hm. Qed.

Lemma bind_None {A B} (m : M A) (k : A → M B) (h : heap) :
  m h = None → (m ≫= k) h = None.
Proof. intros Hm. unfold mbind, M_bind, bind. by rewrite Hm. Qed.

Lemma lookup_new (h l : heap) (k : nat) : (h ++ l) !! (length h + k) = l !! k.
Proof. rewrite lookup_app_r by lia. f_equal. lia. Qed.

Lemma insert_new (h l : heap) (k : nat) (e : Element) :
  <[length h + k := e]> (h ++ l) = h ++ <[k := e]> l.
Proof. rewrite insert_app_r_alt by lia. do 2 f_equal. lia. Qed.

Lemma alloc_new (h l : heap) (e : Element) :
  alloc e (h ++ l) = Some (Ok (length h + length l), h ++ (l ++ [e])).
Proof. unfold alloc. by rewrite length_app, <- app_assoc. Qed.

Lemma load_new (h l : heap) (k : nat) (e : Element) :
  l !! k = Some e → load (length h + k) (h ++ l) = Some (Ok e, h ++ l).
Proof. intros Hk. unfold load. by rewrite lookup_new, Hk. Qed.

Lemma load_old (h l : heap) (i : loc) (e : Element) :
  h !! i = Some e → load i (h ++ l) = Some (Ok e, h ++ l).
Proof. intros Hi. unfold load. by rewrite (lookup_app_l_Some _ _ _ _ Hi). Qed.

Lemma modify_new (h l : heap) (k : nat) (f : Element → Element) (e : Element) :
  l !! k = Some e →
  modify (length h + k) f (h ++ l) = Some (Ok tt, h ++ <[k := f e]> l).
Proof.
  intros Hk. unfold modify. rewrite (bind_Ok _ _ _ _ _ (load_new h l k e Hk)).
  unfold store. by rewrite lookup_new, Hk, insert_new.
Qed.

Lemma CreateAttr_new (h l : heap) (k : nat) (key value : string) (e : Element) :
  spaceDecompose key = ("", key) →
  l !! k = Some e →
  CreateAttr (length h + k) key value (h ++ l)
  = Some (Ok tt, h ++ <[k := set_Attrs (createAttr "" key value (Attrs e)) e]> l).
Proof.
  intros Hkey Hk. unfold CreateAttr. rewrite Hkey.
  by rewrite (modify_new h l k _ e Hk).
Qed.

Lemma SetText_new (h l : heap) (k : nat) (text : string) (e : Element) :
  l !! k = Some e →
  SetText (length h + k) text (h ++ l)
  = Some (Ok tt, h ++ <[k := set_Child (setText text (Child e)) e]> l).
Proof. intros Hk. unfold SetText. by rewrite (modify_new h l k _ e Hk). Qed.

Lemma createNamespacedElement_new (ctx : SigningContext) (h l : heap) (k : nat)
    (tg : string) (e : Element) :
  spaceDecompose tg = ("", tg) →
  l !! k = Some e →
  createNamespacedElement ctx (length h + k) tg (h ++ l)
  = Some (Ok (length h + length l),
          h ++ (<[k := set_Child (Child e ++ [TElement (length h + length l)]) e]> l
                ++ [ {| Space := Prefix ctx; Tag := tg; Attrs := []; Child := [];
                        parent := Some (length h + k) |} ])).
Proof.
  intros Htag Hk. pose proof (lookup_lt_Some _ _ _ Hk) as Hlt.
  unfold createNamespacedElement, CreateElement, newElement.
  rewrite Htag.
  erewrite bind_Ok; cycle 1.
  { erewrite bind_Ok; [| apply alloc_new].
    erewrite bind_Ok; [reflexivity |].
    unfold addChild. apply modify_new.
    rewrite lookup_app_l by done. eassumption. }
  erewrite bind_Ok; cycle 1.
  { apply modify_new.
    rewrite list_lookup_insert_ne by lia.
    rewrite lookup_app_r by lia. rewrite Nat.sub_diag. reflexivity. }
  unfold mret, M_ret, ret. do 3 f_equal.
  rewrite insert_app_l by done.
  rewrite insert_app_r_alt by (rewrite length_insert; lia).
  rewrite length_insert, Nat.sub_diag. done.
Qed.

Lemma alloc_base (h : heap) (e : Element) :
  alloc e h = Some (Ok (length h + 0), h ++ ([] ++ [e])).
Proof. unfold alloc. by rewrite Nat.add_0_r. Qed.

Lemma SelectAttrValue_old (h l : heap) (el : loc) (key dflt : string) (e : Element) :
  h !! el = Some e →
  SelectAttrValue el key dflt (h ++ l)
  = Some (Ok (selectAttrValue (spaceDecompose key).1 (spaceDecompose key).2 dflt (Attrs e)),
          h ++ l).
Proof.
  intros He. unfold SelectAttrValue. destruct (spaceDecompose key) as [sp skey].
  by rewrite (bind_Ok _ _ _ _ _ (load_old h l el e He)).
Qed.


Ltac norm :=
  cbn [length app insert list_insert set_Child set_Attrs set_Space set_parent
       Child Attrs Space Tag parent createAttr Nat.add fst snd].
Ltac step lem := erewrite bind_Ok; [| lem]; norm.
Ltac new_elem :=
  step ltac:(apply createNamespacedElement_new; [vm_compute; reflexivity | reflexivity]).
Ltac new_attr :=
  step ltac:(apply CreateAttr_new; [vm_compute; reflexivity | reflexivity]).

(** ** The SignedInfo element *)

Section signed_info.
Variable hashSum : crypto.Hash → octets → octets.

Lemma digestAlgorithmIdentifiers_nonempty (hash : crypto.Hash) (id : string) :
  digestAlgorithmIdentifiers !! hash = Some id → id ≠ "".
Proof.
  rewrite digestAlgorithmIdentifiers_lookup.
  intros [[_ ->] | [[_ ->] | [_ ->]]]; discriminate.
Qed.

Lemma signatureMethodIdentifiers_nonempty (hash : crypto.Hash) (id : string) :
  signatureMethodIdentifiers !! hash = Some id → id ≠ "".
Proof.
  rewrite signatureMethodIdentifiers_lookup.
  intros [[_ ->] | [[_ ->] | [_ ->]]]; discriminate.
Qed.

Lemma constructSignedInfo_eval (ctx : SigningContext) (el : loc) (enveloped : bool)
    (h : heap) (e : Element) (dig sm : string) (canonical : octets) :
  h !! el = Some e →
  digestAlgorithmIdentifiers !! Hash ctx = Some dig →
  signatureMethodIdentifiers !! Hash ctx = Some sm →
  Canonicalize (Canonicalizer ctx) h el = Ok canonical →
  dataIDOf ctx e ≠ "" →
  constructSignedInfo hashSum ctx el enveloped h
  = Some (Ok (length h),
          h ++ signedInfoNodes (Prefix ctx) (length h) (Algorithm (Canonicalizer ctx)) sm
                 ("#" +:+ dataIDOf ctx e) dig
                 (base64.EncodeToString (hashSum (Hash ctx) canonical)) enveloped).
Proof.
  intros He Hdig Hsm Hcanon Hid.
  pose proof (digestAlgorithmIdentifiers_nonempty _ _ Hdig).
  pose proof (signatureMethodIdentifiers_nonempty _ _ Hsm).
  unfold constructSignedInfo, GetDigestAlgorithmIdentifier, GetSignatureMethodIdentifier.
  rewrite Hdig, Hsm. rewrite !decide_False by done.
  step ltac:(unfold digest, lift; erewrite bind_Ok; [| rewrite Hcanon; reflexivity];
             reflexivity).
  step ltac:(apply alloc_base).
  new_elem. new_attr. new_elem. new_attr. new_elem.
  step ltac:(apply SelectAttrValue_old; exact He).
  fold (dataIDOf ctx e). rewrite decide_False by done.
  new_attr. new_elem.
  destruct enveloped.
  - step ltac:(idtac; new_elem; apply CreateAttr_new; [vm_compute; reflexivity | reflexivity]).
    new_elem. new_attr. new_elem. new_attr. new_elem.
    step ltac:(apply SetText_new; reflexivity).
    unfold mret, M_ret, ret. rewrite !Nat.add_0_r. reflexivity.
  - step ltac:(reflexivity).
    new_elem. new_attr. new_elem. new_attr. new_elem.
    step ltac:(apply SetText_new; reflexivity).
    unfold mret, M_ret, ret. rewrite !Nat.add_0_r. reflexivity.
Qed.

(** With a missing or empty ID the construction stops with an error. *)
Lemma constructSignedInfo_missing_ID (ctx : SigningContext) (el : loc) (enveloped : bool)
    (h : heap) (e : Element) :
  h !! el = Some e →
  dataIDOf ctx e = "" →
  ∃ err h', constructSignedInfo hashSum ctx el enveloped h = Some (Err err, h').
Proof.
  intros He Hid.
  unfold constructSignedInfo, GetDigestAlgorithmIdentifier, GetSignatureMethodIdentifier.
  destruct (digestAlgorithmIdentifiers !! Hash ctx) as [dig |] eqn:Hdig;
    [| rewrite decide_True by done; by eexists _, _].
  pose proof (digestAlgorithmIdentifiers_nonempty _ _ Hdig).
  rewrite decide_False by done.
  destruct (signatureMethodIdentifiers !! Hash ctx) as [sm |] eqn:Hsm;
    [| rewrite decide_True by done; by eexists _, _].
  pose proof (signatureMethodIdentifiers_nonempty _ _ Hsm).
  rewrite decide_False by done.
  destruct (Canonicalize (Canonicalizer ctx) h el) as [canonical | err] eqn:Hcanon.
  - step ltac:(unfold digest, lift; erewrite bind_Ok; [| rewrite Hcanon; reflexivity];
               reflexivity).
    step ltac:(apply alloc_base).
    new_elem. new_attr. new_elem. new_attr. new_elem.
    step ltac:(apply SelectAttrValue_old; exact He).
    fold (dataIDOf ctx e). rewrite decide_True by done. by eexists _, _.
  - erewrite bind_Err; [by eexists _, _ |].
    unfold digest, lift. erewrite bind_Err; [reflexivity |]. by rewrite Hcanon.
Qed.

(** A successful construction has passed every guard. *)
Lemma constructSignedInfo_inv (ctx : SigningContext) (el : loc) (enveloped : bool)
    (h h' : heap) (e : Element) (si : loc) :
  h !! el = Some e →
  constructSignedInfo hashSum ctx el enveloped h = Some (Ok si, h') →
  ∃ dig sm canonical,
    digestAlgorithmIdentifiers !! Hash ctx = Some dig ∧
    signatureMethodIdentifiers !! Hash ctx = Some sm ∧
    Canonicalize (Canonicalizer ctx) h el = Ok canonical ∧
    dataIDOf ctx e ≠ "".
Proof.
  intros He Hrun.
  destruct (decide (dataIDOf ctx e = "")) as [Hid | Hid].
  { destruct (constructSignedInfo_missing_ID ctx el enveloped h e He Hid) as (? & ? & Herr).
    congruence. }
  revert Hrun.
  unfold constructSignedInfo, GetDigestAlgorithmIdentifier, GetSignatureMethodIdentifier.
  destruct (digestAlgorithmIdentifiers !! Hash ctx) as [dig |] eqn:Hdig;
    [| by rewrite decide_True by done].
  pose proof (digestAlgorithmIdentifiers_nonempty _ _ Hdig).
  rewrite decide_False by done.
  destruct (signatureMethodIdentifiers !! Hash ctx) as [sm |] eqn:Hsm;
    [| by rewrite decide_True by done].
  pose proof (signatureMethodIdentifiers_nonempty _ _ Hsm).
  rewrite decide_False by done.
  destruct (Canonicalize (Canonicalizer ctx) h el) as [canonical | err] eqn:Hcanon.
  - intros _. by exists dig, sm, canonical.
  - erewrite bind_Err; [done |].
    unfold digest, lift. erewrite bind_Err; [reflexivity |]. by rewrite Hcanon.
Qed.
End signed_info.

Lemma lookup_new0 (h l : heap) : (h ++ l) !! length h = l !! 0.
Proof. rewrite <- (lookup_new h l 0). by rewrite Nat.add_0_r. Qed.

Lemma reify_signedInfoNodes (h : heap) (prefix canonAlg sigAlg uri digAlg digestText : string)
    (enveloped : bool) :
  reify 4 (h ++ signedInfoNodes prefix (length h) canonAlg sigAlg uri digAlg digestText
                  enveloped) (length h)
  = Some (signedInfoTree prefix canonAlg sigAlg uri digAlg digestText enveloped).
Proof.
  unfold signedInfoNodes, signedInfoTree, textTokens, setText.
  destruct enveloped; destruct (decide (digestText = ""));
    repeat first [rewrite lookup_new0 | rewrite lookup_new
                 | progress cbn [reify reifyTokens reifyToken app lookup list_lookup
                                 mbind option_bind Child Space Tag Attrs Nat.add]];
    reflexivity.
Qed.

(** ** What constructSignedInfo builds *)

Lemma append_empty_r (s : string) : s +:+ "" = s.
Proof.
  induction s as [| c s IH]; [done |].
  change (String c (s +:+ "") = String c s). by rewrite IH.
Qed.

Lemma text_textTokens (s : string) : text (textTokens s) = s.
Proof.
  unfold textTokens. destruct (decide (s = "")) as [-> | _]; [done |].
  apply append_empty_r.
Qed.

Lemma selectAttr_None (space key dflt : string) (attrs : list Attr) :
  selectAttr space key attrs = None → selectAttrValue space key dflt attrs = dflt.
Proof.
  induction attrs as [| a rest IH]; [done |]. cbn.
  destruct (spaceMatch space (aSpace a) && bool_decide (key = aKey a)); [done | apply IH].
Qed.

Section signing.
Variable hashSum : crypto.Hash → octets → octets.
Variable SignPKCS1v15 : crypto.rsa_PrivateKey → crypto.Hash → octets → result octets.

(** What a successful [constructSignedInfo] leaves in the store. *)
Lemma constructSignedInfo_tree (ctx : SigningContext) (el : loc) (enveloped : bool)
    (h h' : heap) (e : Element) (si : loc) :
  h !! el = Some e →
  constructSignedInfo hashSum ctx el enveloped h = Some (Ok si, h') →
  ∃ dig sm canonical,
    digestAlgorithmIdentifiers !! Hash ctx = Some dig ∧
    signatureMethodIdentifiers !! Hash ctx = Some sm ∧
    Canonicalize (Canonicalizer ctx) h el = Ok canonical ∧
    dataIDOf ctx e ≠ "" ∧
    si = length h ∧
    h' = h ++ signedInfoNodes (Prefix ctx) (length h) (Algorithm (Canonicalizer ctx)) sm
                ("#" +:+ dataIDOf ctx e) dig
                (base64.EncodeToString (hashSum (Hash ctx) canonical)) enveloped ∧
    reify 4 h' si
    = Some (signedInfoTree (Prefix ctx) (Algorithm (Canonicalizer ctx)) sm
              ("#" +:+ dataIDOf ctx e) dig
              (base64.EncodeToString (hashSum (Hash ctx) canonical)) enveloped).
Proof.
  intros He Hrun.
  destruct (constructSignedInfo_inv hashSum ctx el enveloped h h' e si He Hrun)
    as (dig & sm & canonical & Hdig & Hsm & Hcanon & Hid).
  rewrite (constructSignedInfo_eval hashSum ctx el enveloped h e dig sm canonical
             He Hdig Hsm Hcanon Hid) in Hrun.
  injection Hrun as <- <-.
  exists dig, sm, canonical. repeat split; try done.
  apply reify_signedInfoNodes.
Qed.

(** C1. If the canonicalizer accepts [el], the Reference built by
    [constructSignedInfo] has a DigestValue whose text is the base64 encoding
    of the hash of the canonical octets of [el]; the text decodes to as many
    bytes as the hash named by the DigestMethod of the Reference
    produces. *)
Theorem constructSignedInfo_DigestValue (ctx : SigningContext) (el : loc)
    (enveloped : bool) (h h' : heap) (e : Element) (si : loc) (canonical : octets) :
  h !! el = Some e →
  Canonicalize (Canonicalizer ctx) h el = Ok canonical →
  (∀ data, length (hashSum (Hash ctx) data) = crypto.Size (Hash ctx)) →
  constructSignedInfo hashSum ctx el enveloped h = Some (Ok si, h') →
  ∃ signedInfo reference digestMethod digestValue hash decoded,
    reify 4 h' si = Some signedInfo ∧
    SelectElement ReferenceTag signedInfo = Some reference ∧
    SelectElement DigestMethodTag reference = Some digestMethod ∧
    SelectElement DigestValueTag reference = Some digestValue ∧
    Text digestValue = base64.EncodeToString (hashSum (Hash ctx) canonical) ∧
    digestAlgorithmsByIdentifier !! AttrValue AlgorithmAttr "" digestMethod = Some hash ∧
    base64.DecodeString (Text digestValue) = Ok decoded ∧
    length decoded = crypto.Size hash.
Proof.
  intros He Hcanon Hsize Hrun.
  destruct (constructSignedInfo_tree ctx el enveloped h h' e si He Hrun)
    as (dig & sm & canonical' & Hdig & Hsm & Hcanon' & Hid & -> & -> & Htree).
  rewrite Hcanon in Hcanon'. injection Hcanon' as <-.
  eexists _, _, _, _, (Hash ctx), (hashSum (Hash ctx) canonical).
  split; [exact Htree |].
  split; [reflexivity |]. split; [reflexivity |]. split; [reflexivity |].
  assert (HText : Text (Node (Prefix ctx) DigestValueTag []
                          (textTokens (base64.EncodeToString (hashSum (Hash ctx) canonical))))
                  = base64.EncodeToString (hashSum (Hash ctx) canonical))
    by apply text_textTokens.
  split; [exact HText |].
  split; [by apply digestAlgorithmsByIdentifier_inverse |].
  split; [rewrite HText; apply DecodeString_EncodeToString | apply Hsize].
Qed.

(** C4. In the SignedInfo built by [constructSignedInfo] the Transforms of
    the Reference are Transform elements whose algorithms are the
    enveloped-signature transform, when [enveloped] holds, followed by the
    algorithm of the canonicalizer: the canonicalization comes last, the
    enveloped-signature transform precedes it, and for a canonicalizer of
    the registry it is the only canonicalization among them.  The URI of
    the Reference is [#] followed by the ID of the element. *)
Theorem constructSignedInfo_Reference (ctx : SigningContext) (el : loc)
    (enveloped : bool) (h h' : heap) (e : Element) (si : loc) :
  h !! el = Some e →
  constructSignedInfo hashSum ctx el enveloped h = Some (Ok si, h') →
  ∃ signedInfo reference transforms,
    reify 4 h' si = Some signedInfo ∧
    SelectElement ReferenceTag signedInfo = Some reference ∧
    SelectElement TransformsTag reference = Some transforms ∧
    AttrValue URIAttr "" reference = "#" +:+ dataIDOf ctx e ∧
    Forall (fun t => tag t = TransformTag) (ChildElements (children transforms)) ∧
    List.map (AttrValue AlgorithmAttr "") (ChildElements (children transforms))
      = (if enveloped then [EnvelopedSignatureAltorithmID] else [])
        ++ [Algorithm (Canonicalizer ctx)] ∧
    (isCanonicalizationAlgorithm (Algorithm (Canonicalizer ctx)) = true →
     length (List.filter isCanonicalizationAlgorithm
               (List.map (AttrValue AlgorithmAttr "")
                  (ChildElements (children transforms)))) = 1).
Proof.
  intros He Hrun.
  destruct (constructSignedInfo_tree ctx el enveloped h h' e si He Hrun)
    as (dig & sm & canonical & Hdig & Hsm & Hcanon & Hid & -> & -> & Htree).
  eexists _, _, _.
  split; [exact Htree |].
  split; [reflexivity |]. split; [reflexivity |]. split; [reflexivity |].
  destruct enveloped; cbn [app children ChildElements List.map].
  - split; [by repeat constructor |]. split; [reflexivity |].
    intros Hcan. cbn [List.filter].
    change (AttrValue AlgorithmAttr "" (Node (Prefix ctx) TransformTag
              (algorithmAttr (Algorithm (Canonicalizer ctx))) []))
      with (Algorithm (Canonicalizer ctx)).
    rewrite Hcan. reflexivity.
  - split; [by repeat constructor |]. split; [reflexivity |].
    intros Hcan. cbn [List.filter].
    change (AttrValue AlgorithmAttr "" (Node (Prefix ctx) TransformTag
              (algorithmAttr (Algorithm (Canonicalizer ctx))) []))
      with (Algorithm (Canonicalizer ctx)).
    rewrite Hcan. reflexivity.
Qed.

(** C9. When the element has no attribute that matches the configured ID
    attribute, [ConstructSignature] returns an error, whatever
    [enveloped] is, and so no Signature element. *)
Theorem ConstructSignature_missing_ID (ctx : SigningContext) (el : loc)
    (enveloped : bool) (h : heap) (e : Element) :
  h !! el = Some e →
  selectAttr (spaceDecompose (IDAttribute ctx)).1 (spaceDecompose (IDAttribute ctx)).2
             (Attrs e) = None →
  ∃ err h', ConstructSignature hashSum SignPKCS1v15 ctx el enveloped h = Some (Err err, h').
Proof.
  intros He Habsent.
  assert (Hid : dataIDOf ctx e = "") by (by apply selectAttr_None).
  destruct (constructSignedInfo_missing_ID hashSum ctx el enveloped h e He Hid)
    as (err & h' & Herr).
  exists err, h'. unfold ConstructSignature, detatchSignedInfo.
  erewrite bind_Err; [reflexivity |]. by erewrite bind_Err.
Qed.
End signing.

Lemma constructSignedInfo_DigestValue_witness :
  ∃ si h',
    constructSignedInfo Examples.constHash Examples.defaultContext Examples.response true
      Examples.document = Some (Ok si, h') ∧
    ∃ signedInfo reference digestMethod digestValue hash decoded,
      reify 4 h' si = Some signedInfo ∧
      SelectElement ReferenceTag signedInfo = Some reference ∧
      SelectElement DigestMethodTag reference = Some digestMethod ∧
      SelectElement DigestValueTag reference = Some digestValue ∧
      Text digestValue
      = base64.EncodeToString
          (Examples.constHash crypto.SHA256 (String.list_byte_of_string "Response")) ∧
      digestAlgorithmsByIdentifier !! AttrValue AlgorithmAttr "" digestMethod = Some hash ∧
      base64.DecodeString (Text digestValue) = Ok decoded ∧
      length decoded = crypto.Size hash.
Proof.
  eexists _, _. split; [vm_compute; reflexivity |].
  eapply (constructSignedInfo_DigestValue Examples.constHash Examples.defaultContext
            Examples.response true Examples.document).
  - reflexivity.
  - reflexivity.
  - intros data. apply repeat_length.
  - vm_compute. reflexivity.
Defined.

Lemma constructSignedInfo_Reference_witness :
  ∃ si h',
    constructSignedInfo Examples.constHash Examples.defaultContext Examples.response true
      Examples.document = Some (Ok si, h') ∧
    ∃ signedInfo reference transforms,
      reify 4 h' si = Some signedInfo ∧
      SelectElement ReferenceTag signedInfo = Some reference ∧
      SelectElement TransformsTag reference = Some transforms ∧
      AttrValue URIAttr "" reference = "#x1" ∧
      List.map (AttrValue AlgorithmAttr "") (ChildElements (children transforms))
      = [EnvelopedSignatureAltorithmID; CanonicalXML11AlgorithmID] ∧
      length (List.filter isCanonicalizationAlgorithm
                (List.map (AttrValue AlgorithmAttr "")
                   (ChildElements (children transforms)))) = 1.
Proof.
  eexists _, _. split; [vm_compute; reflexivity |].
  destruct (constructSignedInfo_Reference Examples.constHash Examples.defaultContext
              Examples.response true Examples.document _ _ _ eq_refl
              ltac:(vm_compute; reflexivity))
    as (signedInfo & reference & transforms & H1 & H2 & H3 & H4 & _ & H5 & H6).
  exists signedInfo, reference, transforms.
  repeat split; try assumption. apply H6. reflexivity.
Defined.

Lemma ConstructSignature_missing_ID_witness :
  ∃ err h',
    ConstructSignature Examples.constHash Examples.identitySign Examples.defaultContext 0
      false Examples.document = Some (Err err, h').
Proof.
  eapply (ConstructSignature_missing_ID Examples.constHash Examples.identitySign
            Examples.defaultContext 0 false Examples.document); reflexivity.
Defined.

(** ** Deep copies *)

Lemma reifyTokens_impl (f g : loc → option Tree) (ts : list (Token loc))
    (r : list (Token Tree)) :
  (∀ c t, f c = Some t → g c = Some t) →
  reifyTokens f ts = Some r → reifyTokens g ts = Some r.
Proof.
  intros Hfg. revert r. induction ts as [| t rest IH]; intros r; [done |].
  cbn [reifyTokens]. intros Hr.
  destruct (reifyToken f t) as [t' |] eqn:Ht; [| done].
  destruct (reifyTokens f rest) as [rest' |] eqn:Hrest; [| done].
  assert (Ht' : reifyToken g t = Some t').
  { destruct t as [c | | | |]; try exact Ht.
    cbn [reifyToken] in *. destruct (f c) as [tc |] eqn:Hc; [| done].
    by rewrite (Hfg c tc Hc). }
  rewrite Ht', (IH rest' eq_refl). exact Hr.
Qed.

(** Reading a tree back only looks at the store below its length. *)
Lemma reify_agree (d : nat) (h h' : heap) (l : loc) (t : Tree) :
  agree_on 0 (length h) h' h →
  reify d h l = Some t → reify d h' l = Some t.
Proof.
  intros Hagree. revert l t. induction d as [| d IH]; intros l t; [done |].
  cbn [reify]. destruct (h !! l) as [e |] eqn:He; [| done].
  assert (Hl : h' !! l = Some e).
  { rewrite Hagree; [done |]. split; [lia |]. by eapply lookup_lt_Some. }
  rewrite Hl. cbn.
  destruct (reifyTokens (reify d h) (Child e)) as [ch |] eqn:Hch; [| done].
  by rewrite (reifyTokens_impl _ (reify d h') _ _ IH Hch).
Qed.

Lemma agree_on_app (h ext : heap) : agree_on 0 (length h) (h ++ ext) h.
Proof.
  intros i [_ Hi]. by rewrite lookup_app_l.
Qed.

Lemma reify_app (d : nat) (h ext : heap) (l : loc) (t : Tree) :
  reify d h l = Some t → reify d (h ++ ext) l = Some t.
Proof. apply reify_agree, agree_on_app. Qed.

Lemma copied_reify (h h' h'' : heap) (l : loc) (e : Element) (p : option loc)
    (d : nat) (t : Tree) :
  h !! l = Some e →
  copied h h' e p →
  reify d h l = Some t →
  agree_on (length h) (length h') h'' h' →
  reify d h'' (length h) = Some t.
Proof.
  intros He (ch & ext & -> & Hroot & Hch) Ht Hagree.
  destruct d as [| d]; [done |]. cbn [reify] in *. rewrite He in Ht. cbn in Ht.
  destruct (reifyTokens (reify d h) (Child e)) as [tch |] eqn:Htch; [| done].
  injection Ht as <-.
  assert (Hlen : length h < length (h ++ ext)).
  { rewrite length_app. apply lookup_lt_Some in Hroot. lia. }
  rewrite Hagree by lia.
  rewrite lookup_app_r, Nat.sub_diag, Hroot by lia. cbn.
  rewrite (Hch d tch h'' Htch); [done |].
  intros i Hi. apply Hagree. lia.
Qed.

Section dup_spec.
Variable fuel : nat.
Hypothesis IHdup : ∀ l p h r h',
  dup fuel l p h = Some (r, h') →
  ∃ e, h !! l = Some e ∧ r = Ok (length h) ∧ copied h h' e p.

Lemma dupTokens_spec (np : loc) (ts : list (Token loc)) :
  ∀ h r h',
    dupTokens (dup fuel) np ts h = Some (r, h') →
    ∃ ch ext,
      r = Ok ch ∧ h' = h ++ ext ∧
      ∀ d tch h'',
        reifyTokens (reify d h) ts = Some tch →
        agree_on (length h) (length h') h'' h' →
        reifyTokens (reify d h'') ch = Some tch.
Proof.
  induction ts as [| t rest IH]; intros h r h' Hrun.
  - cbn in Hrun. injection Hrun as <- <-. exists [], [].
    rewrite app_nil_r. repeat split. intros d tch h'' Htch _.
    cbn in *. exact Htch.
  - cbn [dupTokens] in Hrun. unfold mbind, M_bind, bind in Hrun.
    destruct (dupToken (dup fuel) np t h) as [[[t' | err] h1] |] eqn:Ht; cycle 1.
    { (* a copy never returns an error *)
      destruct t as [c | | | |]; cbn in Ht; try discriminate Ht.
      unfold mbind, M_bind, bind in Ht.
      destruct (dup fuel c (Some np) h) as [[[c' | err'] hc] |] eqn:Hc; try discriminate Ht.
      destruct (IHdup _ _ _ _ _ Hc) as (? & _ & ? & _). discriminate. }
    { discriminate Hrun. }
    destruct (dupTokens (dup fuel) np rest h1) as [[[rest' | err] h2] |] eqn:Hrest;
      cycle 1.
    { destruct (IH _ _ _ Hrest) as (? & ? & ? & _). discriminate. }
    { discriminate Hrun. }
    cbn in Hrun. injection Hrun as <- <-.
    destruct (IH _ _ _ Hrest) as (ch2 & ext2 & Hok & -> & Hrestspec).
    injection Hok as <-.
    assert (Hstep : ∃ ext1, h1 = h ++ ext1 ∧
              ∀ d tt h'', reifyToken (reify d h) t = Some tt →
                          agree_on (length h) (length h1) h'' h1 →
                          reifyToken (reify d h'') t' = Some tt).
    { destruct t as [c | s | s | s | x y]; cbn in Ht.
      - unfold mbind, M_bind, bind in Ht.
        destruct (dup fuel c (Some np) h) as [[[c' | err'] hc] |] eqn:Hc;
          try discriminate Ht.
        cbn in Ht. injection Ht as <- <-.
        destruct (IHdup _ _ _ _ _ Hc) as (ec & Hec & Hok & Hcopied).
        injection Hok as ->.
        pose proof Hcopied as (chc & ext1 & -> & _ & _).
        exists ext1. split; [done |]. intros d tt h'' Htt Hagree.
        cbn [reifyToken] in *.
        destruct (reify d h c) as [tc |] eqn:Htc; [| done].
        by rewrite (copied_reify _ _ h'' _ _ _ _ _ Hec Hcopied Htc Hagree).
      - injection Ht as <- <-. exists []. rewrite app_nil_r. by split.
      - injection Ht as <- <-. exists []. rewrite app_nil_r. by split.
      - injection Ht as <- <-. exists []. rewrite app_nil_r. by split.
      - injection Ht as <- <-. exists []. rewrite app_nil_r. by split. }
    destruct Hstep as (ext1 & -> & Htspec).
    exists (t' :: rest'), (ext1 ++ ext2). split; [done |].
    split; [by rewrite app_assoc |].
    intros d tch h'' Htch Hagree. cbn [reifyTokens] in *.
    destruct (reifyToken (reify d h) t) as [tt |] eqn:Htt; [| done].
    destruct (reifyTokens (reify d h) rest) as [trest |] eqn:Htrest; [| done].
    rewrite (Htspec d tt h'' Htt); cycle 1.
    { intros i Hi. rewrite Hagree.
      - rewrite lookup_app_l; [done | lia].
      - rewrite !length_app in *. lia. }
    rewrite (Hrestspec d trest h''); [exact Htch | |].
    + apply (reifyTokens_impl (reify d h)); [| done].
      intros c t0. apply reify_app.
    + intros i Hi. apply Hagree. rewrite !length_app in *. lia.
Qed.
End dup_spec.

(** [dup] returns (when it returns) the first new location, and the store
    is extended by a copy of the tree under [l]. *)
Lemma dup_spec (fuel : nat) (l : loc) (p : option loc) (h h' : heap) (r : result loc) :
  dup fuel l p h = Some (r, h') →
  ∃ e, h !! l = Some e ∧ r = Ok (length h) ∧ copied h h' e p.
Proof.
  revert l p h h' r. induction fuel as [| fuel IH]; intros l p h h' r Hrun; [done |].
  cbn [dup] in Hrun. unfold mbind, M_bind, bind, load in Hrun.
  destruct (h !! l) as [e |] eqn:He; [| done].
  exists e. split; [done |].
  unfold alloc in Hrun.
  set (ne := {| Space := Space e; Tag := Tag e; Attrs := Attrs e; Child := [];
                parent := p |}) in *.
  destruct (dupTokens (dup fuel) (length h) (Child e) (h ++ [ne]))
    as [[rch h2] |] eqn:Hch; [| done].
  destruct (dupTokens_spec fuel (fun l p h r h' => IH l p h h' r) _ _ _ _ _ Hch) as (ch & ext & -> & -> & Hspec).
  unfold modify, mbind, M_bind, bind, load, store in Hrun.
  rewrite <- app_assoc in Hrun. cbn [app] in Hrun.
  rewrite (lookup_app_r h) in Hrun by lia. rewrite Nat.sub_diag in Hrun.
  cbn in Hrun. rewrite (lookup_app_r h) in Hrun by lia. rewrite Nat.sub_diag in Hrun.
  cbn in Hrun. injection Hrun as <- <-.
  split; [done |].
  exists ch, (set_Child ch ne :: ext). split.
  { rewrite insert_app_r_alt by lia. by rewrite Nat.sub_diag. }
  split; [done |].
  intros d tch h'' Htch Hagree.
  apply (Hspec d tch h'').
  - apply (reifyTokens_impl (reify d h)); [| done]. intros c t0. apply reify_app.
  - intros i Hi. rewrite Hagree.
    + rewrite insert_app_r_alt by lia. rewrite Nat.sub_diag.
      rewrite <- app_assoc. cbn [app insert list_insert].
      rewrite !lookup_app_r by (rewrite ?length_app in *; cbn in *; lia).
      rewrite length_app in Hi. cbn in Hi.
      destruct (i - length h) as [| k] eqn:Hk; [lia | done].
    + rewrite length_insert. rewrite !length_app in *. cbn in *. lia.
Qed.

(** ** Operations that only write to new elements *)

Section keeps.
Variable h : heap.

Lemma keeps_weaken {A} (m : M A) (Q Q' : A → Prop) :
  (∀ a, Q a → Q' a) → keeps h m Q → keeps h m Q'.
Proof.
  intros HQ Hm h1 r h2 Hh1 Hrun.
  destruct (Hm h1 r h2 Hh1 Hrun) as [Hh2 Hr]. split; [done |].
  intros a Ha. by apply HQ, Hr.
Qed.

Lemma keeps_ret {A} (a : A) (Q : A → Prop) : Q a → keeps h (mret a) Q.
Proof.
  intros HQ h1 r h2 Hh1 Hrun. injection Hrun as <- <-. split; [done |].
  by intros a' [= <-].
Qed.

Lemma keeps_throw {A} (e : error) (Q : A → Prop) : keeps h (throw e) Q.
Proof. intros h1 r h2 Hh1 Hrun. injection Hrun as <- <-. by split. Qed.

Lemma keeps_bind {A B} (m : M A) (k : A → M B) (Q : A → Prop) (Q' : B → Prop) :
  keeps h m Q → (∀ a, Q a → keeps h (k a) Q') → keeps h (m ≫= k) Q'.
Proof.
  intros Hm Hk h1 r h2 Hh1 Hrun. unfold mbind, M_bind, bind in Hrun.
  destruct (m h1) as [[[a | e] hm] |] eqn:Hmrun; [| | done].
  - destruct (Hm _ _ _ Hh1 Hmrun) as [Hhm Ha].
    exact (Hk a (Ha a eq_refl) _ _ _ Hhm Hrun).
  - destruct (Hm _ _ _ Hh1 Hmrun) as [Hhm _].
    injection Hrun as <- <-. by split.
Qed.

Lemma keeps_lift {A} (f : heap → result A) : keeps h (lift f) (fun _ => True).
Proof. intros h1 r h2 Hh1 Hrun. injection Hrun as <- <-. by split. Qed.

Lemma keeps_load (l : loc) : keeps h (load l) (fun _ => True).
Proof.
  intros h1 r h2 Hh1 Hrun. unfold load in Hrun.
  destruct (h1 !! l); [| done]. injection Hrun as <- <-. by split.
Qed.

Lemma keeps_alloc (e : Element) : keeps h (alloc e) (fun l => (length h ≤ l)%nat).
Proof.
  intros h1 r h2 [k ->] Hrun. injection Hrun as <- <-. split.
  - exists (k ++ [e]). by rewrite app_assoc.
  - intros a [= <-]. rewrite length_app. lia.
Qed.

Lemma keeps_modify (l : loc) (f : Element → Element) :
  (length h ≤ l)%nat → keeps h (modify l f) (fun _ => True).
Proof.
  intros Hl h1 r h2 [k ->] Hrun. unfold modify, mbind, M_bind, bind, load, store in Hrun.
  destruct ((h ++ k) !! l) as [e |] eqn:He; [| done].
  cbn in Hrun. rewrite He in Hrun.
  injection Hrun as <- <-. split; [| done].
  exists (<[l - length h := f e]> k). by rewrite insert_app_r_alt.
Qed.

Lemma keeps_CreateAttr (l : loc) (key value : string) :
  (length h ≤ l)%nat → keeps h (CreateAttr l key value) (fun _ => True).
Proof.
  intros Hl. unfold CreateAttr. destruct (spaceDecompose key). by apply keeps_modify.
Qed.

Lemma keeps_RemoveAttr (l : loc) (key : string) :
  (length h ≤ l)%nat → keeps h (RemoveAttr l key) (fun _ => True).
Proof.
  intros Hl. unfold RemoveAttr. destruct (spaceDecompose key). by apply keeps_modify.
Qed.

Lemma keeps_SetText (l : loc) (text : string) :
  (length h ≤ l)%nat → keeps h (SetText l text) (fun _ => True).
Proof. intros Hl. by apply keeps_modify. Qed.

Lemma keeps_createNamespacedElement (ctx : SigningContext) (l : loc) (tg : string) :
  (length h ≤ l)%nat → keeps h (createNamespacedElement ctx l tg) (fun c => (length h ≤ c)%nat).
Proof.
  intros Hl. unfold createNamespacedElement, CreateElement, newElement.
  destruct (spaceDecompose tg) as [sp stag].
  eapply keeps_bind.
  - eapply keeps_bind; [apply keeps_alloc |].
    intros c Hc. eapply keeps_bind; [by apply keeps_modify |].
    intros _ _. by apply keeps_ret.
  - intros c Hc. eapply keeps_bind; [by apply keeps_modify |].
    intros _ _. by apply keeps_ret.
Qed.

Lemma keeps_SubContext (ctx : etreeutils.NSContext) (l : loc) :
  keeps h (etreeutils.SubContext ctx l) (fun _ => True).
Proof.
  unfold etreeutils.SubContext. eapply keeps_bind; [apply keeps_load |].
  intros e _. apply keeps_lift.
Qed.

Lemma keeps_buildParentContext (fuel : nat) (l : loc) :
  keeps h (etreeutils.buildParentContext fuel l) (fun _ => True).
Proof.
  revert l. induction fuel as [| fuel IH]; intros l; [by intros h1 r h2 _ Hrun |].
  cbn [etreeutils.buildParentContext].
  eapply keeps_bind; [apply keeps_load |]. intros e _.
  destruct (parent e) as [p |]; [| by apply keeps_ret].
  eapply keeps_bind; [apply IH |]. intros ctx _. apply keeps_SubContext.
Qed.

Lemma keeps_NSBuildParentContext (l : loc) :
  keeps h (etreeutils.NSBuildParentContext l) (fun _ => True).
Proof.
  intros h1 r h2 Hh1 Hrun. exact (keeps_buildParentContext _ _ _ _ _ Hh1 Hrun).
Qed.

Lemma keeps_dup (fuel : nat) (l : loc) (p : option loc) :
  keeps h (dup fuel l p) (fun c => (length h ≤ c)%nat).
Proof.
  intros h1 r h2 [k ->] Hrun.
  destruct (dup_spec _ _ _ _ _ _ Hrun) as (e & _ & -> & ch & ext & -> & _).
  split.
  - exists (k ++ ext). by rewrite app_assoc.
  - intros a [= <-]. rewrite length_app. lia.
Qed.

Lemma keeps_Copy (l : loc) : keeps h (Copy l) (fun c => (length h ≤ c)%nat).
Proof. intros h1 r h2 Hh1 Hrun. exact (keeps_dup _ _ _ _ _ _ Hh1 Hrun). Qed.

Lemma keeps_NSDetatch (ctx : etreeutils.NSContext) (l : loc) :
  keeps h (etreeutils.NSDetatch ctx l) (fun c => (length h ≤ c)%nat).
Proof.
  unfold etreeutils.NSDetatch.
  eapply keeps_bind; [apply keeps_SubContext |]. intros ctx' _.
  eapply keeps_bind; [apply keeps_Copy |]. intros c Hc.
  eapply keeps_bind; [by apply keeps_modify |]. intros _ _. by apply keeps_ret.
Qed.
End keeps.

Lemma CreateAttr_any (h l : heap) (k : nat) (key value : string) (e : Element) :
  l !! k = Some e →
  CreateAttr (length h + k) key value (h ++ l)
  = Some (Ok tt,
          h ++ <[k := set_Attrs (createAttr (spaceDecompose key).1 (spaceDecompose key).2
                                   value (Attrs e)) e]> l).
Proof.
  intros Hk. unfold CreateAttr. destruct (spaceDecompose key) as [sp skey].
  by rewrite (modify_new h l k _ e Hk).
Qed.

(** [AddChild] of the first new element, which has no parent yet. *)
Lemma AddChild_root (h l : heap) (k : nat) (e te : Element) :
  k ≠ 0 →
  l !! 0 = Some te →
  parent te = None →
  l !! k = Some e →
  AddChild (length h + k) (length h) (h ++ l)
  = Some (Ok tt,
          h ++ <[k := set_Child (Child e ++ [TElement (length h)]) e]>
                 (<[0 := set_parent (Some (length h + k)) te]> l)).
Proof.
  intros Hk Hte Hroot He. unfold AddChild.
  assert (Hload : load (length h) (h ++ l) = Some (Ok te, h ++ l)).
  { unfold load. by rewrite lookup_new0, Hte. }
  rewrite (bind_Ok _ _ _ _ _ Hload). rewrite Hroot.
  erewrite bind_Ok; [| reflexivity].
  erewrite bind_Ok; cycle 1.
  { rewrite <- (Nat.add_0_r (length h)) at 1. apply modify_new. exact Hte. }
  unfold addChild.
  apply (modify_new h _ k (fun el => set_Child (Child el ++ [TElement (length h)]) el) e).
  rewrite list_lookup_insert_ne by done. exact He.
Qed.

Section construct_signature.
Variable hashSum : crypto.Hash → octets → octets.
Variable SignPKCS1v15 : crypto.rsa_PrivateKey → crypto.Hash → octets → result octets.

Lemma keeps_digest (h : heap) (ctx : SigningContext) (l : loc) :
  keeps h (digest hashSum ctx l) (fun _ => True).
Proof.
  unfold digest. eapply keeps_bind; [apply keeps_lift |].
  intros c _. by apply keeps_ret.
Qed.

(** After [AddChild]: contexts, detachment and the removal of
    [xmlns:xsi]. *)
Lemma keeps_detach_tail (h : heap) (ctx : SigningContext) (el sig signedInfo : loc) :
  (length h ≤ sig)%nat →
  keeps h
    (rootNSCtx ← etreeutils.NSBuildParentContext el;
     elNSCtx ← etreeutils.SubContext rootNSCtx el;
     sigNSCtx ← etreeutils.SubContext elNSCtx sig;
     detatchedSignedInfo ← etreeutils.NSDetatch sigNSCtx signedInfo;
     RemoveAttr detatchedSignedInfo "xmlns:xsi" ;;
     mret (sig, detatchedSignedInfo))
    (fun r => (length h ≤ r.1)%nat ∧ (length h ≤ r.2)%nat).
Proof.
  intros Hsig.
  eapply keeps_bind; [apply keeps_NSBuildParentContext |]. intros rootNSCtx _.
  eapply keeps_bind; [apply keeps_SubContext |]. intros elNSCtx _.
  eapply keeps_bind; [apply keeps_SubContext |]. intros sigNSCtx _.
  eapply keeps_bind; [apply keeps_NSDetatch |]. intros d Hd.
  eapply keeps_bind; [by apply keeps_RemoveAttr |]. intros _ _.
  by apply keeps_ret.
Qed.

Lemma detatchSignedInfo_extends (ctx : SigningContext) (el : loc) (enveloped : bool)
    (h h' : heap) (e : Element) (sig d : loc) :
  h !! el = Some e →
  detatchSignedInfo hashSum ctx el enveloped h = Some (Ok (sig, d), h') →
  (∃ k, h' = h ++ k) ∧ (length h ≤ sig)%nat ∧ (length h ≤ d)%nat.
Proof.
  intros He Hrun. unfold detatchSignedInfo in Hrun.
  destruct (constructSignedInfo hashSum ctx el enveloped h) as [[[si | err] h0] |] eqn:Hsi;
    [| by rewrite (bind_Err _ _ _ _ _ Hsi) in Hrun
     | by rewrite (bind_None _ _ _ Hsi) in Hrun].
  rewrite (bind_Ok _ _ _ _ _ Hsi) in Hrun.
  destruct (constructSignedInfo_tree hashSum ctx el enveloped h h0 e si He Hsi)
    as (dig & sm & canonical & _ & _ & _ & _ & -> & -> & _).
  revert Hrun.
  assert (Hgo : ∀ nodes te,
            nodes !! 0 = Some te → parent te = None →
            (sig0 ← alloc {| Space := Prefix ctx; Tag := SignatureTag; Attrs := [];
                             Child := []; parent := None |};
             let xmlns :=
               if decide (Prefix ctx ≠ "") then "xmlns" +:+ (":" +:+ Prefix ctx)
               else "xmlns" in
             CreateAttr sig0 xmlns Namespace ;;
             AddChild sig0 (length h) ;;
             rootNSCtx ← etreeutils.NSBuildParentContext el;
             elNSCtx ← etreeutils.SubContext rootNSCtx el;
             sigNSCtx ← etreeutils.SubContext elNSCtx sig0;
             detatchedSignedInfo ← etreeutils.NSDetatch sigNSCtx (length h);
             RemoveAttr detatchedSignedInfo "xmlns:xsi" ;;
             mret (sig0, detatchedSignedInfo)) (h ++ nodes) = Some (Ok (sig, d), h') →
            (∃ k, h' = h ++ k) ∧ (length h ≤ sig)%nat ∧ (length h ≤ d)%nat).
  { intros nodes te Hte Hroot Hrun.
    pose proof (lookup_lt_Some _ _ _ Hte) as Hlen.
    rewrite (bind_Ok _ _ _ _ _ (alloc_new h nodes _)) in Hrun.
    cbv zeta in Hrun.
    erewrite bind_Ok in Hrun; cycle 1.
    { apply CreateAttr_any. rewrite lookup_app_r by lia.
      rewrite Nat.sub_diag. reflexivity. }
    erewrite bind_Ok in Hrun; cycle 1.
    { eapply AddChild_root.
      - lia.
      - rewrite list_lookup_insert_ne by lia. rewrite lookup_app_l by lia. exact Hte.
      - exact Hroot.
      - rewrite list_lookup_insert_eq; [reflexivity |]. rewrite length_app. cbn. lia. }
    eapply (keeps_detach_tail h ctx el (length h + length nodes) (length h)) in Hrun;
      [| lia | by eexists].
    destruct Hrun as [Hk Hr]. split; [exact Hk |].
    exact (Hr (sig, d) eq_refl). }
  eapply Hgo.
  - unfold signedInfoNodes. reflexivity.
  - reflexivity.
Qed.

Lemma keeps_signDetatched (h : heap) (ctx : SigningContext) (sig d : loc) :
  (length h ≤ sig)%nat →
  keeps h (signDetatched hashSum SignPKCS1v15 ctx sig d) (fun s => s = sig).
Proof.
  intros Hsig. unfold signDetatched.
  eapply keeps_bind; [apply keeps_digest |]. intros dg _.
  eapply keeps_bind; [apply keeps_lift |]. intros [key cert] _.
  eapply keeps_bind; [apply keeps_lift |]. intros rawSignature _.
  eapply keeps_bind; [by apply keeps_createNamespacedElement |]. intros sv Hsv.
  eapply keeps_bind; [by apply keeps_SetText |]. intros _ _.
  eapply keeps_bind; [by apply keeps_createNamespacedElement |]. intros ki Hki.
  eapply keeps_bind; [by apply keeps_createNamespacedElement |]. intros xd Hxd.
  eapply keeps_bind; [by apply keeps_createNamespacedElement |]. intros xc Hxc.
  cbv zeta.
  eapply (keeps_bind h _ _ (fun _ => True)).
  { destruct (decide (x509.Subject cert = "")); [by apply keeps_ret |].
    eapply keeps_bind; [by apply keeps_createNamespacedElement |]. intros xs Hxs.
    by apply keeps_SetText. }
  intros _ _.
  eapply keeps_bind; [by apply keeps_SetText |]. intros _ _.
  by apply keeps_ret.
Qed.

(** [ConstructSignature] writes nothing of the store it is given: the
    store it leaves extends it, and the Signature is a new element. *)
Lemma ConstructSignature_extends (ctx : SigningContext) (el : loc) (enveloped : bool)
    (h h' : heap) (e : Element) (sig : loc) :
  h !! el = Some e →
  ConstructSignature hashSum SignPKCS1v15 ctx el enveloped h = Some (Ok sig, h') →
  (∃ k, h' = h ++ k) ∧ (length h ≤ sig)%nat.
Proof.
  intros He Hrun. unfold ConstructSignature in Hrun.
  destruct (detatchSignedInfo hashSum ctx el enveloped h) as [[[[sig0 d] | err] h0] |]
    eqn:Hdet;
    [| by rewrite (bind_Err _ _ _ _ _ Hdet) in Hrun
     | by rewrite (bind_None _ _ _ Hdet) in Hrun].
  rewrite (bind_Ok _ _ _ _ _ Hdet) in Hrun.
  destruct (detatchSignedInfo_extends ctx el enveloped h h0 e sig0 d He Hdet)
    as (Hk & Hsig0 & _).
  destruct (keeps_signDetatched h ctx sig0 d Hsig0 _ _ _ Hk Hrun) as [Hk' Hs].
  split; [exact Hk' |]. by rewrite (Hs sig eq_refl).
Qed.
End construct_signature.

(** ** Copies return, and children appended to them *)

Lemma reifyTokens_snoc (f : loc → option Tree) (ts : list (Token loc)) (c : loc)
    (r : list (Token Tree)) (t : Tree) :
  reifyTokens f ts = Some r → f c = Some t →
  reifyTokens f (ts ++ [TElement c]) = Some (r ++ [TElement t]).
Proof.
  revert r. induction ts as [| x rest IH]; intros r Hr Hc.
  - injection Hr as <-. cbn. by rewrite Hc.
  - cbn [reifyTokens app] in *.
    destruct (reifyToken f x) as [x' |]; [| done].
    destruct (reifyTokens f rest) as [rest' |] eqn:Hrest; [| done].
    cbn in Hr. injection Hr as <-.
    by rewrite (IH rest' eq_refl Hc).
Qed.

Lemma modify_at (h : heap) (l : loc) (f : Element → Element) (e : Element) :
  h !! l = Some e → modify l f h = Some (Ok tt, <[l := f e]> h).
Proof.
  intros He. unfold modify, mbind, M_bind, bind, load, store. by rewrite He, He.
Qed.

(** A copy returns as soon as the fuel covers the depth of the tree. *)
Lemma dup_returns (d : nat) :
  ∀ fuel l p h t,
    reify d h l = Some t → (d ≤ fuel)%nat →
    ∃ h', dup fuel l p h = Some (Ok (length h), h').
Proof.
  induction d as [| d IH]; intros fuel l p h t Ht Hfuel; [done |].
  destruct fuel as [| fuel]; [lia |].
  cbn [reify] in Ht. destruct (h !! l) as [e |] eqn:He; [| done]. cbn in Ht.
  destruct (reifyTokens (reify d h) (Child e)) as [tch |] eqn:Htch; [| done].
  set (ne := {| Space := Space e; Tag := Tag e; Attrs := Attrs e; Child := [];
                parent := p |}).
  assert (Htokens : ∀ ts h1 r,
            reifyTokens (reify d h1) ts = Some r →
            ∃ ch h2, dupTokens (dup fuel) (length h) ts h1 = Some (Ok ch, h2)).
  { induction ts as [| x rest IHts]; intros h1 r Hr; [by eexists _, _ |].
    cbn [reifyTokens] in Hr.
    destruct (reifyToken (reify d h1) x) as [x' |] eqn:Hx; [| done].
    destruct (reifyTokens (reify d h1) rest) as [rest' |] eqn:Hrest; [| done].
    assert (Hstep : ∃ y ext, dupToken (dup fuel) (length h) x h1 = Some (Ok y, h1 ++ ext)).
    { destruct x as [c | s | s | s | a b];
        try (eexists _, []; rewrite app_nil_r; reflexivity).
      cbn [reifyToken] in Hx. destruct (reify d h1 c) as [tc |] eqn:Hc; [| done].
      destruct (IH fuel c (Some (length h)) h1 tc Hc ltac:(lia)) as [hc Hdup].
      destruct (dup_spec _ _ _ _ _ _ Hdup) as (ec & _ & _ & chc & ext & -> & _).
      exists (TElement (length h1)), ext. cbn [dupToken].
      by rewrite (bind_Ok _ _ _ _ _ Hdup). }
    destruct Hstep as (y & ext & Hy).
    destruct (IHts (h1 ++ ext) rest') as (ch & h2 & Hch).
    { apply (reifyTokens_impl (reify d h1)); [| done]. intros c t0. apply reify_app. }
    exists (y :: ch), h2. cbn [dupTokens].
    rewrite (bind_Ok _ _ _ _ _ Hy), (bind_Ok _ _ _ _ _ Hch). reflexivity. }
  destruct (Htokens (Child e) (h ++ [ne]) tch) as (ch & h2 & Hch).
  { apply (reifyTokens_impl (reify d h)); [| done]. intros c t0. apply reify_app. }
  destruct (dupTokens_spec fuel (fun l p h r h' => dup_spec fuel l p h h' r)
              _ _ _ _ _ Hch) as (ch' & ext & _ & -> & _).
  exists (<[length h := set_Child ch ne]> ((h ++ [ne]) ++ ext)).
  cbn [dup]. unfold load at 1.
  unfold mbind at 1, M_bind at 1, bind at 1. rewrite He.
  rewrite (bind_Ok _ _ _ _ _ (eq_refl : alloc ne h = Some (Ok (length h), h ++ [ne]))).
  rewrite (bind_Ok _ _ _ _ _ Hch).
  erewrite bind_Ok; [reflexivity |].
  apply modify_at. rewrite <- app_assoc. by rewrite lookup_app_r, Nat.sub_diag by lia.
Qed.

Lemma Copy_returns (d : nat) (h : heap) (l : loc) (t : Tree) :
  reify d h l = Some t → (d ≤ length h)%nat →
  ∃ h', Copy l h = Some (Ok (length h), h').
Proof. intros Ht Hd. by apply (dup_returns d (length h) l None h t). Qed.

(** ** The detached SignedInfo and the prefix xsi *)

(** C2, which the code does not keep.  The Response of the example is
    signed below a root that declares [xmlns:xsi], so at the place of the
    Signature the prefix [xsi] is in scope, and the Signature does not
    declare it again; yet the detached SignedInfo, the element that is
    digested and signed, carries [xmlns:ds] alone: the declaration of [xsi]
    has been removed from it.  With a context that emits its elements under
    the prefix [xsi] the detached SignedInfo uses [xsi] in its own name and
    declares nothing at all. *)
Theorem detatchSignedInfo_drops_xsi :
  (∃ sig detached h',
     detatchSignedInfo Examples.constHash Examples.defaultContext Examples.response true
       Examples.document = Some (Ok (sig, detached), h') ∧
     inScope 2 Examples.document Examples.response "xsi"
       = Some "http://www.w3.org/2001/XMLSchema-instance" ∧
     (e ← h' !! sig; Some (declaredNamespace "xsi" (Attrs e))) = Some None ∧
     (Attrs <$> h' !! detached) = Some [mkAttr "xmlns" "ds" Namespace] ∧
     (e ← h' !! detached; Some (declaredNamespace "xsi" (Attrs e))) = Some None) ∧
  (∃ sig detached h',
     detatchSignedInfo Examples.constHash Examples.xsiContext Examples.response true
       Examples.document = Some (Ok (sig, detached), h') ∧
     (e ← h' !! sig; Some (declaredNamespace "xsi" (Attrs e))) = Some (Some Namespace) ∧
     (Space <$> h' !! detached) = Some "xsi" ∧
     (Attrs <$> h' !! detached) = Some [] ∧
     (e ← h' !! detached; Some (declaredNamespace "xsi" (Attrs e))) = Some None).
Proof.
  split.
  - eexists _, _, _. split; [vm_compute; reflexivity |].
    repeat split; vm_compute; reflexivity.
  - eexists _, _, _. split; [vm_compute; reflexivity |].
    repeat split; vm_compute; reflexivity.
Qed.

(* ================================================================== *)
(** * Part III: more properties of the code *)
(* ================================================================== *)

(** ** The registry, whatever the order of iteration *)

Lemma initLoop_snoc (entries : list (N * string)) (hash : N) (id : string) :
  initLoop (entries ++ [(hash, id)]) = <[id := hash]> (initLoop entries).
Proof. unfold initLoop. by rewrite foldl_app. Qed.

Lemma initLoop_lookup (entries : list (N * string)) :
  (∀ h1 h2 id, (h1, id) ∈ entries → (h2, id) ∈ entries → h1 = h2) →
  ∀ id hash, initLoop entries !! id = Some hash ↔ (hash, id) ∈ entries.
Proof.
  induction entries as [| [h0 i0] entries IH] using rev_ind; intros Hinj id hash.
  - unfold initLoop. cbn. rewrite lookup_empty. split; [done |]. by intros ?%elem_of_nil.
  - rewrite initLoop_snoc, lookup_insert_Some, elem_of_app, list_elem_of_singleton.
    rewrite IH; cycle 1.
    { intros h1 h2 id' H1 H2. apply (Hinj h1 h2 id'); apply elem_of_app; by left. }
    split.
    + intros [[-> ->] | [_ Hin]]; [by right | by left].
    + intros [Hin | [= -> ->]]; [| by left].
      destruct (decide (i0 = id)) as [-> | Hne]; [left | by right].
      split; [done |]. apply (Hinj h0 hash id).
      * apply elem_of_app. right. by apply list_elem_of_singleton.
      * apply elem_of_app. by left.
Qed.

Lemma initLoop_invert (m : gmap N string) (entries : list (N * string)) :
  (∀ h1 h2 id, m !! h1 = Some id → m !! h2 = Some id → h1 = h2) →
  entries ≡ₚ map_to_list m →
  initLoop entries = invert m.
Proof.
  intros Hinj Hperm. apply map_eq. intros id. apply option_eq. intros hash.
  rewrite (invert_lookup m Hinj).
  rewrite initLoop_lookup.
  - by rewrite Hperm, elem_of_map_to_list.
  - intros h1 h2 id'. rewrite !Hperm, !elem_of_map_to_list. apply Hinj.
Qed.

(** X1. The reverse maps do not depend on the order in which [init] ranges
    over the two tables: run over the entries in any order, each loop builds
    the reverse map of the package, in which an identifier leads to a hash
    exactly when the table gives that identifier for the hash. *)
Theorem init_any_iteration_order (digests methods : list (N * string)) :
  digests ≡ₚ map_to_list digestAlgorithmIdentifiers →
  methods ≡ₚ map_to_list signatureMethodIdentifiers →
  initLoop digests = digestAlgorithmsByIdentifier ∧
  initLoop methods = signatureMethodsByIdentifier ∧
  (∀ id hash, initLoop digests !! id = Some hash ↔
              digestAlgorithmIdentifiers !! hash = Some id) ∧
  (∀ id hash, initLoop methods !! id = Some hash ↔
              signatureMethodIdentifiers !! hash = Some id).
Proof.
  intros Hd Hm.
  assert (Hdi : ∀ h1 h2 id, digestAlgorithmIdentifiers !! h1 = Some id →
                            digestAlgorithmIdentifiers !! h2 = Some id → h1 = h2).
  { intros h1 h2 id. rewrite !digestAlgorithmIdentifiers_lookup. naive_solver. }
  assert (Hmi : ∀ h1 h2 id, signatureMethodIdentifiers !! h1 = Some id →
                            signatureMethodIdentifiers !! h2 = Some id → h1 = h2).
  { intros h1 h2 id. rewrite !signatureMethodIdentifiers_lookup.
    unfold RSASHA1SignatureMethod, RSASHA256SignatureMethod, RSASHA512SignatureMethod.
    naive_solver. }
  rewrite (initLoop_invert _ _ Hdi Hd), (initLoop_invert _ _ Hmi Hm).
  split; [reflexivity |]. split; [reflexivity |]. split.
  - apply digestAlgorithmsByIdentifier_inverse.
  - apply signatureMethodsByIdentifier_inverse.
Qed.

Lemma map_to_list_three (m : gmap N string) (a b c : N) (x y z : string) :
  a ≠ b → a ≠ c → b ≠ c →
  m = <[a := x]> (<[b := y]> (<[c := z]> ∅)) →
  [(c, z); (a, x); (b, y)] ≡ₚ map_to_list m.
Proof.
  intros Hab Hac Hbc ->.
  rewrite map_to_list_insert by (by rewrite !lookup_insert_ne, lookup_empty).
  rewrite map_to_list_insert by (by rewrite !lookup_insert_ne, lookup_empty).
  rewrite map_to_list_insert by apply lookup_empty.
  rewrite map_to_list_empty.
  rewrite (Permutation_cons_append _ (c, z)). done.
Qed.

Lemma init_any_iteration_order_witness :
  initLoop [(crypto.SHA512, "http://www.w3.org/2001/04/xmlenc#sha512");
            (crypto.SHA1, "http://www.w3.org/2000/09/xmldsig#sha1");
            (crypto.SHA256, "http://www.w3.org/2001/04/xmlenc#sha256")]
    = digestAlgorithmsByIdentifier ∧
  initLoop [(crypto.SHA512, RSASHA512SignatureMethod);
            (crypto.SHA1, RSASHA1SignatureMethod);
            (crypto.SHA256, RSASHA256SignatureMethod)]
    = signatureMethodsByIdentifier.
Proof.
  destruct (init_any_iteration_order
              [(crypto.SHA512, "http://www.w3.org/2001/04/xmlenc#sha512");
               (crypto.SHA1, "http://www.w3.org/2000/09/xmldsig#sha1");
               (crypto.SHA256, "http://www.w3.org/2001/04/xmlenc#sha256")]
              [(crypto.SHA512, RSASHA512SignatureMethod);
               (crypto.SHA1, RSASHA1SignatureMethod);
               (crypto.SHA256, RSASHA256SignatureMethod)])
    as (H1 & H2 & _).
  - apply map_to_list_three; [discriminate .. | reflexivity].
  - apply map_to_list_three; [discriminate .. | reflexivity].
  - exact (conj H1 H2).
Defined.

(** X2. The two tables have the same keys: the digest identifier and the
    signature method identifier of a context are empty together, they are
    not empty exactly for SHA1, SHA256 and SHA512, and the two reverse maps
    lead from them to the same hash.  So a context that passes the first
    guard of [constructSignedInfo] passes the second. *)
Theorem identifiers_registered_together (ctx : SigningContext) :
  (GetDigestAlgorithmIdentifier ctx = "" ↔ GetSignatureMethodIdentifier ctx = "") ∧
  (GetDigestAlgorithmIdentifier ctx ≠ "" ↔
   Hash ctx = crypto.SHA1 ∨ Hash ctx = crypto.SHA256 ∨ Hash ctx = crypto.SHA512) ∧
  digestAlgorithmsByIdentifier !! GetDigestAlgorithmIdentifier ctx
  = signatureMethodsByIdentifier !! GetSignatureMethodIdentifier ctx.
Proof.
  unfold GetDigestAlgorithmIdentifier, GetSignatureMethodIdentifier.
  destruct (digestAlgorithmIdentifiers !! Hash ctx) as [dig |] eqn:Hdig;
    destruct (signatureMethodIdentifiers !! Hash ctx) as [sm |] eqn:Hsm.
  - pose proof (digestAlgorithmIdentifiers_nonempty _ _ Hdig).
    pose proof (signatureMethodIdentifiers_nonempty _ _ Hsm).
    split; [done |]. split.
    + split; [| done]. intros _.
      apply digestAlgorithmIdentifiers_lookup in Hdig. naive_solver.
    + trans (Some (Hash ctx)).
      * exact (proj2 (digestAlgorithmsByIdentifier_inverse _ _) Hdig).
      * symmetry. exact (proj2 (signatureMethodsByIdentifier_inverse _ _) Hsm).
  - exfalso. apply digestAlgorithmIdentifiers_lookup in Hdig.
    assert (is_Some (signatureMethodIdentifiers !! Hash ctx)) as [? ?]; [| congruence].
    destruct Hdig as [[-> _] | [[-> _] | [-> _]]]; by eexists.
  - exfalso. apply signatureMethodIdentifiers_lookup in Hsm.
    assert (is_Some (digestAlgorithmIdentifiers !! Hash ctx)) as [? ?]; [| congruence].
    destruct Hsm as [[-> _] | [[-> _] | [-> _]]]; by eexists.
  - split; [done |]. split.
    + split; [done |]. intros Hh. exfalso.
      assert (is_Some (digestAlgorithmIdentifiers !! Hash ctx)) as [? ?]; [| congruence].
      destruct Hh as [-> | [-> | ->]]; by eexists.
    + assert (Hd : digestAlgorithmsByIdentifier !! "" = None).
      { apply eq_None_not_Some. intros [hash Hh].
        apply (proj1 (digestAlgorithmsByIdentifier_inverse _ _)) in Hh.
        by apply digestAlgorithmIdentifiers_nonempty in Hh. }
      assert (Hs : signatureMethodsByIdentifier !! "" = None).
      { apply eq_None_not_Some. intros [hash Hh].
        apply (proj1 (signatureMethodsByIdentifier_inverse _ _)) in Hh.
        by apply signatureMethodIdentifiers_nonempty in Hh. }
      trans (@None N); [exact Hd | symmetry; exact Hs].
Qed.

Lemma set_Hash_same (ctx : SigningContext) : set_Hash (Hash ctx) ctx = ctx.
Proof. by destruct ctx. Qed.

Lemma GetSignatureMethodIdentifier_Some (ctx : SigningContext) :
  GetSignatureMethodIdentifier ctx ≠ "" →
  signatureMethodIdentifiers !! Hash ctx = Some (GetSignatureMethodIdentifier ctx).
Proof.
  unfold GetSignatureMethodIdentifier.
  by destruct (signatureMethodIdentifiers !! Hash ctx).
Qed.

Lemma registered_hash (hash : crypto.Hash) :
  hash = crypto.SHA1 ∨ hash = crypto.SHA256 ∨ hash = crypto.SHA512 ↔
  is_Some (digestAlgorithmIdentifiers !! hash).
Proof.
  split.
  - intros [-> | [-> | ->]]; by eexists.
  - intros [id Hid]. apply digestAlgorithmIdentifiers_lookup in Hid. naive_solver.
Qed.

Lemma registered_hash_method (hash : crypto.Hash) :
  hash = crypto.SHA1 ∨ hash = crypto.SHA256 ∨ hash = crypto.SHA512 ↔
  is_Some (signatureMethodIdentifiers !! hash).
Proof.
  split.
  - intros [-> | [-> | ->]]; by eexists.
  - intros [id Hid]. apply signatureMethodIdentifiers_lookup in Hid. naive_solver.
Qed.

(** X3. After a [SetSignatureMethod] that returns no error,
    [GetSignatureMethodIdentifier] returns the URI that was set and the
    digest identifier is not empty; and setting the identifier that
    [GetSignatureMethodIdentifier] returns, when it is not empty, leaves the
    context as it is. *)
Theorem SetSignatureMethod_GetSignatureMethodIdentifier
    (ctx : SigningContext) (u : string) :
  (snd (SetSignatureMethod ctx u) = None →
   GetSignatureMethodIdentifier (fst (SetSignatureMethod ctx u)) = u ∧
   GetDigestAlgorithmIdentifier (fst (SetSignatureMethod ctx u)) ≠ "") ∧
  (GetSignatureMethodIdentifier ctx ≠ "" →
   SetSignatureMethod ctx (GetSignatureMethodIdentifier ctx) = (ctx, None)).
Proof.
  split.
  - unfold SetSignatureMethod.
    destruct (signatureMethodsByIdentifier !! u) as [hash |] eqn:Hu; [| done].
    intros _. cbn [fst].
    apply (proj1 (signatureMethodsByIdentifier_inverse _ _)) in Hu.
    unfold GetSignatureMethodIdentifier, GetDigestAlgorithmIdentifier. cbn [Hash set_Hash].
    split.
    + by rewrite Hu.
    + assert (is_Some (digestAlgorithmIdentifiers !! hash)) as [dig Hdig].
      { apply registered_hash, registered_hash_method. by eexists. }
      rewrite Hdig. by apply digestAlgorithmIdentifiers_nonempty in Hdig.
  - intros Hsm. apply GetSignatureMethodIdentifier_Some in Hsm.
    apply (proj2 (signatureMethodsByIdentifier_inverse _ _)) in Hsm.
    unfold SetSignatureMethod.
    destruct (signatureMethodsByIdentifier !! GetSignatureMethodIdentifier ctx)
      as [hash |] eqn:Hlook; [| discriminate Hsm].
    injection Hsm as ->. by rewrite set_Hash_same.
Qed.

Lemma SetSignatureMethod_GetSignatureMethodIdentifier_witness :
  GetSignatureMethodIdentifier
    (fst (SetSignatureMethod Examples.defaultContext RSASHA1SignatureMethod))
    = RSASHA1SignatureMethod ∧
  GetDigestAlgorithmIdentifier
    (fst (SetSignatureMethod Examples.defaultContext RSASHA1SignatureMethod)) ≠ "" ∧
  SetSignatureMethod Examples.defaultContext
    (GetSignatureMethodIdentifier Examples.defaultContext)
    = (Examples.defaultContext, None).
Proof.
  pose proof (SetSignatureMethod_GetSignatureMethodIdentifier
                Examples.defaultContext RSASHA1SignatureMethod) as [Hset _].
  pose proof (SetSignatureMethod_GetSignatureMethodIdentifier
                Examples.defaultContext "") as [_ Hget].
  destruct Hset as [H1 H2]; [vm_compute; reflexivity |].
  split; [exact H1 |]. split; [exact H2 |].
  apply Hget. vm_compute. discriminate.
Defined.

(** ** Errors of the signing functions *)

Section signing_errors.
Variable hashSum : crypto.Hash → octets → octets.
Variable SignPKCS1v15 : crypto.rsa_PrivateKey → crypto.Hash → octets → result octets.

Lemma ConstructSignature_Err (ctx : SigningContext) (el : loc) (enveloped : bool)
    (h h' : heap) (err : error) :
  constructSignedInfo hashSum ctx el enveloped h = Some (Err err, h') →
  ConstructSignature hashSum SignPKCS1v15 ctx el enveloped h = Some (Err err, h').
Proof.
  intros Herr. unfold ConstructSignature, detatchSignedInfo.
  erewrite bind_Err; [reflexivity |]. by erewrite bind_Err.
Qed.

Lemma SignEnveloped_Err (ctx : SigningContext) (el : loc) (h h' : heap) (err : error) :
  ConstructSignature hashSum SignPKCS1v15 ctx el true h = Some (Err err, h') →
  SignEnveloped hashSum SignPKCS1v15 ctx el h = Some (Err err, h').
Proof. intros Herr. unfold SignEnveloped. by erewrite bind_Err. Qed.

(** X4. With a hash other than SHA1, SHA256 and SHA512,
    [constructSignedInfo], [ConstructSignature] and [SignEnveloped] return
    the error [unsupported hash mechanism] before anything else happens: the
    store is unchanged, and the element is not even looked at. *)
Theorem unsupported_hash_is_rejected (ctx : SigningContext) (el : loc) (enveloped : bool)
    (h : heap) :
  Hash ctx ≠ crypto.SHA1 → Hash ctx ≠ crypto.SHA256 → Hash ctx ≠ crypto.SHA512 →
  constructSignedInfo hashSum ctx el enveloped h
    = Some (Err "unsupported hash mechanism", h) ∧
  ConstructSignature hashSum SignPKCS1v15 ctx el enveloped h
    = Some (Err "unsupported hash mechanism", h) ∧
  SignEnveloped hashSum SignPKCS1v15 ctx el h
    = Some (Err "unsupported hash mechanism", h).
Proof.
  intros H1 H256 H512.
  assert (Hsi : ∀ env, constructSignedInfo hashSum ctx el env h
                       = Some (Err "unsupported hash mechanism", h)).
  { intros env. unfold constructSignedInfo, GetDigestAlgorithmIdentifier.
    destruct (digestAlgorithmIdentifiers !! Hash ctx) as [dig |] eqn:Hdig.
    - apply digestAlgorithmIdentifiers_lookup in Hdig. naive_solver.
    - by rewrite decide_True. }
  split; [apply Hsi |]. split.
  - apply ConstructSignature_Err, Hsi.
  - apply SignEnveloped_Err, ConstructSignature_Err, Hsi.
Qed.

(** X5. When the hash is registered and the canonicalizer rejects the
    element, [constructSignedInfo], [ConstructSignature] and [SignEnveloped]
    return the error of the canonicalizer as it is, and the store is
    unchanged. *)
Theorem canonicalizer_error_is_returned (ctx : SigningContext) (el : loc)
    (enveloped : bool) (h : heap) (err : error) :
  Hash ctx = crypto.SHA1 ∨ Hash ctx = crypto.SHA256 ∨ Hash ctx = crypto.SHA512 →
  Canonicalize (Canonicalizer ctx) h el = Err err →
  constructSignedInfo hashSum ctx el enveloped h = Some (Err err, h) ∧
  ConstructSignature hashSum SignPKCS1v15 ctx el enveloped h = Some (Err err, h) ∧
  SignEnveloped hashSum SignPKCS1v15 ctx el h = Some (Err err, h).
Proof.
  intros Hreg Hcanon.
  assert (Hsi : ∀ env, constructSignedInfo hashSum ctx el env h = Some (Err err, h)).
  { intros env.
    destruct (proj1 (registered_hash _) Hreg) as [dig Hdig].
    destruct (proj1 (registered_hash_method _) Hreg) as [sm Hsm].
    pose proof (digestAlgorithmIdentifiers_nonempty _ _ Hdig).
    pose proof (signatureMethodIdentifiers_nonempty _ _ Hsm).
    unfold constructSignedInfo, GetDigestAlgorithmIdentifier, GetSignatureMethodIdentifier.
    rewrite Hdig, Hsm. rewrite !decide_False by done.
    erewrite bind_Err; [reflexivity |].
    unfold digest, lift. erewrite bind_Err; [reflexivity |]. by rewrite Hcanon. }
  split; [apply Hsi |]. split.
  - apply ConstructSignature_Err, Hsi.
  - apply SignEnveloped_Err, ConstructSignature_Err, Hsi.
Qed.

(** X6. On an element of the store [constructSignedInfo] always returns,
    and its guards come in this order: an unregistered hash gives
    [unsupported hash mechanism]; else an error of the canonicalizer is
    returned as it is; else a missing or empty ID gives [Missing data ID];
    else the SignedInfo is the first new element.  The store it leaves
    extends the store it was given. *)
Theorem constructSignedInfo_outcome (ctx : SigningContext) (el : loc) (enveloped : bool)
    (h : heap) (e : Element) :
  h !! el = Some e →
  ∃ ext,
    constructSignedInfo hashSum ctx el enveloped h
    = Some (signedInfoOutcome ctx h el e, h ++ ext).
Proof.
  intros He. unfold signedInfoOutcome.
  destruct (digestAlgorithmIdentifiers !! Hash ctx) as [dig |] eqn:Hdig; cycle 1.
  { exists []. rewrite app_nil_r.
    unfold constructSignedInfo, GetDigestAlgorithmIdentifier.
    rewrite Hdig. by rewrite decide_True. }
  assert (is_Some (signatureMethodIdentifiers !! Hash ctx)) as [sm Hsm].
  { apply registered_hash_method, registered_hash. by eexists. }
  destruct (Canonicalize (Canonicalizer ctx) h el) as [canonical | err] eqn:Hcanon;
    cycle 1.
  { exists []. rewrite app_nil_r.
    pose proof (digestAlgorithmIdentifiers_nonempty _ _ Hdig).
    pose proof (signatureMethodIdentifiers_nonempty _ _ Hsm).
    unfold constructSignedInfo, GetDigestAlgorithmIdentifier, GetSignatureMethodIdentifier.
    rewrite Hdig, Hsm. rewrite !decide_False by done.
    erewrite bind_Err; [reflexivity |].
    unfold digest, lift. erewrite bind_Err; [reflexivity |]. by rewrite Hcanon. }
  destruct (decide (dataIDOf ctx e = "")) as [Hid | Hid].
  - pose proof (digestAlgorithmIdentifiers_nonempty _ _ Hdig).
    pose proof (signatureMethodIdentifiers_nonempty _ _ Hsm).
    unfold constructSignedInfo, GetDigestAlgorithmIdentifier, GetSignatureMethodIdentifier.
    rewrite Hdig, Hsm. rewrite !decide_False by done.
    step ltac:(unfold digest, lift; erewrite bind_Ok; [| rewrite Hcanon; reflexivity];
               reflexivity).
    step ltac:(apply alloc_base).
    new_elem. new_attr. new_elem. new_attr. new_elem.
    step ltac:(apply SelectAttrValue_old; exact He).
    fold (dataIDOf ctx e). rewrite decide_True by done. by eexists.
  - eexists.
    apply (constructSignedInfo_eval hashSum ctx el enveloped h e dig sm canonical);
      done.
Qed.
End signing_errors.

Lemma unsupported_hash_is_rejected_witness :
  constructSignedInfo Examples.constHash Examples.md5Context Examples.response true
    Examples.document = Some (Err "unsupported hash mechanism", Examples.document) ∧
  ConstructSignature Examples.constHash Examples.identitySign Examples.md5Context
    Examples.response true Examples.document
    = Some (Err "unsupported hash mechanism", Examples.document) ∧
  SignEnveloped Examples.constHash Examples.identitySign Examples.md5Context
    Examples.response Examples.document
    = Some (Err "unsupported hash mechanism", Examples.document).
Proof.
  apply (unsupported_hash_is_rejected Examples.constHash Examples.identitySign
           Examples.md5Context Examples.response true Examples.document);
    vm_compute; discriminate.
Defined.

Lemma canonicalizer_error_is_returned_witness :
  constructSignedInfo Examples.constHash Examples.rejectingContext Examples.response true
    Examples.document = Some (Err "canonicalization failed", Examples.document) ∧
  ConstructSignature Examples.constHash Examples.identitySign Examples.rejectingContext
    Examples.response true Examples.document
    = Some (Err "canonicalization failed", Examples.document) ∧
  SignEnveloped Examples.constHash Examples.identitySign Examples.rejectingContext
    Examples.response Examples.document
    = Some (Err "canonicalization failed", Examples.document).
Proof.
  apply (canonicalizer_error_is_returned Examples.constHash Examples.identitySign
           Examples.rejectingContext Examples.response true Examples.document).
  - right. left. reflexivity.
  - reflexivity.
Defined.

Lemma constructSignedInfo_outcome_witness :
  ∃ ext,
    constructSignedInfo Examples.constHash Examples.defaultContext 0 true Examples.document
    = Some (Err "Missing data ID", Examples.document ++ ext).
Proof.
  apply (constructSignedInfo_outcome Examples.constHash Examples.defaultContext 0 true
           Examples.document
           (mkElement "" "Root"
              [mkAttr "xmlns" "xsi" "http://www.w3.org/2001/XMLSchema-instance"]
              [TElement 1] None)).
  reflexivity.
Defined.

(** ** Elements under the prefix of the context *)

Lemma createNamespacedElement_at (ctx : SigningContext) (el : loc) (tg : string)
    (h : heap) (e : Element) :
  h !! el = Some e →
  createNamespacedElement ctx el tg h
  = Some (Ok (length h),
          <[el := set_Child (Child e ++ [TElement (length h)]) e]> h
          ++ [ {| Space := Prefix ctx; Tag := (spaceDecompose tg).2; Attrs := [];
                  Child := []; parent := Some el |} ]).
Proof.
  intros He. pose proof (lookup_lt_Some _ _ _ He) as Hlt.
  unfold createNamespacedElement, CreateElement, newElement.
  destruct (spaceDecompose tg) as [sp stag]. cbn [snd].
  erewrite bind_Ok; cycle 1.
  { erewrite bind_Ok; [| reflexivity].
    erewrite bind_Ok; [reflexivity |].
    unfold addChild. apply modify_at. by apply lookup_app_l_Some. }
  erewrite bind_Ok; cycle 1.
  { apply modify_at. rewrite list_lookup_insert_ne by lia.
    rewrite lookup_app_r by lia. rewrite Nat.sub_diag. reflexivity. }
  unfold mret, M_ret, ret. do 3 f_equal.
  rewrite insert_app_l by done.
  rewrite insert_app_r_alt by (rewrite length_insert; lia).
  rewrite length_insert, Nat.sub_diag. reflexivity.
Qed.

(** X7. [createNamespacedElement] on an element of the store returns the
    next location of the store, which holds an element without attributes
    and children, whose parent is [el], whose tag is the local part of the
    tag asked for and whose prefix is the prefix of the context, whatever
    prefix the tag carried; the new element is the last child of [el], and
    no other element changes. *)
Theorem createNamespacedElement_appends (ctx : SigningContext) (el : loc) (tg : string)
    (h : heap) (e : Element) :
  h !! el = Some e →
  ∃ h',
    createNamespacedElement ctx el tg h = Some (Ok (length h), h') ∧
    length h' = S (length h) ∧
    h' !! el = Some (set_Child (Child e ++ [TElement (length h)]) e) ∧
    h' !! length h = Some (mkElement (Prefix ctx) (spaceDecompose tg).2 [] [] (Some el)) ∧
    ∀ l, l ≠ el → l ≠ length h → h' !! l = h !! l.
Proof.
  intros He. pose proof (lookup_lt_Some _ _ _ He) as Hlt.
  eexists. split; [by apply createNamespacedElement_at |].
  split; [rewrite length_app, length_insert; cbn; lia |].
  split; [rewrite lookup_app_l by (by rewrite length_insert);
          by apply list_lookup_insert_eq |].
  split.
  { rewrite lookup_app_r by (by rewrite length_insert).
    by rewrite length_insert, Nat.sub_diag. }
  intros l Hel Hnew.
  destruct (decide (l < length h)) as [Hl | Hl].
  - rewrite lookup_app_l by (by rewrite length_insert).
    by apply list_lookup_insert_ne.
  - rewrite !lookup_ge_None_2; [done | lia |].
    rewrite length_app, length_insert. cbn. lia.
Qed.

Lemma createNamespacedElement_appends_witness :
  ∃ h',
    createNamespacedElement Examples.defaultContext Examples.response "saml:Issuer"
      Examples.document = Some (Ok 2, h') ∧
    length h' = 3 ∧
    h' !! Examples.response
    = Some (mkElement "" "Response" [mkAttr "" "ID" "x1"] [TCharData "hi"; TElement 2]
              (Some 0)) ∧
    h' !! 2 = Some (mkElement "ds" "Issuer" [] [] (Some Examples.response)) ∧
    ∀ l, l ≠ Examples.response → l ≠ 2 → h' !! l = Examples.document !! l.
Proof.
  apply (createNamespacedElement_appends Examples.defaultContext Examples.response
           "saml:Issuer" Examples.document
           (mkElement "" "Response" [mkAttr "" "ID" "x1"] [TCharData "hi"] (Some 0))).
  reflexivity.
Defined.

(** ** The length of the encoded digest *)

Lemma Encode_length (bs : octets) :
  length (base64.Encode bs) = 4 * ((length bs + 2) / 3).
Proof.
  induction bs as [| a | a b | a b c rest IH] using list_ind3; try reflexivity.
  cbn [base64.Encode length]. rewrite IH.
  replace (S (S (S (length rest))) + 2) with ((length rest + 2) + 1 * 3) by lia.
  rewrite Nat.div_add by lia. lia.
Qed.

Lemma length_string_of_list_ascii (l : list ascii) :
  String.length (String.string_of_list_ascii l) = length l.
Proof. induction l as [| c l IH]; [done |]. cbn. by rewrite IH. Qed.

Lemma EncodeToString_length (bs : octets) :
  String.length (base64.EncodeToString bs) = 4 * ((length bs + 2) / 3).
Proof.
  unfold base64.EncodeToString. by rewrite length_string_of_list_ascii, Encode_length.
Qed.

Section digest_value_length.
Variable hashSum : crypto.Hash → octets → octets.

(** X8. The text of the DigestValue built by [constructSignedInfo] has
    four characters for every three bytes of the digest, rounded up: 28
    characters for SHA1, 44 for SHA256 and 88 for SHA512. *)
Theorem constructSignedInfo_DigestValue_length (ctx : SigningContext) (el : loc)
    (enveloped : bool) (h h' : heap) (e : Element) (si : loc) :
  h !! el = Some e →
  (∀ data, length (hashSum (Hash ctx) data) = crypto.Size (Hash ctx)) →
  constructSignedInfo hashSum ctx el enveloped h = Some (Ok si, h') →
  ∃ signedInfo reference digestValue,
    reify 4 h' si = Some signedInfo ∧
    SelectElement ReferenceTag signedInfo = Some reference ∧
    SelectElement DigestValueTag reference = Some digestValue ∧
    String.length (Text digestValue) = 4 * ((crypto.Size (Hash ctx) + 2) / 3) ∧
    ((Hash ctx = crypto.SHA1 ∧ String.length (Text digestValue) = 28) ∨
     (Hash ctx = crypto.SHA256 ∧ String.length (Text digestValue) = 44) ∨
     (Hash ctx = crypto.SHA512 ∧ String.length (Text digestValue) = 88)).
Proof.
  intros He Hsize Hrun.
  destruct (constructSignedInfo_tree hashSum ctx el enveloped h h' e si He Hrun)
    as (dig & sm & canonical & Hdig & Hsm & Hcanon & Hid & -> & -> & Htree).
  eexists _, _, _.
  split; [exact Htree |]. split; [reflexivity |]. split; [reflexivity |].
  assert (HText : Text (Node (Prefix ctx) DigestValueTag []
                          (textTokens (base64.EncodeToString (hashSum (Hash ctx) canonical))))
                  = base64.EncodeToString (hashSum (Hash ctx) canonical))
    by apply text_textTokens.
  assert (Hlen : String.length (base64.EncodeToString (hashSum (Hash ctx) canonical))
                 = 4 * ((crypto.Size (Hash ctx) + 2) / 3)).
  { by rewrite EncodeToString_length, Hsize. }
  rewrite HText, Hlen. split; [done |].
  apply digestAlgorithmIdentifiers_lookup in Hdig.
  destruct Hdig as [[-> _] | [[-> _] | [-> _]]]; [left | right; left | right; right];
    by split.
Qed.
End digest_value_length.

Lemma constructSignedInfo_DigestValue_length_witness :
  ∃ si h',
    constructSignedInfo Examples.constHash Examples.defaultContext Examples.response true
      Examples.document = Some (Ok si, h') ∧
    ∃ signedInfo reference digestValue,
      reify 4 h' si = Some signedInfo ∧
      SelectElement ReferenceTag signedInfo = Some reference ∧
      SelectElement DigestValueTag reference = Some digestValue ∧
      String.length (Text digestValue) = 44.
Proof.
  eexists _, _. split; [vm_compute; reflexivity |].
  destruct (constructSignedInfo_DigestValue_length Examples.constHash
              Examples.defaultContext Examples.response true Examples.document _
              (mkElement "" "Response" [mkAttr "" "ID" "x1"] [TCharData "hi"] (Some 0)) _
              eq_refl (fun data => repeat_length _ _) ltac:(vm_compute; reflexivity))
    as (signedInfo & reference & digestValue & H1 & H2 & H3 & H4 & _).
  exists signedInfo, reference, digestValue. repeat split; try assumption.
Defined.

(** ** Names with a prefix *)

Lemma substring_all (s : string) : String.substring 0 (String.length s) s = s.
Proof. induction s as [| c s IH]; [done |]. cbn. by rewrite IH. Qed.

Lemma prefix_empty (s : string) : String.prefix "" s = true.
Proof. by destruct s. Qed.

Lemma spaceDecompose_xmlns (prefix : string) :
  spaceDecompose ("xmlns" +:+ (":" +:+ prefix)) = ("xmlns", prefix).
Proof.
  unfold spaceDecompose. cbv [String.append]. cbn.
  rewrite prefix_empty. cbn.
  by rewrite Nat.sub_0_r, substring_all.
Qed.

Lemma createAttr_xmlns (prefix : string) :
  let xmlns := if decide (prefix ≠ "") then "xmlns" +:+ (":" +:+ prefix) else "xmlns" in
  createAttr (spaceDecompose xmlns).1 (spaceDecompose xmlns).2 Namespace []
  = [signatureDeclaration prefix].
Proof.
  cbv zeta. unfold signatureDeclaration.
  destruct (decide (prefix ≠ "")); [| reflexivity].
  by rewrite spaceDecompose_xmlns.
Qed.

(** ** Operations at a location of any store *)

Lemma CreateAttr_at (h : heap) (l : loc) (key value : string) (e : Element) :
  h !! l = Some e →
  CreateAttr l key value h
  = Some (Ok tt,
          <[l := set_Attrs (createAttr (spaceDecompose key).1 (spaceDecompose key).2
                              value (Attrs e)) e]> h).
Proof.
  intros He. unfold CreateAttr. destruct (spaceDecompose key) as [sp skey].
  by rewrite (modify_at h l _ e He).
Qed.

Lemma insert_last (h : heap) (x y : Element) : <[length h := x]> (h ++ [y]) = h ++ [x].
Proof. by rewrite insert_app_r_alt, Nat.sub_diag by lia. Qed.

(** [AddChild] of an element without parent to the element just
    allocated. *)
Lemma AddChild_fresh (h : heap) (t : loc) (te e : Element) :
  h !! t = Some te →
  parent te = None →
  AddChild (length h) t (h ++ [e])
  = Some (Ok tt,
          <[t := set_parent (Some (length h)) te]> h
          ++ [set_Child (Child e ++ [TElement t]) e]).
Proof.
  intros Hte Hroot. pose proof (lookup_lt_Some _ _ _ Hte) as Hlt.
  unfold AddChild.
  assert (Hload : load t (h ++ [e]) = Some (Ok te, h ++ [e])).
  { unfold load. by rewrite (lookup_app_l_Some _ _ _ _ Hte). }
  rewrite (bind_Ok _ _ _ _ _ Hload). rewrite Hroot.
  erewrite bind_Ok; [| reflexivity].
  erewrite bind_Ok; cycle 1.
  { apply modify_at. by apply lookup_app_l_Some. }
  unfold addChild. erewrite modify_at; cycle 1.
  { rewrite list_lookup_insert_ne by lia.
    rewrite lookup_app_r by lia. rewrite Nat.sub_diag. reflexivity. }
  do 2 f_equal.
  rewrite insert_app_l by done.
  rewrite insert_app_r_alt by (rewrite length_insert; lia).
  by rewrite length_insert, Nat.sub_diag.
Qed.

(** ** Reading a tree back does not look at parent pointers *)

Lemma reifyTokens_ext (f g : loc → option Tree) (ts : list (Token loc)) :
  (∀ c, f c = g c) → reifyTokens f ts = reifyTokens g ts.
Proof.
  intros Hfg. induction ts as [| t rest IH]; [done |].
  cbn [reifyTokens]. rewrite IH.
  by destruct t as [c | | | |]; cbn [reifyToken]; rewrite ?Hfg.
Qed.

Lemma reify_set_parent (d : nat) (h : heap) (i : loc) (p : option loc) (e : Element)
    (l : loc) :
  h !! i = Some e →
  reify d (<[i := set_parent p e]> h) l = reify d h l.
Proof.
  intros He. revert l. induction d as [| d IH]; intros l; [done |].
  cbn [reify]. destruct (decide (i = l)) as [<- | Hne].
  - rewrite list_lookup_insert_eq by (by eapply lookup_lt_Some). rewrite He. cbn.
    by rewrite (reifyTokens_ext _ _ _ IH).
  - rewrite list_lookup_insert_ne by done.
    destruct (h !! l) as [el |]; [| done]. cbn.
    by rewrite (reifyTokens_ext _ _ _ IH).
Qed.

Lemma reify_mono (d d' : nat) (h : heap) (l : loc) (t : Tree) :
  reify d h l = Some t → (d ≤ d')%nat → reify d' h l = Some t.
Proof.
  revert d' l t. induction d as [| d IH]; intros d' l t Ht Hle; [done |].
  destruct d' as [| d']; [lia |].
  cbn [reify] in *. destruct (h !! l) as [e |]; [| done]. cbn in *.
  destruct (reifyTokens (reify d h) (Child e)) as [ch |] eqn:Hch; [| done].
  rewrite (reifyTokens_impl (reify d h) (reify d' h) _ ch); [done | | done].
  intros c tc Hc. apply (IH d' c tc Hc). lia.
Qed.

Lemma reify_S (d : nat) (h : heap) (l : loc) :
  reify (S d) h l
  = (e ← h !! l; ch ← reifyTokens (reify d h) (Child e);
     Some (Node (Space e) (Tag e) (Attrs e) ch)).
Proof. reflexivity. Qed.

(** ** The second half of ConstructSignature, step by step

    The store is kept in the form [<[sig := s]> B ++ news]: the store [B]
    the SignedInfo was detached in, with the Signature at [sig] updated, and
    the elements allocated since. *)

Lemma canon_lookup_sig (B : heap) (sig : loc) (s : Element) (news : heap) :
  sig < length B → (<[sig := s]> B ++ news) !! sig = Some s.
Proof.
  intros Hsig. rewrite lookup_app_l by (by rewrite length_insert).
  by apply list_lookup_insert_eq.
Qed.

Lemma canon_lookup_new (B : heap) (sig : loc) (s : Element) (news : heap) (j : nat) :
  (<[sig := s]> B ++ news) !! (length B + j) = news !! j.
Proof.
  rewrite <- (length_insert B sig s). apply lookup_new.
Qed.

Lemma cne_sig (ctx : SigningContext) (B : heap) (sig : loc) (s : Element) (news : heap)
    (tg : string) :
  sig < length B →
  createNamespacedElement ctx sig tg (<[sig := s]> B ++ news)
  = Some (Ok (length B + length news),
          <[sig := set_Child (Child s ++ [TElement (length B + length news)]) s]> B
          ++ (news ++ [mkElement (Prefix ctx) (spaceDecompose tg).2 [] [] (Some sig)])).
Proof.
  intros Hsig.
  rewrite (createNamespacedElement_at ctx sig tg _ s (canon_lookup_sig B sig s news Hsig)).
  rewrite length_app, length_insert.
  rewrite insert_app_l by (by rewrite length_insert).
  by rewrite list_insert_insert_eq, <- app_assoc.
Qed.

Lemma cne_new (ctx : SigningContext) (B : heap) (sig : loc) (s : Element) (news : heap)
    (j : nat) (e : Element) (tg : string) :
  spaceDecompose tg = ("", tg) →
  news !! j = Some e →
  createNamespacedElement ctx (length B + j) tg (<[sig := s]> B ++ news)
  = Some (Ok (length B + length news),
          <[sig := s]> B
          ++ (<[j := set_Child (Child e ++ [TElement (length B + length news)]) e]> news
              ++ [mkElement (Prefix ctx) tg [] [] (Some (length B + j))])).
Proof.
  intros Htg Hj.
  pose proof (createNamespacedElement_new ctx (<[sig := s]> B) news j tg e Htg Hj) as H.
  by rewrite length_insert in H.
Qed.

Lemma SetText_canon (B : heap) (sig : loc) (s : Element) (news : heap) (j : nat)
    (e : Element) (text : string) :
  news !! j = Some e →
  SetText (length B + j) text (<[sig := s]> B ++ news)
  = Some (Ok tt, <[sig := s]> B ++ <[j := set_Child (setText text (Child e)) e]> news).
Proof.
  intros Hj. pose proof (SetText_new (<[sig := s]> B) news j text e Hj) as H.
  by rewrite length_insert in H.
Qed.

Lemma reify_keyInfoNodes (X : heap) (prefix : string) (sig : loc)
    (signatureText certificateText subject : string) :
  reify 4 (X ++ keyInfoNodes prefix sig (length X) signatureText certificateText subject)
    (length X + 0)
  = Some (Node prefix SignatureValueTag [] (textTokens signatureText)) ∧
  reify 4 (X ++ keyInfoNodes prefix sig (length X) signatureText certificateText subject)
    (length X + 1)
  = Some (keyInfoTree prefix certificateText subject).
Proof.
  unfold keyInfoNodes, keyInfoTree, textTokens, setText.
  destruct (decide (subject = "")); destruct (decide (signatureText = ""));
    destruct (decide (certificateText = ""));
    (split;
     repeat first [rewrite lookup_new
                  | progress cbn [reify reifyTokens reifyToken app lookup list_lookup
                                  mbind option_bind Child Space Tag Attrs Nat.add]];
     reflexivity).
Qed.

Section sign_detached.
Variable hashSum : crypto.Hash → octets → octets.
Variable SignPKCS1v15 : crypto.rsa_PrivateKey → crypto.Hash → octets → result octets.

Lemma signDetatched_eval (ctx : SigningContext) (sig d : loc) (B : heap) (s : Element)
    (canonical : octets) (key : crypto.rsa_PrivateKey) (cert : x509.Certificate)
    (raw : octets) :
  sig < length B →
  Canonicalize (Canonicalizer ctx) (<[sig := s]> B ++ []) d = Ok canonical →
  GetKeyPair (KeyStore ctx) = Ok (key, cert) →
  SignPKCS1v15 key (Hash ctx) (hashSum (Hash ctx) canonical) = Ok raw →
  signDetatched hashSum SignPKCS1v15 ctx sig d (<[sig := s]> B ++ [])
  = Some (Ok sig,
          <[sig := set_Child (Child s ++ [TElement (length B + 0); TElement (length B + 1)])
                     s]> B
          ++ keyInfoNodes (Prefix ctx) sig (length B) (base64.EncodeToString raw)
               (base64.EncodeToString (x509.Raw cert)) (x509.Subject cert)).
Proof.
  intros Hsig Hcanon Hks Hsign. unfold signDetatched.
  step ltac:(unfold digest, lift; erewrite bind_Ok; [| rewrite Hcanon; reflexivity];
             reflexivity).
  step ltac:(unfold lift; rewrite Hks; reflexivity).
  step ltac:(unfold lift; rewrite Hsign; reflexivity).
  step ltac:(apply cne_sig; exact Hsig).
  step ltac:(apply SetText_canon; reflexivity).
  step ltac:(apply cne_sig; exact Hsig).
  step ltac:(apply cne_new; [vm_compute; reflexivity | reflexivity]).
  step ltac:(apply cne_new; [vm_compute; reflexivity | reflexivity]).
  cbv zeta. unfold keyInfoNodes.
  destruct (decide (x509.Subject cert = "")) as [Hsub | Hsub].
  - step ltac:(reflexivity).
    step ltac:(apply SetText_canon; reflexivity).
    unfold mret, M_ret, ret. rewrite <- !app_assoc. reflexivity.
  - step ltac:(idtac; step ltac:(apply cne_new; [vm_compute; reflexivity | reflexivity]);
               apply SetText_canon; reflexivity).
    step ltac:(apply SetText_canon; reflexivity).
    unfold mret, M_ret, ret. rewrite <- !app_assoc. reflexivity.
Qed.
End sign_detached.

Section construct_signature_shape.
Variable hashSum : crypto.Hash → octets → octets.
Variable SignPKCS1v15 : crypto.rsa_PrivateKey → crypto.Hash → octets → result octets.

(** The second half of [ConstructSignature] fails only when the
    canonicalizer, the key store or the signer fails. *)
Lemma signDetatched_inv (ctx : SigningContext) (sig d : loc) (B h' : heap) (r : loc) :
  signDetatched hashSum SignPKCS1v15 ctx sig d B = Some (Ok r, h') →
  ∃ canonical key cert raw,
    Canonicalize (Canonicalizer ctx) B d = Ok canonical ∧
    GetKeyPair (KeyStore ctx) = Ok (key, cert) ∧
    SignPKCS1v15 key (Hash ctx) (hashSum (Hash ctx) canonical) = Ok raw.
Proof.
  unfold signDetatched. intros Hrun.
  destruct (Canonicalize (Canonicalizer ctx) B d) as [canonical | err] eqn:Hcanon; cycle 1.
  { erewrite bind_Err in Hrun; [done |].
    unfold digest, lift. erewrite bind_Err; [reflexivity |]. by rewrite Hcanon. }
  erewrite bind_Ok in Hrun; cycle 1.
  { unfold digest, lift. erewrite bind_Ok; [| rewrite Hcanon; reflexivity]. reflexivity. }
  destruct (GetKeyPair (KeyStore ctx)) as [[key cert] | err] eqn:Hks; cycle 1.
  { erewrite bind_Err in Hrun; [done |]. unfold lift. by rewrite ?Hks. }
  erewrite bind_Ok in Hrun; [| unfold lift; rewrite ?Hks; reflexivity].
  cbv beta iota in Hrun.
  destruct (SignPKCS1v15 key (Hash ctx) (hashSum (Hash ctx) canonical))
    as [raw | err] eqn:Hsign; cycle 1.
  { erewrite bind_Err in Hrun; [done |]. unfold lift. by rewrite ?Hsign. }
  by exists canonical, key, cert, raw.
Qed.

Lemma signDetatched_at (ctx : SigningContext) (sig d : loc) (B : heap) (s : Element)
    (canonical : octets) (key : crypto.rsa_PrivateKey) (cert : x509.Certificate)
    (raw : octets) :
  B !! sig = Some s →
  Canonicalize (Canonicalizer ctx) B d = Ok canonical →
  GetKeyPair (KeyStore ctx) = Ok (key, cert) →
  SignPKCS1v15 key (Hash ctx) (hashSum (Hash ctx) canonical) = Ok raw →
  signDetatched hashSum SignPKCS1v15 ctx sig d B
  = Some (Ok sig,
          <[sig := set_Child (Child s ++ [TElement (length B + 0); TElement (length B + 1)])
                     s]> B
          ++ keyInfoNodes (Prefix ctx) sig (length B) (base64.EncodeToString raw)
               (base64.EncodeToString (x509.Raw cert)) (x509.Subject cert)).
Proof.
  intros Hs Hcanon Hks Hsign.
  pose proof (signDetatched_eval hashSum SignPKCS1v15 ctx sig d B s canonical key cert raw)
    as Heval.
  rewrite app_nil_r, (list_insert_id B sig s Hs) in Heval.
  apply Heval; try done. by eapply lookup_lt_Some.
Qed.

(** The steps of [ConstructSignature] between [AddChild] and the digest
    of the detached SignedInfo write to new elements only, and hand the
    Signature on. *)
Lemma keeps_detach_tail_sig (h : heap) (el sig signedInfo : loc) :
  keeps h
    (rootNSCtx ← etreeutils.NSBuildParentContext el;
     elNSCtx ← etreeutils.SubContext rootNSCtx el;
     sigNSCtx ← etreeutils.SubContext elNSCtx sig;
     detatchedSignedInfo ← etreeutils.NSDetatch sigNSCtx signedInfo;
     RemoveAttr detatchedSignedInfo "xmlns:xsi" ;;
     mret (sig, detatchedSignedInfo))
    (fun r => r.1 = sig ∧ (length h ≤ r.2)%nat).
Proof.
  eapply keeps_bind; [apply keeps_NSBuildParentContext |]. intros rootNSCtx _.
  eapply keeps_bind; [apply keeps_SubContext |]. intros elNSCtx _.
  eapply keeps_bind; [apply keeps_SubContext |]. intros sigNSCtx _.
  eapply keeps_bind; [apply keeps_NSDetatch |]. intros d Hd.
  eapply keeps_bind; [by apply keeps_RemoveAttr |]. intros _ _.
  by apply keeps_ret.
Qed.

(** The first half of [ConstructSignature] after a successful
    [constructSignedInfo]: the Signature is the next element of the store,
    the SignedInfo becomes its child, and whatever follows is new. *)
Lemma detatchSignedInfo_shape (ctx : SigningContext) (el : loc) (enveloped : bool)
    (h h0 h1 : heap) (si : loc) (te : Element) (r : result (loc * loc)) :
  constructSignedInfo hashSum ctx el enveloped h = Some (Ok si, h0) →
  h0 !! si = Some te →
  parent te = None →
  detatchSignedInfo hashSum ctx el enveloped h = Some (r, h1) →
  ∃ k,
    h1 = (<[si := set_parent (Some (length h0)) te]> h0
          ++ [mkElement (Prefix ctx) SignatureTag [signatureDeclaration (Prefix ctx)]
                [TElement si] None]) ++ k ∧
    ∀ sig d, r = Ok (sig, d) → sig = length h0 ∧ (length h0 + 1 ≤ d)%nat.
Proof.
  intros Hsi Hte Hroot Hrun. unfold detatchSignedInfo in Hrun.
  rewrite (bind_Ok _ _ _ _ _ Hsi) in Hrun.
  erewrite bind_Ok in Hrun; [| reflexivity].
  cbv zeta in Hrun.
  erewrite bind_Ok in Hrun; cycle 1.
  { apply CreateAttr_at. by rewrite lookup_app_r, Nat.sub_diag by lia. }
  rewrite insert_last in Hrun. unfold set_Attrs in Hrun.
  cbn [Space Tag Attrs Child parent] in Hrun.
  rewrite (createAttr_xmlns (Prefix ctx)) in Hrun.
  erewrite bind_Ok in Hrun; [| by apply AddChild_fresh].
  unfold set_Child in Hrun. cbn [Space Tag Attrs Child parent app] in Hrun.
  match type of Hrun with
  | _ ?H1 = _ =>
      destruct (keeps_detach_tail_sig H1 el (length h0) si _ _ _ (ex_intro _ [] (eq_sym (app_nil_r _))) Hrun)
        as [[k ->] Hr]
  end.
  exists k. split; [done |].
  intros sig d ->. destruct (Hr _ eq_refl) as [Hs Hd]. cbn in Hs, Hd.
  split; [done |]. rewrite length_app, length_insert in Hd. cbn in Hd. lia.
Qed.
End construct_signature_shape.

Section construct_signature_eval.
Variable hashSum : crypto.Hash → octets → octets.
Variable SignPKCS1v15 : crypto.rsa_PrivateKey → crypto.Hash → octets → result octets.

(** The store a successful [ConstructSignature] leaves. *)
Lemma ConstructSignature_eval (ctx : SigningContext) (el : loc) (enveloped : bool)
    (h h' : heap) (e : Element) (sig : loc) :
  h !! el = Some e →
  ConstructSignature hashSum SignPKCS1v15 ctx el enveloped h = Some (Ok sig, h') →
  ∃ si h0 te d B canonical key cert raw,
    constructSignedInfo hashSum ctx el enveloped h = Some (Ok si, h0) ∧
    (∃ k0, h0 = h ++ k0) ∧ (length h ≤ si)%nat ∧
    h0 !! si = Some te ∧ parent te = None ∧
    detatchSignedInfo hashSum ctx el enveloped h = Some (Ok (sig, d), B) ∧
    sig = length h0 ∧
    (∃ k, B = (<[si := set_parent (Some sig) te]> h0
               ++ [mkElement (Prefix ctx) SignatureTag
                     [signatureDeclaration (Prefix ctx)] [TElement si] None]) ++ k) ∧
    Canonicalize (Canonicalizer ctx) B d = Ok canonical ∧
    GetKeyPair (KeyStore ctx) = Ok (key, cert) ∧
    SignPKCS1v15 key (Hash ctx) (hashSum (Hash ctx) canonical) = Ok raw ∧
    h' = <[sig := signatureNode (Prefix ctx) si (length B)]> B
         ++ keyInfoNodes (Prefix ctx) sig (length B) (base64.EncodeToString raw)
              (base64.EncodeToString (x509.Raw cert)) (x509.Subject cert).
Proof.
  intros He Hrun. unfold ConstructSignature in Hrun.
  destruct (detatchSignedInfo hashSum ctx el enveloped h) as [[[[sig0 d] | err] B] |]
    eqn:Hdet;
    [| by rewrite (bind_Err _ _ _ _ _ Hdet) in Hrun
     | by rewrite (bind_None _ _ _ Hdet) in Hrun].
  rewrite (bind_Ok _ _ _ _ _ Hdet) in Hrun. cbv beta iota in Hrun.
  destruct (constructSignedInfo hashSum ctx el enveloped h) as [[[si | err] h0] |] eqn:Hsi;
    [| unfold detatchSignedInfo in Hdet; by rewrite (bind_Err _ _ _ _ _ Hsi) in Hdet
     | unfold detatchSignedInfo in Hdet; by rewrite (bind_None _ _ _ Hsi) in Hdet].
  destruct (constructSignedInfo_tree hashSum ctx el enveloped h h0 e si He Hsi)
    as (dig & sm & canonical0 & _ & _ & _ & _ & Hsiloc & Hh0 & _).
  assert (Hte : ∃ te, h0 !! si = Some te ∧ parent te = None).
  { rewrite Hh0, Hsiloc, lookup_new0. unfold signedInfoNodes. by eexists. }
  destruct Hte as (te & Hte & Hroot).
  destruct (detatchSignedInfo_shape hashSum ctx el enveloped h h0 B si te _ Hsi Hte Hroot Hdet)
    as (k & HB & Hr).
  destruct (Hr sig0 d eq_refl) as [-> Hd].
  assert (Hsig : B !! length h0
                 = Some (mkElement (Prefix ctx) SignatureTag
                           [signatureDeclaration (Prefix ctx)] [TElement si] None)).
  { rewrite HB. rewrite <- app_assoc. rewrite lookup_app_r by (by rewrite length_insert).
    by rewrite length_insert, Nat.sub_diag. }
  destruct (signDetatched_inv hashSum SignPKCS1v15 ctx _ _ _ _ _ Hrun)
    as (canonical & key & cert & raw & Hcanon & Hks & Hsign).
  rewrite (signDetatched_at hashSum SignPKCS1v15 ctx _ _ _ _ _ _ _ _ Hsig Hcanon Hks Hsign)
    in Hrun.
  injection Hrun as <- <-.
  exists si, h0, te, d, B, canonical, key, cert, raw.
  split; [done |]. split; [by eexists |]. split; [lia |].
  split; [done |]. split; [done |]. split; [done |]. split; [done |].
  split; [by exists k |]. done.
Qed.

Lemma ConstructSignature_reify (ctx : SigningContext) (h0 B : heap) (si : loc)
    (te : Element) (k : heap) (sit : Tree) (signatureText certificateText subject : string) :
  h0 !! si = Some te →
  reify 4 h0 si = Some sit →
  B = (<[si := set_parent (Some (length h0)) te]> h0
       ++ [mkElement (Prefix ctx) SignatureTag
             [signatureDeclaration (Prefix ctx)] [TElement si] None]) ++ k →
  reify 5 (<[length h0 := signatureNode (Prefix ctx) si (length B)]> B
           ++ keyInfoNodes (Prefix ctx) (length h0) (length B) signatureText
                certificateText subject) (length h0)
  = Some (signatureTree (Prefix ctx) sit signatureText certificateText subject).
Proof.
  intros Hte Hsit HB.
  assert (Hlt : length h0 < length B).
  { rewrite HB, !length_app, length_insert. cbn. lia. }
  set (X := <[length h0 := signatureNode (Prefix ctx) si (length B)]> B).
  assert (HX : length X = length B) by apply length_insert.
  rewrite <- HX.
  destruct (reify_keyInfoNodes X (Prefix ctx) (length h0) signatureText certificateText
              subject) as [Hsv Hki].
  set (final := X ++ keyInfoNodes (Prefix ctx) (length h0) (length X) signatureText
                       certificateText subject) in *.
  assert (Hsig : final !! length h0 = Some (signatureNode (Prefix ctx) si (length B))).
  { unfold final. rewrite lookup_app_l by lia. by apply list_lookup_insert_eq. }
  assert (Hsi : reify 4 final si = Some sit).
  { apply (reify_agree 4 (<[si := set_parent (Some (length h0)) te]> h0)).
    - intros i [_ Hi]. rewrite length_insert in Hi.
      unfold final, X. rewrite lookup_app_l by (rewrite length_insert; lia).
      rewrite list_lookup_insert_ne by lia.
      rewrite HB, <- app_assoc. by rewrite lookup_app_l by (by rewrite length_insert).
    - by rewrite (reify_set_parent 4 h0 si _ te si Hte). }
  rewrite (reify_S 4). rewrite Hsig. unfold signatureNode at 1.
  cbn [mbind option_bind Child Space Tag Attrs reifyTokens reifyToken].
  rewrite <- HX, Hsi, Hsv, Hki. reflexivity.
Qed.
End construct_signature_eval.

(** ** The Signature element *)

Section signature_tree.
Variable hashSum : crypto.Hash → octets → octets.
Variable SignPKCS1v15 : crypto.rsa_PrivateKey → crypto.Hash → octets → result octets.

(** X9. The Signature a successful [ConstructSignature] returns carries
    the declaration of the namespace of signatures for the prefix of the
    context, and has three children: the SignedInfo that
    [constructSignedInfo] built; a SignatureValue whose text is the base64
    encoding of the signature, by the key of the key store, of the hash of
    the canonical octets of the detached SignedInfo; and a KeyInfo with one
    X509Data that holds the X509Certificate, the base64 encoding of the raw
    certificate, followed by the X509SubjectName when the subject is not
    empty. *)
Theorem ConstructSignature_Signature_tree (ctx : SigningContext) (el : loc)
    (enveloped : bool) (h h' : heap) (e : Element) (sig : loc) :
  h !! el = Some e →
  ConstructSignature hashSum SignPKCS1v15 ctx el enveloped h = Some (Ok sig, h') →
  ∃ si h0 signedInfo d h1 canonical key cert rawSignature,
    constructSignedInfo hashSum ctx el enveloped h = Some (Ok si, h0) ∧
    reify 4 h0 si = Some signedInfo ∧
    detatchSignedInfo hashSum ctx el enveloped h = Some (Ok (sig, d), h1) ∧
    Canonicalize (Canonicalizer ctx) h1 d = Ok canonical ∧
    GetKeyPair (KeyStore ctx) = Ok (key, cert) ∧
    SignPKCS1v15 key (Hash ctx) (hashSum (Hash ctx) canonical) = Ok rawSignature ∧
    reify 5 h' sig
    = Some (signatureTree (Prefix ctx) signedInfo (base64.EncodeToString rawSignature)
              (base64.EncodeToString (x509.Raw cert)) (x509.Subject cert)).
Proof.
  intros He Hrun.
  destruct (ConstructSignature_eval hashSum SignPKCS1v15 ctx el enveloped h h' e sig He Hrun)
    as (si & h0 & te & d & B & canonical & key & cert & raw & Hsi & _ & _ & Hte & Hroot
        & Hdet & -> & [k HB] & Hcanon & Hks & Hsign & ->).
  destruct (constructSignedInfo_tree hashSum ctx el enveloped h h0 e si He Hsi)
    as (dig & sm & canonical0 & _ & _ & _ & _ & _ & _ & Htree).
  eexists si, h0, _, d, B, canonical, key, cert, raw.
  split; [done |]. split; [exact Htree |]. split; [done |]. split; [done |].
  split; [done |]. split; [done |].
  by apply (ConstructSignature_reify ctx h0 B si te k).
Qed.

(** X10. Once the SignedInfo is detached, [ConstructSignature] returns
    as they are the error of the canonicalizer on the detached SignedInfo,
    else the error of the key store, else the error of the signer, and in
    each case leaves the store as the detachment left it: no SignatureValue
    and no KeyInfo has been created. *)
Theorem ConstructSignature_second_half_errors (ctx : SigningContext) (el : loc)
    (enveloped : bool) (h h1 : heap) (sig d : loc) :
  detatchSignedInfo hashSum ctx el enveloped h = Some (Ok (sig, d), h1) →
  (∀ err, Canonicalize (Canonicalizer ctx) h1 d = Err err →
     ConstructSignature hashSum SignPKCS1v15 ctx el enveloped h = Some (Err err, h1)) ∧
  (∀ canonical err,
     Canonicalize (Canonicalizer ctx) h1 d = Ok canonical →
     GetKeyPair (KeyStore ctx) = Err err →
     ConstructSignature hashSum SignPKCS1v15 ctx el enveloped h = Some (Err err, h1)) ∧
  (∀ canonical key cert err,
     Canonicalize (Canonicalizer ctx) h1 d = Ok canonical →
     GetKeyPair (KeyStore ctx) = Ok (key, cert) →
     SignPKCS1v15 key (Hash ctx) (hashSum (Hash ctx) canonical) = Err err →
     ConstructSignature hashSum SignPKCS1v15 ctx el enveloped h = Some (Err err, h1)).
Proof.
  intros Hdet. unfold ConstructSignature. rewrite (bind_Ok _ _ _ _ _ Hdet).
  cbv beta iota. unfold signDetatched. repeat split.
  - intros err Hcanon. erewrite bind_Err; [reflexivity |].
    unfold digest, lift. erewrite bind_Err; [reflexivity |]. by rewrite Hcanon.
  - intros canonical err Hcanon Hks.
    erewrite bind_Ok; cycle 1.
    { unfold digest, lift. erewrite bind_Ok; [| rewrite Hcanon; reflexivity]. reflexivity. }
    erewrite bind_Err; [reflexivity |]. unfold lift. by rewrite Hks.
  - intros canonical key cert err Hcanon Hks Hsign.
    erewrite bind_Ok; cycle 1.
    { unfold digest, lift. erewrite bind_Ok; [| rewrite Hcanon; reflexivity]. reflexivity. }
    erewrite bind_Ok; [| unfold lift; rewrite Hks; reflexivity]. cbv beta iota.
    erewrite bind_Err; [reflexivity |]. unfold lift. by rewrite Hsign.
Qed.
End signature_tree.

Lemma ConstructSignature_Signature_tree_witness :
  ∃ sig h',
    ConstructSignature Examples.constHash Examples.identitySign Examples.defaultContext
      Examples.response true Examples.document = Some (Ok sig, h') ∧
    ∃ si h0 signedInfo d h1 canonical key cert rawSignature,
      constructSignedInfo Examples.constHash Examples.defaultContext Examples.response true
        Examples.document = Some (Ok si, h0) ∧
      reify 4 h0 si = Some signedInfo ∧
      detatchSignedInfo Examples.constHash Examples.defaultContext Examples.response true
        Examples.document = Some (Ok (sig, d), h1) ∧
      Canonicalize (Canonicalizer Examples.defaultContext) h1 d = Ok canonical ∧
      GetKeyPair (KeyStore Examples.defaultContext) = Ok (key, cert) ∧
      Examples.identitySign key crypto.SHA256 (Examples.constHash crypto.SHA256 canonical)
        = Ok rawSignature ∧
      reify 5 h' sig
      = Some (signatureTree "ds" signedInfo (base64.EncodeToString rawSignature)
                (base64.EncodeToString (x509.Raw cert)) (x509.Subject cert)).
Proof.
  eexists _, _. split; [vm_compute; reflexivity |].
  eapply (ConstructSignature_Signature_tree Examples.constHash Examples.identitySign
            Examples.defaultContext Examples.response true Examples.document).
  - reflexivity.
  - vm_compute. reflexivity.
Defined.

Lemma ConstructSignature_second_half_errors_witness :
  ∃ h1,
    ConstructSignature Examples.constHash Examples.identitySign
      (NewDefaultSigningContext Examples.tagOctets Examples.emptyStore)
      Examples.response true Examples.document = Some (Err "no key", h1).
Proof.
  edestruct (ConstructSignature_second_half_errors Examples.constHash Examples.identitySign
               (NewDefaultSigningContext Examples.tagOctets Examples.emptyStore)
               Examples.response true Examples.document) as (_ & Hks & _).
  { vm_compute. reflexivity. }
  eexists. eapply Hks; [vm_compute; reflexivity | reflexivity].
Defined.

(** ** The layout and the prefix of what is built *)

Lemma declaredNamespace_signatureDeclaration (prefix : string) :
  declaredNamespace prefix [signatureDeclaration prefix] = Some Namespace.
Proof.
  unfold declaredNamespace, signatureDeclaration, isDeclarationOf.
  destruct (decide (prefix ≠ "")) as [Hne | Heq]; cbn [List.find].
  - rewrite decide_False by done. cbn [aSpace aKey].
    by rewrite !bool_decide_eq_true_2.
  - rewrite decide_True by (by destruct (decide (prefix = "")); [| exfalso; auto]).
    reflexivity.
Qed.

Lemma underPrefix_signedInfoTree (prefix canonAlg sigAlg uri digAlg digestText : string)
    (enveloped : bool) :
  underPrefix prefix (signedInfoTree prefix canonAlg sigAlg uri digAlg digestText enveloped)
  = true.
Proof.
  unfold signedInfoTree, textTokens.
  destruct enveloped; destruct (decide (digestText = ""));
    cbn [underPrefix forallb app]; rewrite !bool_decide_eq_true_2 by done; reflexivity.
Qed.

Lemma underPrefix_signatureTree (prefix : string) (signedInfo : Tree)
    (signatureText certificateText subject : string) :
  underPrefix prefix signedInfo = true →
  underPrefix prefix (signatureTree prefix signedInfo signatureText certificateText subject)
  = true.
Proof.
  intros Hsi. unfold signatureTree, keyInfoTree, textTokens.
  destruct (decide (subject = "")); destruct (decide (signatureText = ""));
    destruct (decide (certificateText = ""));
    cbn [underPrefix forallb app]; rewrite Hsi, !bool_decide_eq_true_2 by done;
    reflexivity.
Qed.

Section layout.
Variable hashSum : crypto.Hash → octets → octets.
Variable SignPKCS1v15 : crypto.rsa_PrivateKey → crypto.Hash → octets → result octets.

(** X20. The SignedInfo built by [constructSignedInfo] has no attributes
    and three children, in this order: a CanonicalizationMethod with the
    algorithm of the canonicalizer, a SignatureMethod, and one Reference
    whose children are Transforms, DigestMethod and DigestValue.  The
    SignatureMethod and the DigestMethod name the same hash, the hash of the
    context, and every element has the prefix of the context. *)
Theorem constructSignedInfo_layout (ctx : SigningContext) (el : loc) (enveloped : bool)
    (h h' : heap) (e : Element) (si : loc) :
  h !! el = Some e →
  constructSignedInfo hashSum ctx el enveloped h = Some (Ok si, h') →
  ∃ signedInfo canonicalizationMethod signatureMethod reference digestMethod,
    reify 4 h' si = Some signedInfo ∧
    tag signedInfo = SignedInfoTag ∧
    attributes signedInfo = [] ∧
    children signedInfo
    = [TElement canonicalizationMethod; TElement signatureMethod; TElement reference] ∧
    tag canonicalizationMethod = CanonicalizationMethodTag ∧
    AttrValue AlgorithmAttr "" canonicalizationMethod = Algorithm (Canonicalizer ctx) ∧
    tag signatureMethod = SignatureMethodTag ∧
    signatureMethodsByIdentifier !! AttrValue AlgorithmAttr "" signatureMethod
    = Some (Hash ctx) ∧
    tag reference = ReferenceTag ∧
    List.map tag (ChildElements (children reference))
    = [TransformsTag; DigestMethodTag; DigestValueTag] ∧
    SelectElement DigestMethodTag reference = Some digestMethod ∧
    digestAlgorithmsByIdentifier !! AttrValue AlgorithmAttr "" digestMethod
    = Some (Hash ctx) ∧
    underPrefix (Prefix ctx) signedInfo = true.
Proof.
  intros He Hrun.
  destruct (constructSignedInfo_tree hashSum ctx el enveloped h h' e si He Hrun)
    as (dig & sm & canonical & Hdig & Hsm & Hcanon & Hid & -> & -> & Htree).
  eexists _, _, _, _, _.
  split; [exact Htree |].
  split; [reflexivity |]. split; [reflexivity |]. split; [reflexivity |].
  split; [reflexivity |]. split; [reflexivity |]. split; [reflexivity |].
  split; [exact (proj2 (signatureMethodsByIdentifier_inverse _ _) Hsm) |].
  split; [reflexivity |]. split; [reflexivity |]. split; [reflexivity |].
  split; [exact (proj2 (digestAlgorithmsByIdentifier_inverse _ _) Hdig) |].
  apply underPrefix_signedInfoTree.
Qed.

(** X21. The Signature a successful [ConstructSignature] returns has the
    children SignedInfo, SignatureValue and KeyInfo, in this order; every
    element of its tree has the prefix of the context, and its only
    attribute declares that prefix, or the default namespace when the prefix
    is empty, as the namespace of signatures: the Signature carries the
    declaration its own names need. *)
Theorem ConstructSignature_under_prefix (ctx : SigningContext) (el : loc)
    (enveloped : bool) (h h' : heap) (e : Element) (sig : loc) :
  h !! el = Some e →
  ConstructSignature hashSum SignPKCS1v15 ctx el enveloped h = Some (Ok sig, h') →
  ∃ tree,
    reify 5 h' sig = Some tree ∧
    tag tree = SignatureTag ∧
    underPrefix (Prefix ctx) tree = true ∧
    attributes tree = [signatureDeclaration (Prefix ctx)] ∧
    declaredNamespace (Prefix ctx) (attributes tree) = Some Namespace ∧
    List.map tag (ChildElements (children tree))
    = [SignedInfoTag; SignatureValueTag; KeyInfoTag].
Proof.
  intros He Hrun.
  destruct (ConstructSignature_eval hashSum SignPKCS1v15 ctx el enveloped h h' e sig He Hrun)
    as (si & h0 & te & d & B & canonical & key & cert & raw & Hsi & _ & _ & Hte & Hroot
        & Hdet & -> & [k HB] & Hcanon & Hks & Hsign & ->).
  destruct (constructSignedInfo_tree hashSum ctx el enveloped h h0 e si He Hsi)
    as (dig & sm & canonical0 & _ & _ & _ & _ & _ & _ & Htree).
  eexists. split.
  { by apply (ConstructSignature_reify ctx h0 B si te k). }
  split; [reflexivity |]. split.
  { apply underPrefix_signatureTree, underPrefix_signedInfoTree. }
  split; [reflexivity |]. split.
  { apply declaredNamespace_signatureDeclaration. }
  reflexivity.
Qed.
End layout.

Lemma constructSignedInfo_layout_witness :
  ∃ si h',
    constructSignedInfo Examples.constHash Examples.defaultContext Examples.response true
      Examples.document = Some (Ok si, h') ∧
    ∃ signedInfo canonicalizationMethod signatureMethod reference digestMethod,
      reify 4 h' si = Some signedInfo ∧
      tag signedInfo = SignedInfoTag ∧
      attributes signedInfo = [] ∧
      children signedInfo
      = [TElement canonicalizationMethod; TElement signatureMethod; TElement reference] ∧
      tag canonicalizationMethod = CanonicalizationMethodTag ∧
      AttrValue AlgorithmAttr "" canonicalizationMethod = CanonicalXML11AlgorithmID ∧
      tag signatureMethod = SignatureMethodTag ∧
      signatureMethodsByIdentifier !! AttrValue AlgorithmAttr "" signatureMethod
      = Some crypto.SHA256 ∧
      tag reference = ReferenceTag ∧
      List.map tag (ChildElements (children reference))
      = [TransformsTag; DigestMethodTag; DigestValueTag] ∧
      SelectElement DigestMethodTag reference = Some digestMethod ∧
      digestAlgorithmsByIdentifier !! AttrValue AlgorithmAttr "" digestMethod
      = Some crypto.SHA256 ∧
      underPrefix "ds" signedInfo = true.
Proof.
  eexists _, _. split; [vm_compute; reflexivity |].
  eapply (constructSignedInfo_layout Examples.constHash Examples.defaultContext
            Examples.response true Examples.document _
            (mkElement "" "Response" [mkAttr "" "ID" "x1"] [TCharData "hi"] (Some 0))).
  - reflexivity.
  - vm_compute. reflexivity.
Defined.

Lemma ConstructSignature_under_prefix_witness :
  ∃ sig h',
    ConstructSignature Examples.constHash Examples.identitySign Examples.defaultContext
      Examples.response true Examples.document = Some (Ok sig, h') ∧
    ∃ tree,
      reify 5 h' sig = Some tree ∧
      tag tree = SignatureTag ∧
      underPrefix "ds" tree = true ∧
      attributes tree = [mkAttr "xmlns" "ds" Namespace] ∧
      declaredNamespace "ds" (attributes tree) = Some Namespace ∧
      List.map tag (ChildElements (children tree))
      = [SignedInfoTag; SignatureValueTag; KeyInfoTag].
Proof.
  eexists _, _. split; [vm_compute; reflexivity |].
  eapply (ConstructSignature_under_prefix Examples.constHash Examples.identitySign
            Examples.defaultContext Examples.response true Examples.document _
            (mkElement "" "Response" [mkAttr "" "ID" "x1"] [TCharData "hi"] (Some 0))).
  - reflexivity.
  - vm_compute. reflexivity.
Defined.

(** ** Failures leave the document alone as well *)

Lemma keeps_SelectAttrValue (h : heap) (l : loc) (key dflt : string) :
  keeps h (SelectAttrValue l key dflt) (fun _ => True).
Proof.
  unfold SelectAttrValue. destruct (spaceDecompose key) as [sp skey].
  eapply keeps_bind; [apply keeps_load |]. intros e _. by apply keeps_ret.
Qed.

Section frame.
Variable hashSum : crypto.Hash → octets → octets.
Variable SignPKCS1v15 : crypto.rsa_PrivateKey → crypto.Hash → octets → result octets.

Lemma keeps_constructSignedInfo (h : heap) (ctx : SigningContext) (el : loc)
    (enveloped : bool) :
  keeps h (constructSignedInfo hashSum ctx el enveloped) (fun si => (length h ≤ si)%nat).
Proof.
  unfold constructSignedInfo.
  destruct (decide (GetDigestAlgorithmIdentifier ctx = "")); [apply keeps_throw |].
  destruct (decide (GetSignatureMethodIdentifier ctx = "")); [apply keeps_throw |].
  eapply keeps_bind; [apply keeps_digest |]. intros dg _.
  eapply keeps_bind; [apply keeps_alloc |]. intros si Hsi.
  eapply keeps_bind; [by apply keeps_createNamespacedElement |]. intros cm Hcm.
  eapply keeps_bind; [by apply keeps_CreateAttr |]. intros _ _.
  eapply keeps_bind; [by apply keeps_createNamespacedElement |]. intros sm Hsm.
  eapply keeps_bind; [by apply keeps_CreateAttr |]. intros _ _.
  eapply keeps_bind; [by apply keeps_createNamespacedElement |]. intros ref Href.
  eapply keeps_bind; [apply keeps_SelectAttrValue |]. intros dataID _.
  destruct (decide (dataID = "")); [apply keeps_throw |].
  eapply keeps_bind; [by apply keeps_CreateAttr |]. intros _ _.
  eapply keeps_bind; [by apply keeps_createNamespacedElement |]. intros tr Htr.
  eapply (keeps_bind h _ _ (fun _ => True)).
  { destruct enveloped; [| by apply keeps_ret].
    eapply keeps_bind; [by apply keeps_createNamespacedElement |]. intros et Het.
    by apply keeps_CreateAttr. }
  intros _ _.
  eapply keeps_bind; [by apply keeps_createNamespacedElement |]. intros ca Hca.
  eapply keeps_bind; [by apply keeps_CreateAttr |]. intros _ _.
  eapply keeps_bind; [by apply keeps_createNamespacedElement |]. intros dm Hdm.
  eapply keeps_bind; [by apply keeps_CreateAttr |]. intros _ _.
  eapply keeps_bind; [by apply keeps_createNamespacedElement |]. intros dv Hdv.
  eapply keeps_bind; [by apply keeps_SetText |]. intros _ _.
  by apply keeps_ret.
Qed.

Lemma detatchSignedInfo_frame (ctx : SigningContext) (el : loc) (enveloped : bool)
    (h h1 : heap) (e : Element) (r : result (loc * loc)) :
  h !! el = Some e →
  detatchSignedInfo hashSum ctx el enveloped h = Some (r, h1) →
  (∃ k, h1 = h ++ k) ∧ ∀ sig d, r = Ok (sig, d) → (length h ≤ sig)%nat.
Proof.
  intros He Hrun.
  destruct (constructSignedInfo hashSum ctx el enveloped h) as [[[si | err] h0] |] eqn:Hsi;
    cycle 2.
  { unfold detatchSignedInfo in Hrun. by rewrite (bind_None _ _ _ Hsi) in Hrun. }
  - destruct (constructSignedInfo_tree hashSum ctx el enveloped h h0 e si He Hsi)
      as (dig & sm & canonical0 & _ & _ & _ & _ & Hsiloc & Hh0 & _).
    assert (Hte : ∃ te, h0 !! si = Some te ∧ parent te = None).
    { rewrite Hh0, Hsiloc, lookup_new0. unfold signedInfoNodes. by eexists. }
    destruct Hte as (te & Hte & Hroot).
    destruct (detatchSignedInfo_shape hashSum ctx el enveloped h h0 h1 si te r
                Hsi Hte Hroot Hrun) as (k & -> & Hr).
    split.
    + subst h0 si.
      rewrite insert_app_r_alt, Nat.sub_diag by lia.
      rewrite <- !app_assoc. by eexists.
    + intros sig d ->. destruct (Hr sig d eq_refl) as [-> _].
      rewrite Hh0, length_app. lia.
  - unfold detatchSignedInfo in Hrun. rewrite (bind_Err _ _ _ _ _ Hsi) in Hrun.
    injection Hrun as <- <-.
    destruct (keeps_constructSignedInfo h ctx el enveloped h _ _
                (ex_intro _ [] (eq_sym (app_nil_r h))) Hsi) as [Hk _].
    split; [exact Hk | done].
Qed.

Lemma ConstructSignature_frame (ctx : SigningContext) (el : loc) (enveloped : bool)
    (h h' : heap) (e : Element) (r : result loc) :
  h !! el = Some e →
  ConstructSignature hashSum SignPKCS1v15 ctx el enveloped h = Some (r, h') →
  (∃ k, h' = h ++ k) ∧ ∀ sig, r = Ok sig → (length h ≤ sig)%nat.
Proof.
  intros He Hrun. unfold ConstructSignature in Hrun.
  destruct (detatchSignedInfo hashSum ctx el enveloped h) as [[[[sig0 d] | err] h1] |]
    eqn:Hdet; cycle 2.
  { by rewrite (bind_None _ _ _ Hdet) in Hrun. }
  - rewrite (bind_Ok _ _ _ _ _ Hdet) in Hrun. cbv beta iota in Hrun.
    destruct (detatchSignedInfo_frame ctx el enveloped h h1 e _ He Hdet) as [Hk Hsig].
    destruct (keeps_signDetatched hashSum SignPKCS1v15 h ctx sig0 d (Hsig _ _ eq_refl)
                _ _ _ Hk Hrun) as [Hk' Hs].
    split; [exact Hk' |]. intros sig ->. rewrite (Hs sig eq_refl).
    exact (Hsig _ _ eq_refl).
  - rewrite (bind_Err _ _ _ _ _ Hdet) in Hrun. injection Hrun as <- <-.
    destruct (detatchSignedInfo_frame ctx el enveloped h h1 e _ He Hdet) as [Hk _].
    split; [exact Hk | done].
Qed.

Lemma SignEnveloped_frame (ctx : SigningContext) (el : loc) (h h' : heap) (e : Element)
    (r : result loc) :
  h !! el = Some e →
  SignEnveloped hashSum SignPKCS1v15 ctx el h = Some (r, h') →
  ∃ k, h' = h ++ k.
Proof.
  intros He Hrun. unfold SignEnveloped in Hrun.
  destruct (ConstructSignature hashSum SignPKCS1v15 ctx el true h) as [[[sig | err] h1] |]
    eqn:Hsig; cycle 2.
  { by rewrite (bind_None _ _ _ Hsig) in Hrun. }
  - rewrite (bind_Ok _ _ _ _ _ Hsig) in Hrun.
    destruct (ConstructSignature_frame ctx el true h h1 e _ He Hsig) as [Hk _].
    assert (Hkeeps : keeps h (ret ← Copy el;
                              modify ret (fun e => set_Child (Child e ++ [TElement sig]) e) ;;
                              mret ret) (fun _ => True)).
    { eapply keeps_bind; [apply keeps_Copy |]. intros c Hc.
      eapply keeps_bind; [by apply keeps_modify |]. intros _ _. by apply keeps_ret. }
    by destruct (Hkeeps _ _ _ Hk Hrun) as [Hk' _].
  - rewrite (bind_Err _ _ _ _ _ Hsig) in Hrun. injection Hrun as <- <-.
    by destruct (ConstructSignature_frame ctx el true h h1 e _ He Hsig) as [Hk _].
Qed.

(** X11. [ConstructSignature] and [SignEnveloped] never write to the
    store they are given, whether they succeed or fail: the store they leave
    extends it, so every element of the document, and the tree below the
    element that is signed, are as before. *)
Theorem signing_never_writes_the_document (ctx : SigningContext) (el : loc)
    (enveloped : bool) (h h' : heap) (e : Element) (r : result loc) :
  h !! el = Some e →
  ConstructSignature hashSum SignPKCS1v15 ctx el enveloped h = Some (r, h') ∨
  SignEnveloped hashSum SignPKCS1v15 ctx el h = Some (r, h') →
  (∃ ext, h' = h ++ ext) ∧
  (∀ l x, h !! l = Some x → h' !! l = Some x) ∧
  (∀ d t, reify d h el = Some t → reify d h' el = Some t).
Proof.
  intros He Hrun.
  assert (Hext : ∃ ext, h' = h ++ ext).
  { destruct Hrun as [Hrun | Hrun].
    - by destruct (ConstructSignature_frame ctx el enveloped h h' e r He Hrun).
    - exact (SignEnveloped_frame ctx el h h' e r He Hrun). }
  destruct Hext as [ext ->]. split; [by exists ext |]. split.
  - intros l x. apply lookup_app_l_Some.
  - intros d t. apply reify_app.
Qed.
End frame.

Lemma signing_never_writes_the_document_witness :
  ∃ err h',
    ConstructSignature Examples.constHash Examples.identitySign Examples.defaultContext 0
      false Examples.document = Some (Err err, h') ∧
    (∃ ext, h' = Examples.document ++ ext) ∧
    (∀ l x, Examples.document !! l = Some x → h' !! l = Some x) ∧
    (∀ d t, reify d Examples.document 0 = Some t → reify d h' 0 = Some t).
Proof.
  eexists _, _. split; [vm_compute; reflexivity |].
  eapply (signing_never_writes_the_document Examples.constHash Examples.identitySign
            Examples.defaultContext 0 false Examples.document).
  - reflexivity.
  - left. vm_compute. reflexivity.
Defined.

(** ** The tree SignEnveloped returns *)

Section sign_enveloped_tree.
Variable hashSum : crypto.Hash → octets → octets.
Variable SignPKCS1v15 : crypto.rsa_PrivateKey → crypto.Hash → octets → result octets.

(** The tree [SignEnveloped] returns: the tree of the element with the
    Signature as one more child. *)
Lemma SignEnveloped_reify (ctx : SigningContext) (el : loc) (h h' : heap) (e : Element)
    (ret : loc) :
  h !! el = Some e →
  SignEnveloped hashSum SignPKCS1v15 ctx el h = Some (Ok ret, h') →
  ∃ sig h1,
    ConstructSignature hashSum SignPKCS1v15 ctx el true h = Some (Ok sig, h1) ∧
    ∀ d t st,
      reify (S d) h el = Some t →
      reify d h1 sig = Some st →
      reify (S d) h' ret
      = Some (Node (space t) (tag t) (attributes t) (children t ++ [TElement st])).
Proof.
  intros He Hrun. unfold SignEnveloped in Hrun.
  destruct (ConstructSignature hashSum SignPKCS1v15 ctx el true h)
    as [[[sig | err] h1] |] eqn:Hsig;
    [| by rewrite (bind_Err _ _ _ _ _ Hsig) in Hrun
     | by rewrite (bind_None _ _ _ Hsig) in Hrun].
  rewrite (bind_Ok _ _ _ _ _ Hsig) in Hrun.
  destruct (ConstructSignature_extends hashSum SignPKCS1v15 ctx el true h h1 e sig He Hsig)
    as [[k1 ->] Hsig_new].
  destruct (Copy el (h ++ k1)) as [[[c | err] h2] |] eqn:Hcopy;
    [| by rewrite (bind_Err _ _ _ _ _ Hcopy) in Hrun
     | by rewrite (bind_None _ _ _ Hcopy) in Hrun].
  rewrite (bind_Ok _ _ _ _ _ Hcopy) in Hrun.
  unfold Copy in Hcopy.
  destruct (dup_spec _ _ _ _ _ _ Hcopy) as (e1 & He1 & Hc & Hcopied).
  rewrite (lookup_app_l_Some _ _ _ _ He) in He1. injection He1 as <-.
  injection Hc as ->.
  pose proof Hcopied as (ch & ext2 & -> & Hroot & Hch).
  assert (Hret : ((h ++ k1) ++ ext2) !! length (h ++ k1)
                 = Some (mkElement (Space e) (Tag e) (Attrs e) ch None)).
  { by rewrite lookup_app_r, Nat.sub_diag by lia. }
  rewrite (bind_Ok _ _ _ _ _ (modify_at _ _ _ _ Hret)) in Hrun.
  injection Hrun as <- <-.
  unfold set_Child. cbn [Child Space Tag Attrs parent].
  exists sig, (h ++ k1). split; [done |].
  intros d t st Ht Hst.
  set (hfinal := <[length (h ++ k1) := mkElement (Space e) (Tag e) (Attrs e)
                                         (ch ++ [TElement sig]) None]>
                   ((h ++ k1) ++ ext2)).
  assert (Hnew : hfinal !! length (h ++ k1)
                 = Some (mkElement (Space e) (Tag e) (Attrs e) (ch ++ [TElement sig]) None)).
  { apply list_lookup_insert_eq. by eapply lookup_lt_Some. }
  assert (Hfinal_old : agree_on 0 (length (h ++ k1)) hfinal (h ++ k1)).
  { intros i [_ Hi]. unfold hfinal. rewrite list_lookup_insert_ne by lia.
    by rewrite lookup_app_l. }
  assert (Hfinal_new : agree_on (length (h ++ k1) + 1) (length ((h ++ k1) ++ ext2))
                         hfinal ((h ++ k1) ++ ext2)).
  { intros i Hi. unfold hfinal. apply list_lookup_insert_ne. lia. }
  cbn [reify] in Ht |- *. rewrite He in Ht. cbn in Ht.
  destruct (reifyTokens (reify d h) (Child e)) as [tch |] eqn:Htch; [| done].
  injection Ht as <-. cbn [space tag attributes children].
  rewrite Hnew. cbn.
  rewrite (reifyTokens_snoc (reify d hfinal) ch sig tch st); [done | |].
  - apply (Hch d tch hfinal); [| exact Hfinal_new].
    apply (reifyTokens_impl (reify d h)); [| exact Htch].
    intros c t0. apply reify_app.
  - by apply (reify_agree d (h ++ k1)).
Qed.

(** X12. The tree [SignEnveloped] returns is the tree of the element
    followed by one Signature, whose SignedInfo refers to the ID of that
    element, names the enveloped-signature transform, and holds the digest
    of the canonical octets of the element as it was given, without the
    Signature. *)
Theorem SignEnveloped_tree (ctx : SigningContext) (el : loc) (h h' : heap) (e : Element)
    (ret : loc) (d : nat) (t : Tree) :
  h !! el = Some e →
  (5 ≤ d)%nat →
  reify (S d) h el = Some t →
  SignEnveloped hashSum SignPKCS1v15 ctx el h = Some (Ok ret, h') →
  ∃ canonical dig sm signatureText certificateText subject,
    Canonicalize (Canonicalizer ctx) h el = Ok canonical ∧
    digestAlgorithmIdentifiers !! Hash ctx = Some dig ∧
    signatureMethodIdentifiers !! Hash ctx = Some sm ∧
    AttrValue (IDAttribute ctx) "" t ≠ "" ∧
    reify (S d) h' ret
    = Some (Node (space t) (tag t) (attributes t)
              (children t
               ++ [TElement
                     (signatureTree (Prefix ctx)
                        (signedInfoTree (Prefix ctx) (Algorithm (Canonicalizer ctx)) sm
                           ("#" +:+ AttrValue (IDAttribute ctx) "" t) dig
                           (base64.EncodeToString (hashSum (Hash ctx) canonical)) true)
                        signatureText certificateText subject)])).
Proof.
  intros He Hd Ht Hrun.
  destruct (SignEnveloped_reify ctx el h h' e ret He Hrun) as (sig & h1 & Hsig & Hreify).
  destruct (ConstructSignature_eval hashSum SignPKCS1v15 ctx el true h h1 e sig He Hsig)
    as (si & h0 & te & dd & B & canonical & key & cert & raw & Hsi & _ & _ & Hte & Hroot
        & Hdet & -> & [k HB] & Hcanon & Hks & Hsign & ->).
  destruct (constructSignedInfo_tree hashSum ctx el true h h0 e si He Hsi)
    as (dig & sm & canonical0 & Hdig & Hsm & Hcanon0 & Hid & _ & _ & Htree).
  assert (Hattr : AttrValue (IDAttribute ctx) "" t = dataIDOf ctx e).
  { cbn [reify] in Ht. rewrite He in Ht. cbn in Ht.
    destruct (reifyTokens (reify d h) (Child e)) as [tch |]; [| done].
    injection Ht as <-. unfold AttrValue, dataIDOf. cbn [attributes].
    by destruct (spaceDecompose (IDAttribute ctx)). }
  exists canonical0, dig, sm, (base64.EncodeToString raw),
    (base64.EncodeToString (x509.Raw cert)), (x509.Subject cert).
  split; [done |]. split; [done |]. split; [done |].
  split; [by rewrite Hattr |].
  rewrite Hattr. apply Hreify; [exact Ht |].
  apply (reify_mono 5); [| exact Hd].
  by apply (ConstructSignature_reify ctx h0 B si te k).
Qed.
End sign_enveloped_tree.

Lemma SignEnveloped_tree_witness :
  ∃ ret h',
    SignEnveloped Examples.constHash Examples.identitySign Examples.defaultContext
      Examples.response Examples.document = Some (Ok ret, h') ∧
    ∃ canonical dig sm signatureText certificateText subject,
      Canonicalize (Canonicalizer Examples.defaultContext) Examples.document
        Examples.response = Ok canonical ∧
      digestAlgorithmIdentifiers !! crypto.SHA256 = Some dig ∧
      signatureMethodIdentifiers !! crypto.SHA256 = Some sm ∧
      AttrValue "ID" "" (Node "" "Response" [mkAttr "" "ID" "x1"] [TCharData "hi"]) ≠ "" ∧
      reify 6 h' ret
      = Some (Node "" "Response" [mkAttr "" "ID" "x1"]
                ([TCharData "hi"]
                 ++ [TElement
                       (signatureTree "ds"
                          (signedInfoTree "ds" CanonicalXML11AlgorithmID sm "#x1" dig
                             (base64.EncodeToString
                                (Examples.constHash crypto.SHA256 canonical)) true)
                          signatureText certificateText subject)])).
Proof.
  eexists _, _. split; [vm_compute; reflexivity |].
  eapply (SignEnveloped_tree Examples.constHash Examples.identitySign
            Examples.defaultContext Examples.response Examples.document _
            (mkElement "" "Response" [mkAttr "" "ID" "x1"] [TCharData "hi"] (Some 0))
            _ 5 (Node "" "Response" [mkAttr "" "ID" "x1"] [TCharData "hi"])).
  - reflexivity.
  - lia.
  - reflexivity.
  - vm_compute. reflexivity.
Defined.

(** ** Parent pointers *)

(** The copies of child elements point to the copy of their parent. *)
Lemma dupTokens_parents (fuel : nat) (np : loc) (ts : list (Token loc)) :
  ∀ h ch h',
    dupTokens (dup fuel) np ts h = Some (Ok ch, h') →
    (∃ ext, h' = h ++ ext) ∧
    ∀ c, TElement c ∈ ch →
         (length h ≤ c)%nat ∧ ∃ ce, h' !! c = Some ce ∧ parent ce = Some np.
Proof.
  induction ts as [| t rest IH]; intros h ch h' Hrun.
  - cbn in Hrun. injection Hrun as <- <-. split; [exists []; by rewrite app_nil_r |].
    by intros c ?%elem_of_nil.
  - cbn [dupTokens] in Hrun. unfold mbind, M_bind, bind in Hrun.
    destruct (dupToken (dup fuel) np t h) as [[[t' | err] h1] |] eqn:Ht; [| done | done].
    destruct (dupTokens (dup fuel) np rest h1) as [[[rest' | err] h2] |] eqn:Hrest;
      [| done | done].
    cbn in Hrun. injection Hrun as <- <-.
    destruct (IH _ _ _ Hrest) as [[ext2 ->] Hparents].
    assert (Hstep : ∃ ext1, h1 = h ++ ext1 ∧
              ∀ c, t' = TElement c →
                   (length h ≤ c)%nat ∧ ∃ ce, h1 !! c = Some ce ∧ parent ce = Some np).
    { destruct t as [c0 | s | s | s | x y]; cbn in Ht.
      - unfold mbind, M_bind, bind in Ht.
        destruct (dup fuel c0 (Some np) h) as [[[c' | err'] hc] |] eqn:Hc;
          try discriminate Ht.
        cbn in Ht. injection Ht as <- <-.
        destruct (dup_spec _ _ _ _ _ _ Hc) as (ec & _ & [= ->] & chc & ext1 & -> & Hroot & _).
        exists ext1. split; [done |]. intros c [= <-]. split; [lia |].
        eexists. split; [by rewrite lookup_app_r, Nat.sub_diag by lia |]. done.
      - injection Ht as <- <-. exists []. rewrite app_nil_r. by split.
      - injection Ht as <- <-. exists []. rewrite app_nil_r. by split.
      - injection Ht as <- <-. exists []. rewrite app_nil_r. by split.
      - injection Ht as <- <-. exists []. rewrite app_nil_r. by split. }
    destruct Hstep as (ext1 & -> & Hfirst).
    split; [exists (ext1 ++ ext2); by rewrite app_assoc |].
    intros c [Hc | Hc]%elem_of_cons.
    + destruct (Hfirst c (eq_sym Hc)) as [Hle (ce & Hce & Hp)].
      split; [done |]. exists ce. split; [| done]. by apply lookup_app_l_Some.
    + destruct (Hparents c Hc) as [Hle Hce]. split; [| done].
      rewrite length_app in Hle. lia.
Qed.

Lemma dup_parents (fuel : nat) (l : loc) (p : option loc) (h h' : heap) (c : loc) :
  dup fuel l p h = Some (Ok c, h') →
  ∃ e ch ext,
    h !! l = Some e ∧ c = length h ∧ h' = h ++ ext ∧
    h' !! c = Some (mkElement (Space e) (Tag e) (Attrs e) ch p) ∧
    ∀ x, TElement x ∈ ch →
         (c < x)%nat ∧ ∃ xe, h' !! x = Some xe ∧ parent xe = Some c.
Proof.
  destruct fuel as [| fuel]; [done |]. intros Hrun.
  cbn [dup] in Hrun. unfold mbind, M_bind, bind, load in Hrun.
  destruct (h !! l) as [e |] eqn:He; [| done].
  unfold alloc in Hrun.
  set (ne := {| Space := Space e; Tag := Tag e; Attrs := Attrs e; Child := [];
                parent := p |}) in *.
  destruct (dupTokens (dup fuel) (length h) (Child e) (h ++ [ne]))
    as [[[ch | err] h2] |] eqn:Hch; [| done | done].
  destruct (dupTokens_parents _ _ _ _ _ _ Hch) as [[ext ->] Hparents].
  unfold modify, mbind, M_bind, bind, load, store in Hrun.
  rewrite <- app_assoc in Hrun. cbn [app] in Hrun.
  rewrite (lookup_app_r h) in Hrun by lia. rewrite Nat.sub_diag in Hrun.
  cbn in Hrun. rewrite (lookup_app_r h) in Hrun by lia. rewrite Nat.sub_diag in Hrun.
  cbn in Hrun. injection Hrun as <- <-.
  exists e, ch, (set_Child ch ne :: ext).
  split; [done |]. split; [done |].
  assert (Hshape : <[length h := set_Child ch ne]> (h ++ ne :: ext)
                   = h ++ set_Child ch ne :: ext).
  { rewrite insert_app_r_alt by lia. by rewrite Nat.sub_diag. }
  rewrite Hshape. split; [done |].
  split; [by rewrite lookup_app_r, Nat.sub_diag by lia |].
  intros x Hx. destruct (Hparents x Hx) as [Hle (xe & Hxe & Hp)].
  rewrite length_app in Hle. cbn in Hle. split; [lia |].
  exists xe. split; [| done].
  rewrite <- Hshape. rewrite list_lookup_insert_ne by lia.
  by rewrite <- app_assoc in Hxe.
Qed.

Section construct_signature_parents.
Variable hashSum : crypto.Hash → octets → octets.
Variable SignPKCS1v15 : crypto.rsa_PrivateKey → crypto.Hash → octets → result octets.

(** The elements below the Signature that [ConstructSignature] returns
    point to it, and the Signature itself has no parent. *)
Lemma ConstructSignature_parents (ctx : SigningContext) (el : loc) (enveloped : bool)
    (h h' : heap) (e : Element) (sig : loc) :
  h !! el = Some e →
  ConstructSignature hashSum SignPKCS1v15 ctx el enveloped h = Some (Ok sig, h') →
  ∃ si sv ki,
    (∃ k, h' = h ++ k) ∧ (length h ≤ sig)%nat ∧
    h' !! sig = Some (mkElement (Prefix ctx) SignatureTag
                        [signatureDeclaration (Prefix ctx)]
                        [TElement si; TElement sv; TElement ki] None) ∧
    ∀ c, c ∈ [si; sv; ki] → ∃ ce, h' !! c = Some ce ∧ parent ce = Some sig.
Proof.
  intros He Hrun.
  destruct (ConstructSignature_frame hashSum SignPKCS1v15 ctx el enveloped h h' e _ He Hrun)
    as [Hk Hsig].
  destruct (ConstructSignature_eval hashSum SignPKCS1v15 ctx el enveloped h h' e sig He Hrun)
    as (si & h0 & te & d & B & canonical & key & cert & raw & Hsi & _ & _ & Hte & Hroot
        & Hdet & -> & [k HB] & Hcanon & Hks & Hsign & ->).
  assert (Hlt : length h0 < length B).
  { rewrite HB, !length_app, length_insert. cbn. lia. }
  pose proof (lookup_lt_Some _ _ _ Hte) as Hsilt.
  exists si, (length B + 0), (length B + 1).
  split; [exact Hk |]. split; [by apply Hsig |]. split.
  { rewrite lookup_app_l by (by rewrite length_insert).
    by rewrite list_lookup_insert_eq. }
  intros c Hc. rewrite !elem_of_cons in Hc.
  destruct Hc as [-> | [-> | [-> | Hc]]]; [| | | by apply elem_of_nil in Hc].
  - exists (set_parent (Some (length h0)) te). split; [| done].
    rewrite lookup_app_l by (rewrite length_insert; lia).
    rewrite list_lookup_insert_ne by lia.
    rewrite HB, <- app_assoc. rewrite lookup_app_l by (by rewrite length_insert).
    by apply list_lookup_insert_eq.
  - rewrite canon_lookup_new. by eexists.
  - rewrite canon_lookup_new. by eexists.
Qed.
End construct_signature_parents.

Section sign_enveloped_parents.
Variable hashSum : crypto.Hash → octets → octets.
Variable SignPKCS1v15 : crypto.rsa_PrivateKey → crypto.Hash → octets → result octets.

(** X13. In the store [SignEnveloped] leaves, the copies of the child
    elements of [el] point to the returned element as their parent, and the
    SignedInfo, the SignatureValue and the KeyInfo point to the Signature;
    the Signature, although it is the last child of the returned element,
    has no parent: it is appended to the children without being linked. *)
Theorem SignEnveloped_Signature_has_no_parent (ctx : SigningContext) (el : loc)
    (h h' : heap) (e : Element) (ret : loc) :
  h !! el = Some e →
  SignEnveloped hashSum SignPKCS1v15 ctx el h = Some (Ok ret, h') →
  ∃ sig copies si sv ki,
    h' !! ret = Some (mkElement (Space e) (Tag e) (Attrs e)
                        (copies ++ [TElement sig]) None) ∧
    h' !! sig = Some (mkElement (Prefix ctx) SignatureTag
                        [signatureDeclaration (Prefix ctx)]
                        [TElement si; TElement sv; TElement ki] None) ∧
    (∀ c, TElement c ∈ copies → ∃ ce, h' !! c = Some ce ∧ parent ce = Some ret) ∧
    (∀ c, c ∈ [si; sv; ki] → ∃ ce, h' !! c = Some ce ∧ parent ce = Some sig).
Proof.
  intros He Hrun. unfold SignEnveloped in Hrun.
  destruct (ConstructSignature hashSum SignPKCS1v15 ctx el true h)
    as [[[sig | err] h2] |] eqn:Hsig;
    [| by rewrite (bind_Err _ _ _ _ _ Hsig) in Hrun
     | by rewrite (bind_None _ _ _ Hsig) in Hrun].
  rewrite (bind_Ok _ _ _ _ _ Hsig) in Hrun.
  destruct (ConstructSignature_parents hashSum SignPKCS1v15 ctx el true h h2 e sig He Hsig)
    as (si & sv & ki & [k ->] & Hnew & Hsigel & Hbelow).
  destruct (Copy el (h ++ k)) as [[[c | err] h3] |] eqn:Hcopy;
    [| by rewrite (bind_Err _ _ _ _ _ Hcopy) in Hrun
     | by rewrite (bind_None _ _ _ Hcopy) in Hrun].
  rewrite (bind_Ok _ _ _ _ _ Hcopy) in Hrun.
  unfold Copy in Hcopy.
  destruct (dup_parents _ _ _ _ _ _ Hcopy)
    as (e1 & ch & ext & He1 & -> & -> & Hroot & Hcopies).
  rewrite (lookup_app_l_Some _ _ _ _ He) in He1. injection He1 as <-.
  rewrite (bind_Ok _ _ _ _ _ (modify_at _ _ _ _ Hroot)) in Hrun.
  injection Hrun as <- <-.
  unfold set_Child. cbn [Child Space Tag Attrs parent].
  exists sig, ch, si, sv, ki.
  assert (Hold : ∀ i x, (h ++ k) !! i = Some x →
                 <[length (h ++ k) := mkElement (Space e) (Tag e) (Attrs e)
                                        (ch ++ [TElement sig]) None]> ((h ++ k) ++ ext) !! i
                 = Some x).
  { intros i x Hi. pose proof (lookup_lt_Some _ _ _ Hi).
    rewrite list_lookup_insert_ne by lia. by apply lookup_app_l_Some. }
  split; [apply list_lookup_insert_eq; by eapply lookup_lt_Some |].
  split; [by apply Hold |]. split.
  - intros x Hx. destruct (Hcopies x Hx) as [Hlt (xe & Hxe & Hp)].
    exists xe. split; [| done]. by rewrite list_lookup_insert_ne by lia.
  - intros x Hx. destruct (Hbelow x Hx) as (xe & Hxe & Hp).
    exists xe. split; [by apply Hold | done].
Qed.
End sign_enveloped_parents.

Lemma SignEnveloped_Signature_has_no_parent_witness :
  ∃ ret h',
    SignEnveloped Examples.constHash Examples.identitySign Examples.defaultContext
      Examples.response Examples.document = Some (Ok ret, h') ∧
    ∃ sig copies si sv ki,
      h' !! ret = Some (mkElement "" "Response" [mkAttr "" "ID" "x1"]
                          (copies ++ [TElement sig]) None) ∧
      h' !! sig = Some (mkElement "ds" SignatureTag [signatureDeclaration "ds"]
                          [TElement si; TElement sv; TElement ki] None) ∧
      (∀ c, TElement c ∈ copies → ∃ ce, h' !! c = Some ce ∧ parent ce = Some ret) ∧
      (∀ c, c ∈ [si; sv; ki] → ∃ ce, h' !! c = Some ce ∧ parent ce = Some sig).
Proof.
  eexists _, _. split; [vm_compute; reflexivity |].
  eapply (SignEnveloped_Signature_has_no_parent Examples.constHash Examples.identitySign
            Examples.defaultContext Examples.response Examples.document _
            (mkElement "" "Response" [mkAttr "" "ID" "x1"] [TCharData "hi"] (Some 0))).
  - reflexivity.
  - vm_compute. reflexivity.
Defined.

(** ** The elements of a copy are new *)

Lemma tokenLocations_snoc (f : loc → option (list loc)) (ts : list (Token loc)) (c : loc)
    (ls lc : list loc) :
  tokenLocations f ts = Some ls → f c = Some lc →
  tokenLocations f (ts ++ [TElement c]) = Some (ls ++ lc).
Proof.
  revert ls. induction ts as [| t rest IH]; intros ls Hls Hc.
  - injection Hls as <-. cbn. rewrite Hc. cbn. by rewrite app_nil_r.
  - destruct t as [c0 | s | s | s | x y]; cbn [tokenLocations app] in *;
      try (by apply IH).
    destruct (f c0) as [a |]; [| done]. cbn in *.
    destruct (tokenLocations f rest) as [b |] eqn:Hrest; [| done].
    cbn in Hls. injection Hls as <-.
    rewrite (IH b eq_refl Hc). cbn. by rewrite app_assoc.
Qed.

Section dup_locations.
Variable fuel : nat.
Hypothesis IHdup : ∀ l p h c h',
  dup fuel l p h = Some (Ok c, h') →
  ∀ d t h'',
    reify d h l = Some t →
    agree_on (length h) (length h') h'' h' →
    ∃ ls, locations d h'' c = Some ls ∧
          Forall (fun x => (length h ≤ x < length h')%nat) ls.

Lemma dupTokens_locations (np : loc) (ts : list (Token loc)) :
  ∀ h ch h',
    dupTokens (dup fuel) np ts h = Some (Ok ch, h') →
    ∀ d tch h'',
      reifyTokens (reify d h) ts = Some tch →
      agree_on (length h) (length h') h'' h' →
      ∃ ls, tokenLocations (locations d h'') ch = Some ls ∧
            Forall (fun x => (length h ≤ x < length h')%nat) ls.
Proof.
  induction ts as [| t rest IH]; intros h ch h' Hrun d tch h'' Htch Hagree.
  - cbn in Hrun. injection Hrun as <- <-. exists []. by split.
  - cbn [dupTokens] in Hrun. unfold mbind, M_bind, bind in Hrun.
    destruct (dupToken (dup fuel) np t h) as [[[t' | err] h1] |] eqn:Ht; [| done | done].
    destruct (dupTokens (dup fuel) np rest h1) as [[[rest' | err] h2] |] eqn:Hrest;
      [| done | done].
    cbn in Hrun. injection Hrun as <- <-.
    destruct (dupTokens_parents _ _ _ _ _ _ Hrest) as [[ext2 ->] _].
    cbn [reifyTokens] in Htch.
    destruct (reifyToken (reify d h) t) as [tt |] eqn:Htt; [| done].
    destruct (reifyTokens (reify d h) rest) as [trest |] eqn:Htrest; [| done].
    destruct t as [c0 | s | s | s | x y]; cbn in Ht.
    + unfold mbind, M_bind, bind in Ht.
      destruct (dup fuel c0 (Some np) h) as [[[c' | err'] hc] |] eqn:Hc;
        try discriminate Ht.
      cbn in Ht. injection Ht as <- <-.
      destruct (dup_spec _ _ _ _ _ _ Hc) as (ec & _ & _ & chc & ext1 & -> & _ & _).
      cbn [reifyToken] in Htt.
      destruct (reify d h c0) as [tc |] eqn:Htc; [| done].
      destruct (IHdup _ _ _ _ _ Hc d tc h'' Htc) as (ls1 & Hls1 & Hfresh1).
      { intros i Hi. rewrite Hagree.
        - rewrite lookup_app_l; [done | lia].
        - rewrite !length_app in *. lia. }
      destruct (IH _ _ _ Hrest d trest h'') as (ls2 & Hls2 & Hfresh2).
      { apply (reifyTokens_impl (reify d h)); [| done]. intros c t0. apply reify_app. }
      { intros i Hi. apply Hagree. rewrite !length_app in *. lia. }
      exists (ls1 ++ ls2). cbn [tokenLocations]. rewrite Hls1, Hls2. split; [done |].
      apply Forall_app. split.
      * revert Hfresh1. apply List.Forall_impl. intros x Hx.
        rewrite !length_app in *. lia.
      * revert Hfresh2. apply List.Forall_impl. intros x Hx.
        rewrite !length_app in *. lia.
    + injection Ht as <- <-. cbn [tokenLocations].
      apply (IH _ _ _ Hrest d trest h'' Htrest Hagree).
    + injection Ht as <- <-. cbn [tokenLocations].
      apply (IH _ _ _ Hrest d trest h'' Htrest Hagree).
    + injection Ht as <- <-. cbn [tokenLocations].
      apply (IH _ _ _ Hrest d trest h'' Htrest Hagree).
    + injection Ht as <- <-. cbn [tokenLocations].
      apply (IH _ _ _ Hrest d trest h'' Htrest Hagree).
Qed.

(** The children of the copy that [dup] returns, once more of fuel is
    given: all elements below them are new. *)
Lemma dup_locations_step (l : loc) (p : option loc) (h h' : heap) (c : loc) :
  dup (S fuel) l p h = Some (Ok c, h') →
  ∃ e ch,
    h !! l = Some e ∧ c = length h ∧
    h' !! c = Some (mkElement (Space e) (Tag e) (Attrs e) ch p) ∧
    ∀ d tch h'',
      reifyTokens (reify d h) (Child e) = Some tch →
      agree_on (length h + 1) (length h') h'' h' →
      ∃ ls, tokenLocations (locations d h'') ch = Some ls ∧
            Forall (fun x => (length h < x < length h')%nat) ls.
Proof.
  intros Hrun.
  cbn [dup] in Hrun. unfold mbind, M_bind, bind, load in Hrun.
  destruct (h !! l) as [e |] eqn:He; [| done].
  unfold alloc in Hrun.
  set (ne := {| Space := Space e; Tag := Tag e; Attrs := Attrs e; Child := [];
                parent := p |}) in *.
  destruct (dupTokens (dup fuel) (length h) (Child e) (h ++ [ne]))
    as [[[ch | err] h2] |] eqn:Hch; [| done | done].
  destruct (dupTokens_parents _ _ _ _ _ _ Hch) as [[ext Hh2] _].
  unfold modify, mbind, M_bind, bind, load, store in Hrun.
  rewrite Hh2 in Hrun.
  rewrite <- app_assoc in Hrun. cbn [app] in Hrun.
  rewrite (lookup_app_r h) in Hrun by lia. rewrite Nat.sub_diag in Hrun.
  cbn in Hrun. rewrite (lookup_app_r h) in Hrun by lia. rewrite Nat.sub_diag in Hrun.
  cbn in Hrun. injection Hrun as <- <-.
  assert (Hshape : <[length h := set_Child ch ne]> (h ++ ne :: ext)
                   = h ++ set_Child ch ne :: ext).
  { rewrite insert_app_r_alt by lia. by rewrite Nat.sub_diag. }
  rewrite Hshape.
  exists e, ch. split; [done |]. split; [done |].
  split; [by rewrite lookup_app_r, Nat.sub_diag by lia |].
  intros d tch h'' Htch Hagree.
  destruct (dupTokens_locations _ _ _ _ _ Hch d tch h'') as (ls & Hls & Hfresh).
  - apply (reifyTokens_impl (reify d h)); [| done]. intros c t0. apply reify_app.
  - intros i Hi. rewrite Hh2 in *. rewrite !length_app in Hi. cbn in Hi.
    rewrite Hagree by (rewrite length_app; cbn; lia).
    rewrite <- app_assoc. cbn [app].
    rewrite !lookup_app_r by lia.
    destruct (i - length h) as [| k] eqn:Hk; [lia | done].
  - exists ls. split; [done |].
    revert Hfresh. apply List.Forall_impl. intros x Hx.
    rewrite Hh2 in Hx. rewrite !length_app in *. cbn in *. lia.
Qed.
End dup_locations.

Lemma dup_locations (fuel : nat) :
  ∀ l p h c h',
    dup fuel l p h = Some (Ok c, h') →
    ∀ d t h'',
      reify d h l = Some t →
      agree_on (length h) (length h') h'' h' →
      ∃ ls, locations d h'' c = Some ls ∧
            Forall (fun x => (length h ≤ x < length h')%nat) ls.
Proof.
  induction fuel as [| fuel IH]; intros l p h c h' Hrun d t h'' Ht Hagree; [done |].
  destruct (dup_locations_step fuel IH l p h h' c Hrun)
    as (e & ch & He & -> & Hroot & Hbelow).
  pose proof (lookup_lt_Some _ _ _ Hroot) as Hlt.
  destruct d as [| d]; [done |]. cbn [reify] in Ht. rewrite He in Ht. cbn in Ht.
  destruct (reifyTokens (reify d h) (Child e)) as [tch |] eqn:Htch; [| done].
  destruct (Hbelow d tch h'' Htch) as (ls & Hls & Hfresh).
  { intros i Hi. apply Hagree. lia. }
  exists (length h :: ls). cbn [locations].
  rewrite Hagree by lia. rewrite Hroot. cbn. rewrite Hls. cbn. split; [done |].
  constructor; [lia |].
  revert Hfresh. apply List.Forall_impl. intros x Hx. lia.
Qed.

Lemma Copy_locations (l : loc) (h h' : heap) (c : loc) :
  Copy l h = Some (Ok c, h') →
  ∃ e ch,
    h !! l = Some e ∧ c = length h ∧
    h' !! c = Some (mkElement (Space e) (Tag e) (Attrs e) ch None) ∧
    ∀ d tch h'',
      reifyTokens (reify d h) (Child e) = Some tch →
      agree_on (length h + 1) (length h') h'' h' →
      ∃ ls, tokenLocations (locations d h'') ch = Some ls ∧
            Forall (fun x => (length h < x < length h')%nat) ls.
Proof.
  unfold Copy. generalize (length h) at 1. intros [| fuel] Hrun; [done |].
  exact (dup_locations_step fuel (dup_locations fuel) l None h h' c Hrun).
Qed.

(** ** SignEnveloped returns a copy *)

Section sign_enveloped.
Variable hashSum : crypto.Hash → octets → octets.
Variable SignPKCS1v15 : crypto.rsa_PrivateKey → crypto.Hash → octets → result octets.

(** C5. When [SignEnveloped] succeeds on [el], nothing of the store it was
    given is written, so [el], its tag, attributes and children are as
    before.  The returned element is the first one allocated after
    [ConstructSignature] has returned, and what [ConstructSignature] left
    in the store stays as it is.  The returned element has the tag and
    attributes of [el]; its children are [copies] followed by the
    Signature that [ConstructSignature] built.  The children [copies] read
    back as the very trees of the children of [el], and every element
    below them, at whatever depth, sits at a location allocated after the
    returned element: none of them is an element of [el], nor one of the
    Signature. *)
Theorem SignEnveloped_copy_with_Signature (ctx : SigningContext) (el : loc)
    (h h' : heap) (e : Element) (ret : loc) :
  h !! el = Some e →
  SignEnveloped hashSum SignPKCS1v15 ctx el h = Some (Ok ret, h') →
  ∃ sig h1 ext copies,
    ConstructSignature hashSum SignPKCS1v15 ctx el true h = Some (Ok sig, h1) ∧
    h' = h ++ ext ∧
    h' !! el = Some e ∧
    (length h ≤ ret)%nat ∧
    h' !! ret = Some (mkElement (Space e) (Tag e) (Attrs e)
                        (copies ++ [TElement sig]) None) ∧
    (length h ≤ sig < length h1)%nat ∧
    ret = length h1 ∧
    (∀ l x, h1 !! l = Some x → h' !! l = Some x) ∧
    ∀ d t st,
      reify (S d) h el = Some t →
      reify d h1 sig = Some st →
      reify (S d) h' el = Some t ∧
      reify (S d) h' ret
      = Some (Node (space t) (tag t) (attributes t) (children t ++ [TElement st])) ∧
      reifyTokens (reify d h') copies = Some (children t) ∧
      ∃ lcopies,
        tokenLocations (locations d h') copies = Some lcopies ∧
        Forall (fun l => (length h1 < l)%nat) lcopies.
Proof.
  intros He Hrun. unfold SignEnveloped in Hrun.
  destruct (ConstructSignature hashSum SignPKCS1v15 ctx el true h)
    as [[[sig | err] h1] |] eqn:Hsig;
    [| by rewrite (bind_Err _ _ _ _ _ Hsig) in Hrun
     | by rewrite (bind_None _ _ _ Hsig) in Hrun].
  rewrite (bind_Ok _ _ _ _ _ Hsig) in Hrun.
  destruct (ConstructSignature_parents hashSum SignPKCS1v15 ctx el true h h1 e sig He Hsig)
    as (si & sv & ki & [k1 ->] & Hsig_new & Hsigel & _).
  pose proof (lookup_lt_Some _ _ _ Hsigel) as Hsig_lt.
  destruct (Copy el (h ++ k1)) as [[[c | err] h2] |] eqn:Hcopy;
    [| by rewrite (bind_Err _ _ _ _ _ Hcopy) in Hrun
     | by rewrite (bind_None _ _ _ Hcopy) in Hrun].
  rewrite (bind_Ok _ _ _ _ _ Hcopy) in Hrun.
  destruct (Copy_locations _ _ _ _ Hcopy) as (e2 & ch2 & He2 & _ & Hroot2 & Hfresh).
  rewrite (lookup_app_l_Some _ _ _ _ He) in He2. injection He2 as <-.
  unfold Copy in Hcopy.
  destruct (dup_spec _ _ _ _ _ _ Hcopy) as (e1 & He1 & Hc & Hcopied).
  rewrite (lookup_app_l_Some _ _ _ _ He) in He1. injection He1 as <-.
  injection Hc as ->.
  pose proof Hcopied as (ch & ext2 & -> & Hroot & Hch).
  assert (Hret : ((h ++ k1) ++ ext2) !! length (h ++ k1)
                 = Some (mkElement (Space e) (Tag e) (Attrs e) ch None)).
  { by rewrite lookup_app_r, Nat.sub_diag by lia. }
  rewrite Hret in Hroot2. injection Hroot2 as <-.
  rewrite (bind_Ok _ _ _ _ _ (modify_at _ _ _ _ Hret)) in Hrun.
  injection Hrun as <- <-.
  unfold set_Child. cbn [Child Space Tag Attrs parent].
  assert (Hshape : <[length (h ++ k1) :=
                       mkElement (Space e) (Tag e) (Attrs e) (ch ++ [TElement sig]) None]>
                     ((h ++ k1) ++ ext2)
                   = h ++ (k1 ++ <[0 := mkElement (Space e) (Tag e) (Attrs e)
                                          (ch ++ [TElement sig]) None]> ext2)).
  { rewrite insert_app_r_alt, Nat.sub_diag by lia. by rewrite <- app_assoc. }
  assert (Hnew : (h ++ k1 ++ <[0 := mkElement (Space e) (Tag e) (Attrs e)
                                      (ch ++ [TElement sig]) None]> ext2)
                   !! length (h ++ k1)
                 = Some (mkElement (Space e) (Tag e) (Attrs e)
                           (ch ++ [TElement sig]) None)).
  { rewrite app_assoc. rewrite lookup_app_r, Nat.sub_diag by lia.
    apply list_lookup_insert_eq. by eapply lookup_lt_Some. }
  exists sig, (h ++ k1), (k1 ++ <[0 := mkElement (Space e) (Tag e) (Attrs e)
                                         (ch ++ [TElement sig]) None]> ext2), ch.
  rewrite !Hshape.
  split; [done |]. split; [done |].
  split; [by apply lookup_app_l_Some |].
  split; [rewrite length_app; lia |].
  split; [exact Hnew |].
  split; [lia |].
  split; [done |].
  split.
  { intros l x Hl. rewrite app_assoc. by apply lookup_app_l_Some. }
  intros d t st Ht Hst.
  split; [by apply reify_app |].
  cbn [reify] in Ht |- *. rewrite He in Ht. cbn in Ht.
  destruct (reifyTokens (reify d h) (Child e)) as [tch |] eqn:Htch; [| done].
  injection Ht as <-. cbn [space tag attributes children].
  rewrite Hnew. cbn.
  set (hfinal := h ++ k1 ++ <[0 := mkElement (Space e) (Tag e) (Attrs e)
                                     (ch ++ [TElement sig]) None]> ext2).
  assert (Hfinal_old : agree_on 0 (length (h ++ k1)) hfinal (h ++ k1)).
  { intros i [_ Hi]. unfold hfinal. rewrite app_assoc. by rewrite lookup_app_l. }
  assert (Hfinal_new : agree_on (length (h ++ k1) + 1) (length ((h ++ k1) ++ ext2))
                         hfinal ((h ++ k1) ++ ext2)).
  { intros i Hi. unfold hfinal. rewrite app_assoc.
    rewrite !lookup_app_r by lia.
    apply list_lookup_insert_ne. lia. }
  assert (Htch1 : reifyTokens (reify d (h ++ k1)) (Child e) = Some tch).
  { apply (reifyTokens_impl (reify d h)); [| exact Htch].
    intros c t0. apply reify_app. }
  assert (Hcopies : reifyTokens (reify d hfinal) ch = Some tch).
  { by apply (Hch d tch hfinal). }
  split.
  { rewrite (reifyTokens_snoc (reify d hfinal) ch sig tch st); [done | done |].
    by apply (reify_agree d (h ++ k1)). }
  split; [exact Hcopies |].
  destruct (Hfresh d tch hfinal Htch1 Hfinal_new) as (ls & Hls & Hall).
  exists ls. split; [exact Hls |].
  revert Hall. apply List.Forall_impl. intros x Hx. lia.
Qed.
End sign_enveloped.

Lemma SignEnveloped_copy_with_Signature_witness :
  ∃ ret h' sig h1 copies st lcopies,
    SignEnveloped Examples.constHash Examples.identitySign Examples.defaultContext
      1 Examples.nestedDocument = Some (Ok ret, h') ∧
    ConstructSignature Examples.constHash Examples.identitySign Examples.defaultContext
      1 true Examples.nestedDocument = Some (Ok sig, h1) ∧
    h' !! 1 = Examples.nestedDocument !! 1 ∧
    ret = length h1 ∧
    h' !! ret = Some (mkElement "" "Response" [mkAttr "" "ID" "x1"]
                        (copies ++ [TElement sig]) None) ∧
    reify 5 h1 sig = Some st ∧
    reify 6 h' 1 = reify 6 Examples.nestedDocument 1 ∧
    reify 6 h' ret
    = Some (Node "" "Response" [mkAttr "" "ID" "x1"]
              [ TElement (Node "" "Issuer" []
                            [TElement (Node "" "Name" [] [TCharData "idp"])]);
                TCharData "hi";
                TElement st ]) ∧
    tokenLocations (locations 5 h') copies = Some lcopies ∧
    length lcopies = 2 ∧
    Forall (fun l => (length h1 < l)%nat) lcopies.
Proof.
  eassert (Hrun : SignEnveloped Examples.constHash Examples.identitySign
                    Examples.defaultContext 1 Examples.nestedDocument
                  = Some (Ok _, _)) by (vm_compute; reflexivity).
  destruct (SignEnveloped_copy_with_Signature Examples.constHash Examples.identitySign
              Examples.defaultContext 1 Examples.nestedDocument _
              (mkElement "" "Response" [mkAttr "" "ID" "x1"] [TElement 2; TCharData "hi"]
                 (Some 0)) _ eq_refl Hrun)
    as (sig & h1 & ext & copies & Hcs & _ & Hel & _ & Hret & _ & Hloc & _ & Hall).
  eassert (Hcs' : ConstructSignature Examples.constHash Examples.identitySign
                    Examples.defaultContext 1 true Examples.nestedDocument
                  = Some (Ok _, _)) by (vm_compute; reflexivity).
  pose proof Hcs as Hcs0.
  rewrite Hcs' in Hcs. injection Hcs as Hsig Hh1.
  eassert (Hst : reify 5 h1 sig = Some _)
    by (rewrite <- Hsig, <- Hh1; vm_compute; reflexivity).
  destruct (Hall 5 _ _ eq_refl Hst) as (Hel6 & Hret6 & _ & lcopies & Hlc & Hfresh).
  pose proof Hret as Hret0.
  vm_compute in Hret. injection Hret as Hcopies.
  match type of Hcopies with
  | ?a :: ?b :: ?c :: [] = _ =>
      change (a :: b :: c :: []) with ([a; b] ++ [c]) in Hcopies
  end.
  apply app_inj_tail in Hcopies. destruct Hcopies as [<- _].
  pose proof Hlc as Hlc'. vm_compute in Hlc'. injection Hlc' as <-.
  eexists _, _, _, _, _, _, _.
  split; [exact Hrun |]. split; [exact Hcs0 |].
  split; [exact Hel |].
  split; [exact Hloc |]. split; [exact Hret0 |]. split; [exact Hst |].
  split; [exact Hel6 |]. split; [exact Hret6 |]. split; [exact Hlc |].
  split; [reflexivity |]. exact Hfresh.
Defined.

(** ** SignString *)

Lemma list_byte_of_string_nil (s : string) :
  length (String.list_byte_of_string s) < 1 ↔ s = "".
Proof.
  destruct s as [| a s]; [by split; [| cbn; lia] |].
  split; [| done]. cbn. lia.
Qed.

Section sign_string.
Variable hashSum : crypto.Hash → octets → octets.
Variable SignPKCS1v15 : crypto.rsa_PrivateKey → crypto.Hash → octets → result octets.
Variable Available : crypto.Hash → bool.

(** X14. [SignString] does not return when the hash of the context is
    not available.  Otherwise the empty string gives the error
    [zero length hash], whatever the key store; for any other content an
    error of the key store and an error of the signer are returned under the
    prefixes of the code, and else the result is the signature of the hash
    of the bytes of the content. *)
Theorem SignString_cases (ctx : SigningContext) (content : string) :
  (Available (Hash ctx) = false →
     SignString hashSum SignPKCS1v15 Available ctx content = None) ∧
  (Available (Hash ctx) = true →
     (content = "" →
        SignString hashSum SignPKCS1v15 Available ctx content
        = Some (Err "zero length hash")) ∧
     (content ≠ "" → ∀ err, GetKeyPair (KeyStore ctx) = Err err →
        SignString hashSum SignPKCS1v15 Available ctx content
        = Some (Err ("unable to fetch key for signing: " +:+ err))) ∧
     (content ≠ "" → ∀ key cert, GetKeyPair (KeyStore ctx) = Ok (key, cert) →
        SignString hashSum SignPKCS1v15 Available ctx content
        = Some (match SignPKCS1v15 key (Hash ctx)
                        (hashSum (Hash ctx) (String.list_byte_of_string content)) with
                | Ok signature => Ok signature
                | Err err => Err ("error signing: " +:+ err)
                end))).
Proof.
  unfold SignString. split.
  - by intros ->.
  - intros ->. cbn [negb]. repeat split.
    + intros ->. reflexivity.
    + intros Hne err Hks.
      rewrite decide_False by (by rewrite list_byte_of_string_nil).
      by rewrite Hks.
    + intros Hne key cert Hks.
      rewrite decide_False by (by rewrite list_byte_of_string_nil).
      rewrite Hks. by destruct (SignPKCS1v15 _ _ _).
Qed.

(** X15. [ConstructSignature] and [SignString] sign alike: the text of
    the SignatureValue is the base64 encoding of a signature, it decodes to
    that signature, and [SignString] on the canonical octets of the detached
    SignedInfo, when there are any, returns the same signature. *)
Theorem SignatureValue_is_SignString_of_canonical_SignedInfo (ctx : SigningContext)
    (el : loc) (enveloped : bool) (h h' : heap) (e : Element) (sig : loc) :
  h !! el = Some e →
  Available (Hash ctx) = true →
  ConstructSignature hashSum SignPKCS1v15 ctx el enveloped h = Some (Ok sig, h') →
  ∃ d h1 canonical signature tree signatureValue,
    detatchSignedInfo hashSum ctx el enveloped h = Some (Ok (sig, d), h1) ∧
    Canonicalize (Canonicalizer ctx) h1 d = Ok canonical ∧
    reify 5 h' sig = Some tree ∧
    SelectElement SignatureValueTag tree = Some signatureValue ∧
    Text signatureValue = base64.EncodeToString signature ∧
    base64.DecodeString (Text signatureValue) = Ok signature ∧
    (canonical ≠ [] →
     SignString hashSum SignPKCS1v15 Available ctx (String.string_of_list_byte canonical)
     = Some (Ok signature)).
Proof.
  intros He Havail Hrun.
  destruct (ConstructSignature_eval hashSum SignPKCS1v15 ctx el enveloped h h' e sig He Hrun)
    as (si & h0 & te & d & B & canonical & key & cert & raw & Hsi & _ & _ & Hte & Hroot
        & Hdet & -> & [k HB] & Hcanon & Hks & Hsign & ->).
  destruct (constructSignedInfo_tree hashSum ctx el enveloped h h0 e si He Hsi)
    as (dig & sm & canonical0 & _ & _ & _ & _ & _ & _ & Htree).
  pose proof (ConstructSignature_reify ctx h0 B si te k _
                (base64.EncodeToString raw) (base64.EncodeToString (x509.Raw cert))
                (x509.Subject cert) Hte Htree HB) as Hreify.
  eexists d, B, canonical, raw, _, _.
  split; [done |]. split; [done |]. split; [exact Hreify |].
  split; [reflexivity |].
  assert (HText : Text (Node (Prefix ctx) SignatureValueTag []
                          (textTokens (base64.EncodeToString raw)))
                  = base64.EncodeToString raw) by apply text_textTokens.
  split; [exact HText |].
  split; [rewrite HText; apply DecodeString_EncodeToString |].
  intros Hne. unfold SignString. rewrite Havail. cbn [negb].
  rewrite String.list_byte_of_string_of_list_byte.
  rewrite decide_False by (destruct canonical; [done | cbn; lia]).
  by rewrite Hks, Hsign.
Qed.
End sign_string.

Lemma SignString_cases_witness :
  SignString Examples.constHash Examples.identitySign Examples.linked
    Examples.md5Context "SAMLRequest=abc" = None ∧
  SignString Examples.constHash Examples.identitySign Examples.linked
    Examples.defaultContext "" = Some (Err "zero length hash") ∧
  SignString Examples.constHash Examples.identitySign Examples.linked
    (NewDefaultSigningContext Examples.tagOctets Examples.emptyStore) "SAMLRequest=abc"
    = Some (Err "unable to fetch key for signing: no key") ∧
  SignString Examples.constHash Examples.identitySign Examples.linked
    Examples.defaultContext "SAMLRequest=abc"
    = Some (Ok (Examples.constHash crypto.SHA256
                  (String.list_byte_of_string "SAMLRequest=abc"))).
Proof.
  split; [| split; [| split]].
  - apply (SignString_cases Examples.constHash Examples.identitySign Examples.linked
             Examples.md5Context "SAMLRequest=abc"). reflexivity.
  - apply (SignString_cases Examples.constHash Examples.identitySign Examples.linked
             Examples.defaultContext ""); reflexivity.
  - apply (SignString_cases Examples.constHash Examples.identitySign Examples.linked
             (NewDefaultSigningContext Examples.tagOctets Examples.emptyStore)
             "SAMLRequest=abc"); [reflexivity | discriminate | reflexivity].
  - apply (SignString_cases Examples.constHash Examples.identitySign Examples.linked
             Examples.defaultContext "SAMLRequest=abc")
      with (key := Examples.someKey) (cert := Examples.someCert);
      [reflexivity | discriminate | reflexivity].
Defined.

Lemma SignatureValue_is_SignString_of_canonical_SignedInfo_witness :
  ∃ sig h',
    ConstructSignature Examples.constHash Examples.identitySign Examples.defaultContext
      Examples.response true Examples.document = Some (Ok sig, h') ∧
    ∃ d h1 canonical signature tree signatureValue,
      detatchSignedInfo Examples.constHash Examples.defaultContext Examples.response true
        Examples.document = Some (Ok (sig, d), h1) ∧
      Canonicalize (Canonicalizer Examples.defaultContext) h1 d = Ok canonical ∧
      reify 5 h' sig = Some tree ∧
      SelectElement SignatureValueTag tree = Some signatureValue ∧
      Text signatureValue = base64.EncodeToString signature ∧
      base64.DecodeString (Text signatureValue) = Ok signature ∧
      (canonical ≠ [] →
       SignString Examples.constHash Examples.identitySign Examples.linked
         Examples.defaultContext (String.string_of_list_byte canonical)
       = Some (Ok signature)).
Proof.
  eexists _, _. split; [vm_compute; reflexivity |].
  eapply (SignatureValue_is_SignString_of_canonical_SignedInfo Examples.constHash
            Examples.identitySign Examples.linked Examples.defaultContext
            Examples.response true Examples.document _
            (mkElement "" "Response" [mkAttr "" "ID" "x1"] [TCharData "hi"] (Some 0))).
  - reflexivity.
  - reflexivity.
  - vm_compute. reflexivity.
Defined.

(** ** The constructors of the clock *)


(** ** The two key stores *)

Section key_stores.
Variable ParseCertificate : octets → result x509.Certificate.

(** X17. For the same RSA key and the same first blob the two key stores
    return the same key pair when either succeeds.  When the blob does not
    parse, the memory store returns the error of the parser and the TLS
    store returns [ErrMissingCertificates]. *)
Theorem key_stores_agree_on_success (k : crypto.rsa_PrivateKey) (first : octets)
    (rest : list octets) :
  (∀ pair,
     TLSCertKeyStore_GetKeyPair ParseCertificate
       {| Certificate := first :: rest; PrivateKey := crypto.RSAKey k |} = Ok pair ↔
     MemoryX509KeyStore_GetKeyPair ParseCertificate
       {| privateKey := k; cert := first |} = Ok pair) ∧
  (∀ err,
     MemoryX509KeyStore_GetKeyPair ParseCertificate
       {| privateKey := k; cert := first |} = Err err ↔
     ParseCertificate first = Err err) ∧
  (∀ err,
     ParseCertificate first = Err err →
     TLSCertKeyStore_GetKeyPair ParseCertificate
       {| Certificate := first :: rest; PrivateKey := crypto.RSAKey k |}
     = Err ErrMissingCertificates).
Proof.
  unfold TLSCertKeyStore_GetKeyPair, MemoryX509KeyStore_GetKeyPair.
  cbn [Certificate PrivateKey privateKey cert].
  destruct (ParseCertificate first) as [c | e]; repeat split; try done.
  all: try (intros [= ->]; done).
Qed.

(** X18. When [GetKeyPair] of the TLS store succeeds, the certificate it
    returns is the first certificate of the chain [GetChain] returns. *)
Theorem GetChain_starts_with_leaf (d : TLSCertKeyStore) (k : crypto.rsa_PrivateKey)
    (crt : x509.Certificate) :
  TLSCertKeyStore_GetKeyPair ParseCertificate d = Ok (k, crt) →
  ∃ rest, TLSCertKeyStore_GetChain ParseCertificate d = Ok (crt :: rest).
Proof.
  unfold TLSCertKeyStore_GetKeyPair, TLSCertKeyStore_GetChain.
  destruct (PrivateKey d) as [pk | | |]; try done.
  destruct (Certificate d) as [| first rest]; [done |].
  rewrite GetChain_range_omap. cbn. unfold parsed at 1.
  destruct (ParseCertificate first) as [c | e]; [| done].
  intros [= -> ->]. by eexists.
Qed.

(** X19. The chain [GetChain] returns is never longer than the list of
    blobs, and it is as long exactly when every blob parses. *)
Theorem GetChain_length (d : TLSCertKeyStore) (certs : list x509.Certificate) :
  TLSCertKeyStore_GetChain ParseCertificate d = Ok certs →
  (length certs ≤ length (Certificate d))%nat ∧
  (length certs = length (Certificate d) ↔
   Forall (fun der => is_Ok (ParseCertificate der) = true) (Certificate d)).
Proof.
  unfold TLSCertKeyStore_GetChain. rewrite GetChain_range_omap. cbn [app].
  intros [= <-].
  induction (Certificate d) as [| der ders [IHle IHeq]]; [by split |].
  cbn.
  assert (Hp : parsed ParseCertificate der
               = match ParseCertificate der with Ok c => Some c | Err _ => None end)
    by reflexivity.
  rewrite Hp. rewrite list.Forall_cons.
  destruct (ParseCertificate der) as [c | e]; cbn [length is_Ok].
  - split; [lia |]. split.
    + intros [= Hlen]. split; [done |]. by apply IHeq.
    + intros [_ Hall]. f_equal. by apply IHeq.
  - split; [lia |]. split; [lia | by intros [? _]].
Qed.
End key_stores.

Lemma key_stores_agree_on_success_witness :
  TLSCertKeyStore_GetKeyPair Examples.parseNonEmpty
    {| Certificate := [[Byte.x30]; []]; PrivateKey := crypto.RSAKey Examples.someKey |}
  = MemoryX509KeyStore_GetKeyPair Examples.parseNonEmpty
      {| privateKey := Examples.someKey; cert := [Byte.x30] |} ∧
  MemoryX509KeyStore_GetKeyPair Examples.parseNonEmpty
    {| privateKey := Examples.someKey; cert := [] |}
  = Err "x509: malformed certificate" ∧
  TLSCertKeyStore_GetKeyPair Examples.parseNonEmpty Examples.brokenBundle
  = Err ErrMissingCertificates.
Proof.
  split; [| split].
  - symmetry.
    apply (key_stores_agree_on_success Examples.parseNonEmpty Examples.someKey
             [Byte.x30] [[]]). reflexivity.
  - apply (key_stores_agree_on_success Examples.parseNonEmpty Examples.someKey [] []).
    reflexivity.
  - apply (key_stores_agree_on_success Examples.parseNonEmpty Examples.someKey [] [])
      with (err := "x509: malformed certificate"). reflexivity.
Defined.

Lemma GetChain_starts_with_leaf_witness :
  ∃ rest,
    TLSCertKeyStore_GetChain Examples.parseNonEmpty
      {| Certificate := [[Byte.x30]; []; [Byte.x31]];
         PrivateKey := crypto.RSAKey Examples.someKey |}
    = Ok ({| x509.Raw := [Byte.x30]; x509.Subject := "" |} :: rest).
Proof.
  apply (GetChain_starts_with_leaf Examples.parseNonEmpty
           {| Certificate := [[Byte.x30]; []; [Byte.x31]];
              PrivateKey := crypto.RSAKey Examples.someKey |} Examples.someKey).
  reflexivity.
Defined.

Lemma GetChain_length_witness :
  (2 ≤ 3)%nat ∧
  (2 = 3 ↔
   Forall (fun der => is_Ok (Examples.parseNonEmpty der) = true)
     [[Byte.x30]; []; [Byte.x31]]).
Proof.
  apply (GetChain_length Examples.parseNonEmpty
           {| Certificate := [[Byte.x30]; []; [Byte.x31]];
              PrivateKey := crypto.RSAKey Examples.someKey |}
           [ {| x509.Raw := [Byte.x30]; x509.Subject := "" |};
             {| x509.Raw := [Byte.x31]; x509.Subject := "" |} ]).
  reflexivity.
Defined.
